(** * Cultural-protocol field gating of the ACT tools

    A shallow embedding of [tools/base_tool.py] (class [BaseTool]) and
    [tools/ghl_tool.py] (class [GHLTool]) and the properties of the
    field-access policy, the guarded contact store and the review
    classifier.

    Conventions of the embedding.
    - Python [str] values are [string]s of ASCII characters.
    - A Python [dict] is an association list in insertion order; lookups
      take the first binding of a key.
    - An exception is a value of type [exn]; a method of the tool is a
      function from the tool's state to an outcome and the state left
      behind, because mutations made before an exception stay in place.
    - The coroutines of [GHLTool] are awaited one after the other, so they
      are modelled as sequential calls. *)

From Stdlib Require Import String Ascii List ZArith Bool Arith Lia.
Import ListNotations.

Local Open Scope string_scope.
Local Open Scope list_scope.

(* ================================================================== *)
(** * Python values and string primitives *)
(* ================================================================== *)

Module Py.

(** The values stored in [customFields] and given as thresholds of search
    conditions: [None], booleans, integers, strings and lists. *)
#[warnings="-register-all"] Inductive pyval : Type :=
| VNone : pyval
| VBool : bool -> pyval
| VInt : Z -> pyval
| VStr : string -> pyval
| VList : list pyval -> pyval.

(** [bool(v)]: the truth value Python gives to [v] in an [if]. *)
Definition truthy (v : pyval) : bool :=
  match v with
  | VNone => false
  | VBool b => b
  | VInt z => negb (z =? 0)%Z
  | VStr s => negb (s =? "")
  | VList l => match l with [] => false | _ :: _ => true end
  end.

(** [bool] is a subclass of [int]: [True] counts as 1, [False] as 0. *)
Definition as_number (v : pyval) : option Z :=
  match v with
  | VBool b => Some (if b then 1%Z else 0%Z)
  | VInt z => Some z
  | _ => None
  end.

(** [a == b]. Numbers compare by value, strings and lists structurally,
    values of unrelated types are different. *)
Fixpoint py_eq (a b : pyval) {struct a} : bool :=
  match a, b with
  | VNone, VNone => true
  | VStr s, VStr t => (s =? t)
  | VList l, VList m =>
      (fix list_eq (l : list pyval) (m : list pyval) {struct l} : bool :=
         match l, m with
         | [], [] => true
         | x :: l', y :: m' => py_eq x y && list_eq l' m'
         | _, _ => false
         end) l m
  | VBool x, VBool y => Bool.eqb x y
  | VBool x, VInt z => ((if x then 1 else 0) =? z)%Z
  | VInt z, VBool y => (z =? (if y then 1 else 0))%Z
  | VInt z, VInt w => (z =? w)%Z
  | _, _ => false
  end.

(** [a >= b]. [None] is [TypeError]: Python orders numbers with numbers,
    strings with strings (by code point) and lists with lists (at the
    first pair of elements that are not [==], else by length). *)
Fixpoint py_ge (a b : pyval) {struct a} : option bool :=
  match a, b with
  | VStr s, VStr t => Some (String.leb t s)
  | VList l, VList m =>
      (fix list_ge (l : list pyval) (m : list pyval) {struct l} : option bool :=
         match l, m with
         | [], [] => Some true
         | [], _ :: _ => Some false
         | _ :: _, [] => Some true
         | x :: l', y :: m' =>
             if py_eq x y then list_ge l' m' else py_ge x y
         end) l m
  | VBool x, VBool y => Some ((if y then 1 else 0) <=? (if x then 1 else 0))%Z
  | VBool x, VInt w => Some (w <=? (if x then 1 else 0))%Z
  | VInt z, VBool y => Some ((if y then 1 else 0) <=? z)%Z
  | VInt z, VInt w => Some (w <=? z)%Z
  | _, _ => None
  end.

(** [x in xs] for a list of strings. *)
Definition str_in_list (x : string) (xs : list string) : bool :=
  existsb (String.eqb x) xs.

(** One character of [str.lower()]: 'A'..'Z' move to 'a'..'z'. *)
Definition lower_char (c : ascii) : ascii :=
  let n := nat_of_ascii c in
  if (65 <=? n)%nat && (n <=? 90)%nat then ascii_of_nat (n + 32) else c.

(** [s.lower()]. *)
Fixpoint lower (s : string) : string :=
  match s with
  | EmptyString => EmptyString
  | String c s' => String (lower_char c) (lower s')
  end.

(** [needle in hay] for strings: [needle] starts at some position. *)
Fixpoint str_in (needle hay : string) : bool :=
  String.prefix needle hay
  || match hay with
     | EmptyString => false
     | String _ hay' => str_in needle hay'
     end.

(** [s.startswith(p)]. *)
Definition startswith (s p : string) : bool := String.prefix p s.

(** [sep.join(xs)]. *)
Definition join (sep : string) (xs : list string) : string :=
  String.concat sep xs.

(** The ASCII characters for which [str.isspace()] holds. *)
Definition isspace (c : ascii) : bool :=
  let n := nat_of_ascii c in
  ((9 <=? n)%nat && (n <=? 13)%nat)
  || ((28 <=? n)%nat && (n <=? 32)%nat).

Fixpoint lstrip (s : string) : string :=
  match s with
  | EmptyString => EmptyString
  | String c s' => if isspace c then lstrip s' else s
  end.

Fixpoint rstrip (s : string) : string :=
  match s with
  | EmptyString => EmptyString
  | String c s' =>
      match rstrip s' with
      | EmptyString => if isspace c then EmptyString else String c EmptyString
      | r => String c r
      end
  end.

(** [s.strip()]. *)
Definition strip (s : string) : string := rstrip (lstrip s).

(** ** Dictionaries with string keys *)

Definition dict (V : Type) : Type := list (string * V).

(** [d.get(k)], [None] when [k] is not a key. *)
Fixpoint dict_get {V : Type} (k : string) (d : dict V) : option V :=
  match d with
  | [] => None
  | (k', v) :: d' => if k' =? k then Some v else dict_get k d'
  end.

(** [k in d]. *)
Definition dict_has {V : Type} (k : string) (d : dict V) : bool :=
  match dict_get k d with Some _ => true | None => false end.

(** [d.keys()], in insertion order. *)
Definition dict_keys {V : Type} (d : dict V) : list string := map fst d.

(** [d[k] = v]: an existing key keeps its place, a new one goes last. *)
Fixpoint dict_set {V : Type} (k : string) (v : V) (d : dict V) : dict V :=
  match d with
  | [] => [(k, v)]
  | (k', v') :: d' =>
      if k' =? k then (k', v) :: d' else (k', v') :: dict_set k v d'
  end.

(** [d.update(u)]. *)
Definition dict_update {V : Type} (d u : dict V) : dict V :=
  fold_left (fun acc kv => dict_set (fst kv) (snd kv) acc) u d.

End Py.

Import Py.

(* ================================================================== *)
(** * [BaseTool]: the field policy and the review classifier *)
(* ================================================================== *)

Module BaseTool.

(** Class attribute [BLOCKED_FIELDS]. *)
Definition BLOCKED_FIELDS : list string :=
  [ "elder_consent"; "sacred_knowledge" ].

(** Class attribute [READ_ONLY_FIELDS]. *)
Definition READ_ONLY_FIELDS : list string :=
  [ "cultural_protocols"; "supabase_user_id"; "elder_review_required" ].

(** The two messages [check_cultural_protocol] raises, each with the
    field name and the operation it is formatted with:
    [Blocked] is the text of the first [raise] ("Field: '...'",
    "Operation: ..."), [ReadOnly] the text of the second
    ("Field: '...' is read-only", "Attempted operation: ..."). *)
Inductive violation : Type :=
| Blocked (field_name operation : string)
| ReadOnly (field_name operation : string).

(** The exceptions the two tools raise. *)
Inductive exn : Type :=
| PermissionError (v : violation)
| ValueError (msg : string)
| KeyError (key : string)
| TypeError
| NotImplementedError (msg : string).

(** What a call gives back: a value or a raised exception. *)
Inductive outcome (A : Type) : Type :=
| Returned (a : A)
| Raised (e : exn).
Arguments Returned {A} a.
Arguments Raised {A} e.

(** [check_cultural_protocol(field_name, operation='read', context=None)].
    [context] is accepted and never read. *)
Definition check_cultural_protocol
    (field_name : string) (operation : string)
    (context : option (dict pyval)) : outcome unit :=
  if str_in_list field_name BLOCKED_FIELDS then
    Raised (PermissionError (Blocked field_name operation))
  else if str_in_list field_name READ_ONLY_FIELDS
          && str_in_list operation [ "write"; "delete" ] then
    Raised (PermissionError (ReadOnly field_name operation))
  else
    Returned tt.

(** A contact of the CRM. [id] is always there ([c['id']] is read
    without a default); every other key is read with [.get] and may be
    missing. *)
Record Contact : Type := mkContact {
  c_id : string;
  c_email : option string;
  c_firstName : option string;
  c_lastName : option string;
  c_phone : option string;
  c_companyName : option string;
  c_tags : option (list string);
  c_customFields : option (dict pyval)
}.

(** [contact.get('tags', [])]. *)
Definition get_tags (contact : Contact) : list string :=
  match c_tags contact with Some ts => ts | None => [] end.

(** [contact.get('customFields', {})]. *)
Definition get_customFields (contact : Contact) : dict pyval :=
  match c_customFields contact with Some d => d | None => [] end.

(** [d.get(k)] used as a condition: a missing key is [None], hence false. *)
Definition field_truthy (k : string) (d : dict pyval) : bool :=
  match dict_get k d with Some v => truthy v | None => false end.

(** The dictionary [check_contact_cultural_protocols] returns. *)
Record check_result : Type := mkCheck {
  requires_review : bool;
  reason : option string;
  actions_blocked : list string;
  recommended_action : option string;
  contact_id : string;
  contact_name : string
}.

Definition or_empty (o : option string) : string :=
  match o with Some s => s | None => "" end.

(** The four local variables the rules assign to. *)
Record flag_vars : Type := mkVars {
  v_requires_review : bool;
  v_reason : option string;
  v_blocked_actions : list string;
  v_recommended_action : option string
}.

(** [check_contact_cultural_protocols(contact)]: four [if] statements in
    sequence over the same four variables. *)
Definition check_contact_cultural_protocols (contact : Contact)
  : check_result :=
  let vars := mkVars false None [] None in
  let tags := get_tags contact in
  let custom_fields := get_customFields contact in
  (* Check for Elder tag *)
  let vars :=
    if str_in_list "role:elder" tags
       || existsb (fun t => str_in "elder" (lower t)) tags
    then mkVars true
           (Some "Contact is tagged as Elder - cultural protocols apply")
           (v_blocked_actions vars
              ++ [ "automated_email"; "automated_outreach"; "ai_generated_content" ])
           (Some "Flag for human review before any communication")
    else vars in
  (* Check for elder_review_required custom field *)
  let vars :=
    if field_truthy "elder_review_required" custom_fields
    then mkVars true
           (Some "Contact has elder_review_required flag set")
           (v_blocked_actions vars
              ++ [ "automated_email"; "automated_outreach"; "ai_generated_content" ])
           (Some "Human approval required before any action")
    else vars in
  (* Check for cultural tags *)
  let cultural_tags := filter (fun t => startswith t "cultural:") tags in
  let vars :=
    match cultural_tags with
    | _ :: _ =>
        mkVars true
          (Some ("Contact has cultural tags: " ++ join ", " cultural_tags)%string)
          (v_blocked_actions vars ++ [ "bulk_operations" ])
          (Some "Review cultural context before communication")
    | [] => vars
    end in
  (* Check for sacred knowledge flag *)
  let vars :=
    if field_truthy "sacred_knowledge" custom_fields
    then mkVars true
           (Some "CRITICAL: Sacred knowledge detected - FULL BLOCK")
           (v_blocked_actions vars
              ++ [ "read"; "write"; "delete"; "automated_email";
                   "automated_outreach"; "ai_generated_content";
                   "bulk_operations" ])
           (Some "IMMEDIATELY escalate to ACT Cultural Advisor")
    else vars in
  mkCheck (v_requires_review vars) (v_reason vars)
          (v_blocked_actions vars) (v_recommended_action vars)
          (c_id contact)
          (strip (or_empty (c_firstName contact) ++ " "
                    ++ or_empty (c_lastName contact))%string).

End BaseTool.

Import BaseTool.

(* ================================================================== *)
(** * [GHLTool]: the guarded contact store *)
(* ================================================================== *)

Module GHLTool.

(** The symbol [log_cultural_protocol_check] prints first. *)
Inductive symbol : Type := SymWarning | SymCritical | SymInfo.

(** One block of lines printed by [log_cultural_protocol_check]: the
    symbol and the check result whose entries the lines show. *)
Record printed : Type := mkPrinted {
  p_symbol : symbol;
  p_check : check_result
}.

(** The instance: its two attributes and what it has printed so far. *)
Record tool : Type := mkTool {
  mock_mode : bool;
  mock_contacts : list Contact;
  stdout : list printed
}.

(** A method: it runs on the instance, returns or raises, and leaves the
    instance behind (mutations survive an exception). *)
Definition M (A : Type) : Type := tool -> outcome A * tool.

Definition ret {A : Type} (a : A) : M A := fun self => (Returned a, self).

Definition raise {A : Type} (e : exn) : M A := fun self => (Raised e, self).

Definition lift {A : Type} (o : outcome A) : M A := fun self => (o, self).

Definition bind {A B : Type} (m : M A) (k : A -> M B) : M B :=
  fun self =>
    match m self with
    | (Returned a, self') => k a self'
    | (Raised e, self') => (Raised e, self')
    end.

Notation "x <- m ;; k" := (bind m (fun x => k))
  (at level 61, m at next level, right associativity).

Definition get_self : M tool := fun self => (Returned self, self).

(** [for x in xs: body(x)]. *)
Fixpoint for_each {A : Type} (xs : list A) (body : A -> M unit) : M unit :=
  match xs with
  | [] => ret tt
  | x :: xs' => _ <- body x ;; for_each xs' body
  end.

(** A list comprehension [[c for c in cs if p(c)]] whose test may raise. *)
Fixpoint filter_raising {A : Type} (p : A -> outcome bool) (cs : list A)
  : outcome (list A) :=
  match cs with
  | [] => Returned []
  | c :: cs' =>
      match p c with
      | Raised e => Raised e
      | Returned b =>
          match filter_raising p cs' with
          | Raised e => Raised e
          | Returned r => Returned (if b then c :: r else r)
          end
      end
  end.

Definition set_tags (contact : Contact) (tags : list string) : Contact :=
  mkContact (c_id contact) (c_email contact) (c_firstName contact)
            (c_lastName contact) (c_phone contact) (c_companyName contact)
            (Some tags) (c_customFields contact).

Definition set_customFields (contact : Contact) (d : dict pyval) : Contact :=
  mkContact (c_id contact) (c_email contact) (c_firstName contact)
            (c_lastName contact) (c_phone contact) (c_companyName contact)
            (c_tags contact) (Some d).

(** The object [get_contact] hands out is the first contact of
    [mock_contacts] with the requested id; writing to it writes to that
    entry of the list. *)
Fixpoint replace_first (c : Contact) (cs : list Contact) : list Contact :=
  match cs with
  | [] => []
  | c' :: cs' =>
      if c_id c' =? c_id c then c :: cs' else c' :: replace_first c cs'
  end.

(** An assignment to a key of the stored contact, giving its new value. *)
Definition assign (c : Contact) : M Contact :=
  fun self =>
    (Returned c,
     mkTool (mock_mode self) (replace_first c (mock_contacts self))
            (stdout self)).

Definition print (p : printed) : M unit :=
  fun self =>
    (Returned tt,
     mkTool (mock_mode self) (mock_contacts self) (stdout self ++ [p])).

(** [log_cultural_protocol_check(check_result, log_level='INFO')], the
    method of [BaseTool]; it stands here because it prints. *)
Definition log_cultural_protocol_check
    (check : check_result) (log_level : string) : M unit :=
  if requires_review check then
    let symbol :=
      if log_level =? "WARNING" then SymWarning
      else if log_level =? "CRITICAL" then SymCritical
      else SymInfo in
    print (mkPrinted symbol check)
  else ret tt.

Definition str (s : string) : pyval := VStr s.
Definition int (z : Z) : pyval := VInt z.

(** [_load_mock_data()]. *)
Definition _load_mock_data : list Contact :=
  [ mkContact "contact_001" (Some "jane.smith@example.com")
      (Some "Jane") (Some "Smith") (Some "+61412345678") None
      (Some [ "empathy-ledger"; "role:storyteller"; "engagement:active" ])
      (Some [ ("supabase_user_id", str "uuid-123-storyteller");
              ("storyteller_status", str "Active");
              ("stories_count", int 5);
              ("consent_status", str "Full consent");
              ("ai_processing_consent", str "Yes") ]);
    mkContact "contact_002" (Some "john.doe@example.com")
      (Some "John") (Some "Doe") (Some "+61423456789") None
      (Some [ "act-farm"; "role:resident"; "engagement:alumni";
              "interest:storytelling"; "category:artist" ])
      (Some [ ("residency_type", str "Creative Residency");
              ("residency_dates", str "2025-03-15 to 2025-03-22");
              ("residency_completed", VBool true);
              ("research_focus",
               str "Environmental art and conservation storytelling") ]);
    mkContact "contact_003" (Some "elder.mary@example.com")
      (Some "Mary") (Some "Johnson") (Some "+61434567890") None
      (Some [ "empathy-ledger"; "the-harvest"; "role:elder";
              "cultural:kabi-kabi"; "priority:high"; "engagement:active" ])
      (Some [ ("supabase_user_id", str "uuid-456-elder");
              ("cultural_protocols",
               str "Kabi Kabi Elder - requires cultural review for all communications");
              ("elder_review_required", VBool true);
              ("stories_count", int 12);
              ("volunteer_hours_total", int 240) ]);
    mkContact "contact_004" (Some "sarah.chen@university.edu.au")
      (Some "Sarah") (Some "Chen") (Some "+61445678901")
      (Some "University of Queensland")
      (Some [ "empathy-ledger"; "role:partner"; "engagement:lead";
              "category:organization"; "category:university"; "lead:saas" ])
      (Some [ ("organization_type", str "University");
              ("estimated_users", int 500);
              ("pilot_interest", VBool true);
              ("arr", int 6000);
              ("customer_health_score", int 85) ]);
    mkContact "contact_005" (Some "michael.brown@example.com")
      (Some "Michael") (Some "Brown") (Some "+61456789012") None
      (Some [ "the-harvest"; "role:volunteer"; "engagement:active";
              "interest:conservation"; "interest:regenerative-agriculture" ])
      (Some [ ("volunteer_interests",
               VList [ str "Gardening & land care"; str "Conservation projects" ]);
              ("volunteer_hours_total", int 65);
              ("volunteer_orientation_completed", VBool true);
              ("membership_level", str "Supporter ($100/year)") ]) ].

(** [__init__()], given what [os.environ] holds for
    [ENABLE_GHL_INTEGRATION]. *)
Definition init (ENABLE_GHL_INTEGRATION : option string) : tool :=
  let value :=
    match ENABLE_GHL_INTEGRATION with Some v => v | None => "false" end in
  let mock := negb (lower value =? "true") in
  mkTool mock (if mock then _load_mock_data else []) [].

(** The [filters] argument of [search_contacts]: a dictionary read at
    the keys ['tags'] and ['customFieldFilters'] only. Each field of
    [customFieldFilters] maps to a condition, itself a dictionary read
    at the keys ['$gte'], ['$eq'] and ['$exists']. *)
Record Filters : Type := mkFilters {
  f_tags : option (list string);
  f_customFieldFilters : option (dict (dict pyval))
}.

(** The [updates] argument of [update_contact]: a dictionary read at the
    keys ['tags'] and ['customFields'] only. *)
Record Updates : Type := mkUpdates {
  u_tags : option (list string);
  u_customFields : option (dict pyval)
}.

(** [x.get(key, {})] for an optional dictionary. *)
Definition or_empty_dict {V : Type} (o : option (dict V)) : dict V :=
  match o with Some d => d | None => [] end.

(** The test of the ['$gte'] comprehension:
    [c.get('customFields', {}).get(field, 0) >= bound]. *)
Definition gte_test (field : string) (bound : pyval) (c : Contact)
  : outcome bool :=
  let value :=
    match dict_get field (get_customFields c) with
    | Some v => v
    | None => VInt 0
    end in
  match py_ge value bound with
  | Some b => Returned b
  | None => Raised TypeError
  end.

(** The test of the ['$eq'] comprehension:
    [c.get('customFields', {}).get(field) == wanted]. *)
Definition eq_test (field : string) (wanted : pyval) (c : Contact) : bool :=
  let value :=
    match dict_get field (get_customFields c) with
    | Some v => v
    | None => VNone
    end in
  py_eq value wanted.

(** The test of the ['$exists'] comprehension:
    [(field in c.get('customFields', {})) == wanted]. *)
Definition exists_test (field : string) (wanted : pyval) (c : Contact) : bool :=
  py_eq (VBool (dict_has field (get_customFields c))) wanted.

(** The body of the loop over [customFieldFilters.items()]: the
    [if]/[elif]/[elif] chain on the keys of [condition], with no [else]. *)
Definition apply_condition
    (field : string) (condition : dict pyval) (results : list Contact)
  : outcome (list Contact) :=
  match dict_get "$gte" condition with
  | Some bound => filter_raising (gte_test field bound) results
  | None =>
      match dict_get "$eq" condition with
      | Some wanted => Returned (filter (eq_test field wanted) results)
      | None =>
          match dict_get "$exists" condition with
          | Some wanted => Returned (filter (exists_test field wanted) results)
          | None => Returned results
          end
      end
  end.

Fixpoint apply_conditions
    (items : dict (dict pyval)) (results : list Contact)
  : outcome (list Contact) :=
  match items with
  | [] => Returned results
  | (field, condition) :: items' =>
      match apply_condition field condition results with
      | Raised e => Raised e
      | Returned results' => apply_conditions items' results'
      end
  end.

(** [search_contacts(filters=None)]. *)
Definition search_contacts (filters : option Filters) : M (list Contact) :=
  let filters :=
    match filters with Some f => f | None => mkFilters None None end in
  (* Check for blocked field access in customFieldFilters *)
  _ <- for_each (dict_keys (or_empty_dict (f_customFieldFilters filters)))
         (fun field => lift (check_cultural_protocol field "read" None)) ;;
  self <- get_self ;;
  if mock_mode self then
    let results := mock_contacts self in
    (* Filter by tags *)
    let results :=
      match f_tags filters with
      | Some (tag0 :: tags') =>
          filter
            (fun c => existsb (fun tag => str_in_list tag (get_tags c))
                        (tag0 :: tags'))
            results
      | _ => results
      end in
    (* Filter by custom fields *)
    match f_customFieldFilters filters with
    | Some items => lift (apply_conditions items results)
    | None => ret results
    end
  else
    raise (NotImplementedError "Real GHL API integration coming in Week 3").

(** [get_contact(contact_id)]. A contact found has the key ['id'], so it
    is never an empty (false) dictionary. *)
Definition get_contact (contact_id : string) : M Contact :=
  self <- get_self ;;
  if mock_mode self then
    match find (fun c => c_id c =? contact_id) (mock_contacts self) with
    | None => raise (ValueError ("Contact not found: " ++ contact_id)%string)
    | Some contact =>
        (* Run cultural protocol check *)
        let check := check_contact_cultural_protocols contact in
        _ <- (if requires_review check
              then log_cultural_protocol_check check "WARNING"
              else ret tt) ;;
        ret contact
    end
  else
    raise (NotImplementedError "Real GHL API integration coming in Week 3").

(** [update_contact(contact_id, updates)]. The value returned is the
    stored contact as it is when the call returns. *)
Definition update_contact (contact_id : string) (updates : Updates)
  : M Contact :=
  (* Check for blocked field updates *)
  _ <- for_each (dict_keys (or_empty_dict (u_customFields updates)))
         (fun field => lift (check_cultural_protocol field "write" None)) ;;
  self <- get_self ;;
  if mock_mode self then
    contact <- get_contact contact_id ;;
    (* Update tags if provided *)
    contact <- (match u_tags updates with
                | Some tags => assign (set_tags contact tags)
                | None => ret contact
                end) ;;
    (* Update custom fields if provided *)
    contact <- (match u_customFields updates with
                | Some fields =>
                    match c_customFields contact with
                    | Some stored =>
                        assign (set_customFields contact
                                  (dict_update stored fields))
                    | None => raise (KeyError "customFields")
                    end
                | None => ret contact
                end) ;;
    (* Log if contact has cultural protocols *)
    let check := check_contact_cultural_protocols contact in
    _ <- (if requires_review check
          then log_cultural_protocol_check check "INFO"
          else ret tt) ;;
    ret contact
  else
    raise (NotImplementedError "Real GHL API integration coming in Week 3").

(** [add_tag(contact_id, tag)]. [tags.append(tag)] works on the list the
    stored contact holds when it has the key ['tags'], and on a fresh
    list otherwise. *)
Definition add_tag (contact_id : string) (tag : string) : M Contact :=
  contact <- get_contact contact_id ;;
  if negb (str_in_list tag (get_tags contact)) then
    let tags := get_tags contact ++ [tag] in
    _ <- (match c_tags contact with
          | Some _ => assign (set_tags contact tags)
          | None => ret contact
          end) ;;
    update_contact contact_id (mkUpdates (Some tags) None)
  else ret contact.

(** [xs.remove(x)]: the first occurrence goes. *)
Fixpoint list_remove (x : string) (xs : list string) : list string :=
  match xs with
  | [] => []
  | y :: xs' => if y =? x then xs' else y :: list_remove x xs'
  end.

(** [remove_tag(contact_id, tag)]. *)
Definition remove_tag (contact_id : string) (tag : string) : M Contact :=
  contact <- get_contact contact_id ;;
  if str_in_list tag (get_tags contact) then
    let tags := list_remove tag (get_tags contact) in
    _ <- (match c_tags contact with
          | Some _ => assign (set_tags contact tags)
          | None => ret contact
          end) ;;
    update_contact contact_id (mkUpdates (Some tags) None)
  else ret contact.

(** What [execute] hands back: the list of [search_contacts] or the
    contact of the four other methods. *)
Inductive result : Type :=
| Contacts (cs : list Contact)
| OneContact (c : Contact).

(** The keyword arguments of [execute]: the four parameter names the
    methods know, each given or not ([filters] may be given as [None]),
    and the names of any other keyword passed. *)
Record Kwargs : Type := mkKwargs {
  k_filters : option (option Filters);
  k_contact_id : option string;
  k_updates : option Updates;
  k_tag : option string;
  k_others : list string
}.

(** The call of a method whose parameters are [wanted] with the keyword
    arguments unpacked: a keyword
    that is no parameter is a [TypeError]. *)
Definition unexpected (kwargs : Kwargs) (wanted : list string) : bool :=
  negb (match k_others kwargs with [] => true | _ :: _ => false end)
  || match k_filters kwargs with
     | Some _ => negb (str_in_list "filters" wanted)
     | None => false
     end
  || match k_contact_id kwargs with
     | Some _ => negb (str_in_list "contact_id" wanted)
     | None => false
     end
  || match k_updates kwargs with
     | Some _ => negb (str_in_list "updates" wanted)
     | None => false
     end
  || match k_tag kwargs with
     | Some _ => negb (str_in_list "tag" wanted)
     | None => false
     end.

(** [execute(action, kwargs...)], [action] given by position: a keyword
    named 'self' or 'action' gives that parameter a second value, a
    [TypeError] of the call itself, before the body runs. Then the table
    of the five methods, the test of [action] against its keys, and the
    call with the keywords. A required parameter that is not given is a
    [TypeError]. *)
Definition execute (action : string) (kwargs : Kwargs) : M result :=
  if str_in_list "self" (k_others kwargs)
     || str_in_list "action" (k_others kwargs) then
    raise TypeError
  else if negb (str_in_list action
                  [ "search"; "get"; "update"; "add_tag"; "remove_tag" ]) then
    raise (ValueError
             ("Unknown action: " ++ action
              ++ ". Available: ['search', 'get', 'update', 'add_tag', 'remove_tag']")%string)
  else if action =? "search" then
    if unexpected kwargs [ "filters" ] then raise TypeError
    else
      cs <- search_contacts
              (match k_filters kwargs with Some f => f | None => None end) ;;
      ret (Contacts cs)
  else if action =? "get" then
    if unexpected kwargs [ "contact_id" ] then raise TypeError
    else
      match k_contact_id kwargs with
      | Some contact_id => c <- get_contact contact_id ;; ret (OneContact c)
      | None => raise TypeError
      end
  else if action =? "update" then
    if unexpected kwargs [ "contact_id"; "updates" ] then raise TypeError
    else
      match k_contact_id kwargs, k_updates kwargs with
      | Some contact_id, Some updates =>
          c <- update_contact contact_id updates ;; ret (OneContact c)
      | _, _ => raise TypeError
      end
  else if action =? "add_tag" then
    if unexpected kwargs [ "contact_id"; "tag" ] then raise TypeError
    else
      match k_contact_id kwargs, k_tag kwargs with
      | Some contact_id, Some tag =>
          c <- add_tag contact_id tag ;; ret (OneContact c)
      | _, _ => raise TypeError
      end
  else
    if unexpected kwargs [ "contact_id"; "tag" ] then raise TypeError
    else
      match k_contact_id kwargs, k_tag kwargs with
      | Some contact_id, Some tag =>
          c <- remove_tag contact_id tag ;; ret (OneContact c)
      | _, _ => raise TypeError
      end.

End GHLTool.

Import GHLTool.

(* ================================================================== *)
(** * Vocabulary of the statements *)
(* ================================================================== *)

(** The upper-case form of a lower-case letter; other characters stay. *)
Definition upcase (c : ascii) : ascii :=
  let n := nat_of_ascii c in
  if (97 <=? n)%nat && (n <=? 122)%nat then ascii_of_nat (n - 32) else c.

(** [same_letters pat s]: [s] spells [pat], each letter in either case. *)
Inductive same_letters : string -> string -> Prop :=
| same_nil : same_letters EmptyString EmptyString
| same_keep (c : ascii) (pat s : string) :
    same_letters pat s -> same_letters (String c pat) (String c s)
| same_upper (c : ascii) (pat s : string) :
    same_letters pat s -> same_letters (String c pat) (String (upcase c) s).

(** [t] has a substring that spells [pat] in some mix of letter cases. *)
Definition contains_any_case (pat t : string) : Prop :=
  exists pre mid post : string,
    t = (pre ++ mid ++ post)%string /\ same_letters pat mid.

(** The contact the store holds under an id: the first with that id. *)
Definition stored (self : tool) (contact_id : string) : option Contact :=
  find (fun c => c_id c =? contact_id) (mock_contacts self).

(** How often a tag occurs in a tag list. *)
Definition occurrences (tag : string) (tags : list string) : nat :=
  count_occ string_dec tags tag.

(** The value a contact holds for a field, if it has the field. *)
Definition field_value (field : string) (c : Contact) : option pyval :=
  dict_get field (get_customFields c).

(** The number a contact holds for a field, 0 when the field is missing;
    [None] when the value is not a number. *)
Definition field_number (field : string) (c : Contact) : option Z :=
  match field_value field c with
  | Some v => as_number v
  | None => Some 0%Z
  end.

(** The instance right after construction with an empty environment. *)
Definition fresh_tool : tool := init None.

(** The instance after [log_cultural_protocol_check] ran on the check of
    a contact. *)
Definition logged (level : string) (c : Contact) (self : tool) : tool :=
  snd (log_cultural_protocol_check
         (check_contact_cultural_protocols c) level self).

(** The instance after a write to the stored contact. *)
Definition assigned (c : Contact) (self : tool) : tool := snd (assign c self).

(** A contact with a tag added at the end unless it is already there. *)
Definition tagged (tag : string) (c : Contact) : Contact :=
  if str_in_list tag (get_tags c) then c else set_tags c (get_tags c ++ [tag]).

(** A less-or-equal comparison as the specification reads it: the number
    a contact holds for the field (0 when missing) is at most the bound. *)
Definition lte_holds (field : string) (bound : Z) (c : Contact) : Prop :=
  match field_number field c with
  | Some k => (k <= bound)%Z
  | None => False
  end.

(** A search with one field condition and no tag filter. *)
Definition search_field (field : string) (condition : dict pyval)
  : M (list Contact) :=
  search_contacts (Some (mkFilters None (Some [ (field, condition) ]))).

(* ================================================================== *)
(** * The classifier as the specification words it: an ordered rule list *)
(* ================================================================== *)

(** The rules are stated on the record itself, in words of their own:
    a tag that spells 'elder' in some mix of letter cases, a field that
    holds a value Python does not take for false, a tag that continues
    the namespace [cultural:]. [matches_as_worded] reads rule (d) as the
    specification puts it, the critical field being present. *)
Module Rules.

(** What one matching rule contributes. *)
Record effect : Type := mkEffect {
  e_reason : string;
  e_actions : list string;
  e_recommended : string
}.

Definition outreach_actions : list string :=
  [ "automated_email"; "automated_outreach"; "ai_generated_content" ].

Definition all_actions : list string :=
  [ "read"; "write"; "delete"; "automated_email"; "automated_outreach";
    "ai_generated_content"; "bulk_operations" ].

(** The four rules: (a), (b), (c) and (d). *)
Inductive name : Type :=
| ElderTag
| ReviewFlag
| CulturalTag
| CriticalField.

(** The fixed priority order. *)
Definition order : list name :=
  [ ElderTag; ReviewFlag; CulturalTag; CriticalField ].

(** The tags of a record; a record without a tag list has none. *)
Definition tags_of (c : Contact) : list string :=
  match c_tags c with Some tags => tags | None => [] end.

(** [binds field v fields]: the dictionary gives [field] the value [v]. *)
Inductive binds (field : string) (v : pyval) : dict pyval -> Prop :=
| binds_here (rest : dict pyval) : binds field v ((field, v) :: rest)
| binds_later (k : string) (w : pyval) (rest : dict pyval) :
    k <> field -> binds field v rest -> binds field v ((k, w) :: rest).

(** The record has the custom field, with the value [v]. *)
Definition holds (field : string) (v : pyval) (c : Contact) : Prop :=
  exists fields, c_customFields c = Some fields /\ binds field v fields.

(** The values Python takes for false. *)
Definition false_value (v : pyval) : Prop :=
  v = VNone \/ v = VBool false \/ v = VInt 0 \/ v = VStr "" \/ v = VList [].

(** The tag continues the namespace. *)
Definition in_namespace (namespace tag : string) : Prop :=
  exists rest : string, tag = (namespace ++ rest)%string.

(** When a rule matches a record. *)
Definition matches (r : name) (c : Contact) : Prop :=
  match r with
  | ElderTag =>
      exists tag, In tag (tags_of c) /\ contains_any_case "elder" tag
  | ReviewFlag =>
      exists v, holds "elder_review_required" v c /\ ~ false_value v
  | CulturalTag =>
      exists tag, In tag (tags_of c) /\ in_namespace "cultural:" tag
  | CriticalField =>
      exists v, holds "sacred_knowledge" v c /\ ~ false_value v
  end.

(** The same with rule (d) as the specification words it: the field
    [sacred_knowledge] is present, whatever it holds. *)
Definition matches_as_worded (r : name) (c : Contact) : Prop :=
  match r with
  | CriticalField => exists v, holds "sacred_knowledge" v c
  | _ => matches r c
  end.

(** [selects M c rs matched]: [matched] lists the rules of [rs] that
    match [c] under [M], in the order of [rs]. *)
Inductive selects (M : name -> Contact -> Prop) (c : Contact)
  : list name -> list name -> Prop :=
| selects_nil : selects M c [] []
| selects_match (r : name) (rs matched : list name) :
    M r c -> selects M c rs matched -> selects M c (r :: rs) (r :: matched)
| selects_skip (r : name) (rs matched : list name) :
    ~ M r c -> selects M c rs matched -> selects M c (r :: rs) matched.

(** The tags of the record under the namespace, separated by commas. *)
Fixpoint listing (tags : list string) : string :=
  match tags with
  | [] => ""
  | [ tag ] => tag
  | tag :: rest => tag ++ ", " ++ listing rest
  end.

(** What each rule contributes when it matches. *)
Definition effect_of (r : name) (c : Contact) : effect :=
  match r with
  | ElderTag =>
      mkEffect "Contact is tagged as Elder - cultural protocols apply"
               outreach_actions
               "Flag for human review before any communication"
  | ReviewFlag =>
      mkEffect "Contact has elder_review_required flag set"
               outreach_actions
               "Human approval required before any action"
  | CulturalTag =>
      mkEffect ("Contact has cultural tags: "
                ++ listing (filter (String.prefix "cultural:") (tags_of c)))
               [ "bulk_operations" ]
               "Review cultural context before communication"
  | CriticalField =>
      mkEffect "CRITICAL: Sacred knowledge detected - FULL BLOCK"
               all_actions
               "IMMEDIATELY escalate to ACT Cultural Advisor"
  end.

(** The last element of a list, if any. *)
Fixpoint last_of {A : Type} (xs : list A) : option A :=
  match xs with
  | [] => None
  | [x] => Some x
  | _ :: xs' => last_of xs'
  end.

Definition is_empty {A : Type} (xs : list A) : bool :=
  match xs with [] => true | _ :: _ => false end.

End Rules.

(** The test each of the four [if] statements of
    [check_contact_cultural_protocols] makes, by the rule it implements. *)
Definition rule_test (r : Rules.name) (contact : Contact) : bool :=
  match r with
  | Rules.ElderTag =>
      str_in_list "role:elder" (get_tags contact)
      || existsb (fun t => str_in "elder" (lower t)) (get_tags contact)
  | Rules.ReviewFlag =>
      field_truthy "elder_review_required" (get_customFields contact)
  | Rules.CulturalTag =>
      negb (Rules.is_empty
              (filter (fun t => startswith t "cultural:") (get_tags contact)))
  | Rules.CriticalField =>
      field_truthy "sacred_knowledge" (get_customFields contact)
  end.

(* ================================================================== *)
(** * Vocabulary of the store properties *)
(* ================================================================== *)

(** The keys of a contact that no method of the tool writes. *)
Definition identity (c : Contact)
  : string * option string * option string * option string
    * option string * option string :=
  (c_id c, c_email c, c_firstName c, c_lastName c, c_phone c, c_companyName c).

(** A field is protected when it is blocked or read-only. *)
Definition protected (field : string) : Prop :=
  In field BLOCKED_FIELDS \/ In field READ_ONLY_FIELDS.

(** Every field name of a list passes the policy for an operation. *)
Definition permitted (operation : string) (fields : list string) : Prop :=
  forall f, In f fields ->
    check_cultural_protocol f operation None = Returned tt.

(** The record a permitted update makes of a contact: the tags replaced
    when tags are given, then the fields merged when fields are given. *)
Definition apply_updates (updates : Updates) (c : Contact) : Contact :=
  let c1 :=
    match u_tags updates with
    | Some tags => set_tags c tags
    | None => c
    end in
  match u_customFields updates with
  | Some fields => set_customFields c1 (dict_update (get_customFields c1) fields)
  | None => c1
  end.

(** The last value a list of bindings gives to a key. *)
Definition last_binding {V : Type} (k : string) (u : dict V) : option V :=
  dict_get k (rev u).

(** What [log_cultural_protocol_check] prints for a contact at a level:
    one block when the contact needs a review, nothing otherwise. *)
Definition review_block (s : symbol) (c : Contact) : list printed :=
  if requires_review (check_contact_cultural_protocols c)
  then [ mkPrinted s (check_contact_cultural_protocols c) ]
  else [].

(** A contact carries at least one of the wanted tags. *)
Definition has_any_tag (wanted : list string) (c : Contact) : Prop :=
  exists tag, In tag wanted /\ In tag (get_tags c).

(** A contact passes one field condition of a search. *)
Definition condition_holds
    (field : string) (condition : dict pyval) (c : Contact) : Prop :=
  match dict_get "$gte" condition with
  | Some bound =>
      py_ge (match field_value field c with Some v => v | None => VInt 0 end)
            bound = Some true
  | None =>
      match dict_get "$eq" condition with
      | Some wanted =>
          py_eq (match field_value field c with Some v => v | None => VNone end)
                wanted = true
      | None =>
          match dict_get "$exists" condition with
          | Some wanted =>
              py_eq (VBool (match field_value field c with
                            | Some _ => true
                            | None => false
                            end)) wanted = true
          | None => True
          end
      end
  end.

(** The seven action kinds the classifier can block. *)
Definition action_kinds : list string :=
  [ "read"; "write"; "delete"; "automated_email"; "automated_outreach";
    "ai_generated_content"; "bulk_operations" ].

(** Two states of the instance with the same mode and with contacts that
    are related one by one, in order. *)
Definition kept (R : Contact -> Contact -> Prop) (self self' : tool) : Prop :=
  mock_mode self' = mock_mode self
  /\ Forall2 R (mock_contacts self) (mock_contacts self').

(** A contact with the first occurrence of a tag taken out, if any. *)
Definition untagged (tag : string) (c : Contact) : Contact :=
  if str_in_list tag (get_tags c)
  then set_tags c (list_remove tag (get_tags c))
  else c.

(* ================================================================== *)
(** * [ConnectorAgent.create_handoff] *)
(* ================================================================== *)

Module ConnectorAgent.

(** The dictionary [create_handoff] returns. *)
Record Handoff : Type := mkHandoff {
  h_contact_id : string;
  h_contact_name : string;
  h_target_project : string;
  h_reason : string;
  h_priority : Z;
  h_opportunity_tag : string;
  h_created : bool
}.

(** ['high' if priority >= 4 else 'medium' if priority >= 3 else 'low']. *)
Definition priority_word (priority : Z) : string :=
  if (4 <=? priority)%Z then "high"
  else if (3 <=? priority)%Z then "medium"
  else "low".

(** [create_handoff(contact_id, target_project, reason, priority=3)]. The
    agent works on the tool it was built with, which is the state here. *)
Definition create_handoff
    (contact_id target_project reason : string) (priority : Z) : M Handoff :=
  contact <- get_contact contact_id ;;
  let contact_name :=
    strip (or_empty (c_firstName contact) ++ " "
             ++ or_empty (c_lastName contact))%string in
  (* Tag contact with opportunity *)
  let opportunity_tag := ("opportunity:" ++ target_project)%string in
  _ <- add_tag contact_id opportunity_tag ;;
  (* Tag with priority level *)
  let priority_tag := ("priority:" ++ priority_word priority)%string in
  _ <- add_tag contact_id priority_tag ;;
  ret (mkHandoff contact_id contact_name target_project reason priority
                 opportunity_tag true).

End ConnectorAgent.

(* ================================================================== *)
(** * [CleanupAgent] *)
(* ================================================================== *)

Module CleanupAgent.

(** ** Text helpers of the normalisers *)

(** [c.isdigit()] on ASCII: '0'..'9'. *)
Definition isdigit (c : ascii) : bool :=
  let n := nat_of_ascii c in (48 <=? n)%nat && (n <=? 57)%nat.

(** [''.join(c for c in s if c.isdigit())]. *)
Fixpoint keep_digits (s : string) : string :=
  match s with
  | EmptyString => EmptyString
  | String c s' =>
      if isdigit c then String c (keep_digits s') else keep_digits s'
  end.

(** [s[i:j]] for [0 <= i <= j]. *)
Definition slice (i j : nat) (s : string) : string := substring i (j - i) s.

(** [s[i:]]. *)
Definition slice_from (i : nat) (s : string) : string :=
  substring i (String.length s - i) s.

(** [s.replace(' ', '-')]. *)
Fixpoint replace_spaces (s : string) : string :=
  match s with
  | EmptyString => EmptyString
  | String c s' =>
      String (if Ascii.eqb c " " then "-"%char else c) (replace_spaces s')
  end.

(** [s.replace('--', '-')]: left to right, without overlap. *)
Fixpoint replace_double_hyphens (s : string) : string :=
  match s with
  | EmptyString => EmptyString
  | String c s' =>
      match s' with
      | String d s'' =>
          if Ascii.eqb c "-" && Ascii.eqb d "-"
          then String "-" (replace_double_hyphens s'')
          else String c (replace_double_hyphens s')
      | EmptyString => String c EmptyString
      end
  end.

(** [while '--' in tag: tag = tag.replace('--', '-')], with a bound on the
    number of rounds; each round shortens the tag, so its length is
    bound enough. *)
Fixpoint collapse_hyphens (rounds : nat) (tag : string) : string :=
  match rounds with
  | O => tag
  | S rounds' =>
      if str_in "--" tag
      then collapse_hyphens rounds' (replace_double_hyphens tag)
      else tag
  end.

Fixpoint lstrip_hyphens (s : string) : string :=
  match s with
  | EmptyString => EmptyString
  | String c s' => if Ascii.eqb c "-" then lstrip_hyphens s' else s
  end.

Fixpoint rstrip_hyphens (s : string) : string :=
  match s with
  | EmptyString => EmptyString
  | String c s' =>
      match rstrip_hyphens s' with
      | EmptyString =>
          if Ascii.eqb c "-" then EmptyString else String c EmptyString
      | r => String c r
      end
  end.

(** [s.strip('-')]. *)
Definition strip_hyphens (s : string) : string :=
  rstrip_hyphens (lstrip_hyphens s).

(** ** The methods *)

(** The body of the loop of [normalize_tags] up to the test: what one
    tag becomes. *)
Definition normalize_tag (tag : string) : string :=
  (* Convert to lowercase *)
  let tag := strip (lower tag) in
  (* Replace spaces with hyphens *)
  let tag := replace_spaces tag in
  (* Remove multiple consecutive hyphens *)
  let tag := collapse_hyphens (String.length tag) tag in
  (* Remove leading/trailing hyphens *)
  strip_hyphens tag.

(** The loop of [normalize_tags] over the tags left, with its two
    variables [normalized] and [seen]. *)
Fixpoint normalize_loop
    (tags : list string) (normalized seen : list string) : list string :=
  match tags with
  | [] => normalized
  | tag :: tags' =>
      let tag := normalize_tag tag in
      if negb (tag =? "") && negb (str_in_list tag seen)
      then normalize_loop tags' (normalized ++ [tag]) (tag :: seen)
      else normalize_loop tags' normalized seen
  end.

(** [normalize_tags(contact)]. *)
Definition normalize_tags (contact : Contact) : list string :=
  normalize_loop (get_tags contact) [] [].

(** The [defaults] table of [fix_missing_fields], in its order. *)
Definition defaults : dict pyval :=
  [ ("volunteer_hours_total", VInt 0);
    ("stories_count", VInt 0);
    ("lifetime_donation_value", VInt 0);
    ("volunteer_orientation_completed", VBool false);
    ("elder_review_required", VBool false);
    ("ndis_participant", VBool false);
    ("pilot_interest", VBool false) ].

(** [field not in custom_fields or custom_fields[field] is None]. *)
Definition is_missing (field : string) (custom_fields : dict pyval) : bool :=
  match dict_get field custom_fields with
  | None => true
  | Some VNone => true
  | Some _ => false
  end.

(** The loop of [fix_missing_fields] over the table: the dictionary and
    the flag [updated] it leaves. *)
Fixpoint fill_defaults
    (table : dict pyval) (custom_fields : dict pyval) (updated : bool)
  : dict pyval * bool :=
  match table with
  | [] => (custom_fields, updated)
  | (field, default_value) :: table' =>
      if is_missing field custom_fields
      then fill_defaults table' (dict_set field default_value custom_fields) true
      else fill_defaults table' custom_fields updated
  end.

(** [fix_missing_fields(contact)]: the contact as the call leaves it,
    which is also what it returns. The dictionary the loop writes to is
    the one the contact holds when it has the key ['customFields'], so
    the contact changes with it; otherwise the fresh dictionary is
    assigned when something was filled in. *)
Definition fix_missing_fields (contact : Contact) : Contact :=
  let (custom_fields, updated) :=
    fill_defaults defaults (get_customFields contact) false in
  match c_customFields contact with
  | Some _ => set_customFields contact custom_fields
  | None => if updated then set_customFields contact custom_fields else contact
  end.

(** [normalize_email(email)]. *)
Definition normalize_email (email : string) : string :=
  if email =? "" then "" else strip (lower email).

(** [normalize_phone(phone)]. *)
Definition normalize_phone (phone : string) : string :=
  if phone =? "" then ""
  else
    (* Remove all non-digits *)
    let digits := keep_digits phone in
    (* Handle Australian numbers *)
    let digits :=
      if String.prefix "61" digits then slice_from 2 digits
      else if String.prefix "0" digits then slice_from 1 digits
      else digits in
    if (String.length digits =? 9)%nat then
      if String.prefix "4" digits then
        ("+61 " ++ slice 0 3 digits ++ " " ++ slice 3 6 digits
           ++ " " ++ slice 6 9 digits)%string
      else
        ("+61 " ++ slice 0 1 digits ++ " " ++ slice 1 5 digits
           ++ " " ++ slice 5 9 digits)%string
    else phone.

(** [check_cultural_protocols(contact)]: the checker of the tool. *)
Definition check_cultural_protocols (contact : Contact) : check_result :=
  check_contact_cultural_protocols contact.

(** [a == b] for two dictionaries: as many keys, and each key of the
    first bound in the second to an equal value. *)
Definition dict_eq (a b : dict pyval) : bool :=
  (List.length a =? List.length b)%nat
  && forallb (fun kv => match dict_get (fst kv) b with
                        | Some w => py_eq (snd kv) w
                        | None => false
                        end) a.

(** [a == b] for two lists of strings. *)
Fixpoint tags_eq (a b : list string) : bool :=
  match a, b with
  | [], [] => true
  | x :: a', y :: b' => (x =? y) && tags_eq a' b'
  | _, _ => false
  end.

(** The loop of [find_duplicates] that groups the contacts by their
    normalised email. *)
Fixpoint group_by_email
    (contacts : list Contact) (email_groups : dict (list Contact))
  : dict (list Contact) :=
  match contacts with
  | [] => email_groups
  | contact :: contacts' =>
      let email := strip (lower (or_empty (c_email contact))) in
      if email =? "" then group_by_email contacts' email_groups
      else
        let email_groups :=
          if dict_has email email_groups then email_groups
          else dict_set email [] email_groups in
        group_by_email contacts'
          (dict_set email
             (match dict_get email email_groups with
              | Some group => group ++ [contact]
              | None => [contact]
              end) email_groups)
  end.

(** [find_duplicates()]. *)
Definition find_duplicates : M (dict (list Contact)) :=
  all_contacts <- search_contacts (Some (mkFilters None None)) ;;
  let email_groups := group_by_email all_contacts [] in
  ret (filter (fun group => (1 <? List.length (snd group))%nat) email_groups).

(** The texts [run] returns, each with the values it is formatted with. *)
Inductive report : Type :=
| NoDuplicates
| Duplicates (groups : list (string * list (string * string * string)))
| TagsNormalized (fixed : nat)
| MissingFieldsFixed (fixed : nat)
| NoReviewNeeded
| ReviewNeeded (flagged : list check_result)
| EmailPhoneNormalized (fixed : nat)
| UnknownTask.

(** A write to the stored contact at a position: what a mutation of an
    element of [all_contacts] is, since [search_contacts] hands out the
    stored objects themselves. *)
Fixpoint set_nth (i : nat) (c : Contact) (cs : list Contact) : list Contact :=
  match cs, i with
  | [], _ => []
  | _ :: cs', O => c :: cs'
  | x :: cs', S i' => x :: set_nth i' c cs'
  end.

Definition mutate (i : nat) (c : Contact) : M unit :=
  fun self =>
    (Returned tt,
     mkTool (mock_mode self) (set_nth i c (mock_contacts self)) (stdout self)).

(** [for contact in all_contacts: ...] with a counter: the body gets the
    counter, the position and the stored contact as it is at that turn. *)
Fixpoint for_stored {A : Type} (positions : list nat) (acc : A)
    (body : A -> nat -> Contact -> M A) : M A :=
  match positions with
  | [] => ret acc
  | i :: positions' =>
      self <- get_self ;;
      match nth_error (mock_contacts self) i with
      | Some contact =>
          acc' <- body acc i contact ;;
          for_stored positions' acc' body
      | None => for_stored positions' acc body
      end
  end.

(** The lines of the duplicates report about one group; [contact['firstName']]
    and [contact['lastName']] have no default. *)
Fixpoint group_lines (contacts : list Contact)
  : outcome (list (string * string * string)) :=
  match contacts with
  | [] => Returned []
  | contact :: contacts' =>
      match c_firstName contact, c_lastName contact with
      | Some first, Some last =>
          match group_lines contacts' with
          | Returned lines => Returned ((first, last, c_id contact) :: lines)
          | Raised e => Raised e
          end
      | None, _ => Raised (KeyError "firstName")
      | Some _, None => Raised (KeyError "lastName")
      end
  end.

Fixpoint duplicate_lines (duplicates : dict (list Contact))
  : outcome (list (string * list (string * string * string))) :=
  match duplicates with
  | [] => Returned []
  | (email, contacts) :: duplicates' =>
      match group_lines contacts with
      | Returned lines =>
          match duplicate_lines duplicates' with
          | Returned rest => Returned ((email, lines) :: rest)
          | Raised e => Raised e
          end
      | Raised e => Raised e
      end
  end.

(** [run(task)]. *)
Definition run (task : string) : M report :=
  let task_lower := lower task in
  if str_in "duplicate" task_lower then
    duplicates <- find_duplicates ;;
    match duplicates with
    | [] => ret NoDuplicates
    | _ :: _ =>
        groups <- lift (duplicate_lines duplicates) ;;
        ret (Duplicates groups)
    end
  else if str_in "normalize" task_lower || str_in "tag" task_lower then
    all_contacts <- search_contacts (Some (mkFilters None None)) ;;
    fixed <- for_stored (seq 0 (List.length all_contacts)) 0%nat
               (fun fixed _ contact =>
                  let normalized_tags := normalize_tags contact in
                  if negb (tags_eq normalized_tags (get_tags contact)) then
                    _ <- update_contact (c_id contact)
                           (mkUpdates (Some normalized_tags) None) ;;
                    ret (S fixed)
                  else ret fixed) ;;
    ret (TagsNormalized fixed)
  else if str_in "missing" task_lower || str_in "field" task_lower then
    all_contacts <- search_contacts (Some (mkFilters None None)) ;;
    fixed <- for_stored (seq 0 (List.length all_contacts)) 0%nat
               (fun fixed i contact =>
                  (* the call changes the stored contact and returns it *)
                  let updated := fix_missing_fields contact in
                  _ <- mutate i updated ;;
                  match c_customFields updated with
                  | None => raise (KeyError "customFields")
                  | Some fields =>
                      (* both sides are read from the contact as it now is *)
                      if negb (dict_eq fields (get_customFields updated)) then
                        _ <- update_contact (c_id updated)
                               (mkUpdates None (Some fields)) ;;
                        ret (S fixed)
                      else ret fixed
                  end) ;;
    ret (MissingFieldsFixed fixed)
  else if str_in "cultural" task_lower || str_in "protocol" task_lower then
    all_contacts <- search_contacts (Some (mkFilters None None)) ;;
    let flagged :=
      filter requires_review (map check_cultural_protocols all_contacts) in
    match flagged with
    | [] => ret NoReviewNeeded
    | _ :: _ => ret (ReviewNeeded flagged)
    end
  else if str_in "email" task_lower || str_in "phone" task_lower then
    all_contacts <- search_contacts (Some (mkFilters None None)) ;;
    fixed <- for_stored (seq 0 (List.length all_contacts)) 0%nat
               (fun fixed _ contact =>
                  (* Normalize email *)
                  let email_changed :=
                    match c_email contact with
                    | Some email => negb (normalize_email email =? email)
                    | None => false
                    end in
                  (* Normalize phone *)
                  let phone_changed :=
                    match c_phone contact with
                    | Some phone => negb (normalize_phone phone =? phone)
                    | None => false
                    end in
                  (* [updated_fields] holds 'email' and 'phone' at most,
                     keys [update_contact] does not read *)
                  if email_changed || phone_changed then
                    _ <- update_contact (c_id contact) (mkUpdates None None) ;;
                    ret (S fixed)
                  else ret fixed) ;;
    ret (EmailPhoneNormalized fixed)
  else ret UnknownTask.

End CleanupAgent.

(** A contact whose email or phone is not in normalised form: what the
    email and phone task of [run] counts. *)
Definition unnormalized (c : Contact) : bool :=
  match c_email c with
  | Some email => negb (CleanupAgent.normalize_email email =? email)
  | None => false
  end
  || match c_phone c with
     | Some phone => negb (CleanupAgent.normalize_phone phone =? phone)
     | None => false
     end.

(** The text [find_duplicates] groups a contact under:
    [contact.get('email', '').lower().strip()]. *)
Definition email_key (c : Contact) : string :=
  strip (lower (or_empty (c_email c))).

(* ================================================================== *)
(** * The Python primitives on small inputs *)
(* ================================================================== *)

Example lower_mixed_case : lower "Role:ELDER-Council_9" = "role:elder-council_9".
Proof. reflexivity. Qed.

Example str_in_elderberry : str_in "elder" "interest:elderberry" = true.
Proof. reflexivity. Qed.

Example str_in_absent : str_in "elder" "role:eldest" = false.
Proof. reflexivity. Qed.

Example startswith_namespace :
  startswith "cultural:kabi-kabi" "cultural:" = true
  /\ startswith "agricultural:soil" "cultural:" = false.
Proof. split; reflexivity. Qed.

Example join_two : join ", " [ "cultural:a"; "cultural:b" ] = "cultural:a, cultural:b".
Proof. reflexivity. Qed.

Example strip_both_ends : strip "  Mary  Johnson " = "Mary  Johnson".
Proof. reflexivity. Qed.

Example truthy_values :
  map truthy [ VNone; VBool false; VInt 0; VStr ""; VList [];
               VBool true; VInt 7; VStr "no"; VList [ VNone ] ]
  = [ false; false; false; false; false; true; true; true; true ].
Proof. reflexivity. Qed.

Example py_eq_values :
  py_eq (VBool true) (VInt 1) = true
  /\ py_eq (VStr "1") (VInt 1) = false
  /\ py_eq (VList [ VInt 1; VStr "a" ]) (VList [ VInt 1; VStr "a" ]) = true
  /\ py_eq VNone (VBool false) = false.
Proof. repeat split; reflexivity. Qed.

Example py_ge_values :
  py_ge (VInt 5) (VInt 3) = Some true
  /\ py_ge (VInt 0) (VInt 3) = Some false
  /\ py_ge (VStr "b") (VStr "abc") = Some true
  /\ py_ge (VList [ VInt 1; VInt 2 ]) (VList [ VInt 1; VInt 3 ]) = Some false
  /\ py_ge (VStr "5") (VInt 3) = None
  /\ py_ge VNone VNone = None.
Proof. repeat split; reflexivity. Qed.

Example dict_update_keeps_order :
  dict_update [ ("a", VInt 1); ("b", VInt 2) ] [ ("b", VInt 3); ("c", VInt 4) ]
  = [ ("a", VInt 1); ("b", VInt 3); ("c", VInt 4) ].
Proof. reflexivity. Qed.

Example init_reads_environment :
  mock_mode (init None) = true
  /\ mock_mode (init (Some "True")) = false
  /\ mock_contacts (init (Some "true")) = []
  /\ List.length (mock_contacts (init (Some "yes"))) = 5%nat.
Proof. repeat split; reflexivity. Qed.

(* ================================================================== *)
(** * The field policy *)
(* ================================================================== *)

Section Policy.

Lemma str_in_list_In (x : string) (xs : list string) :
  str_in_list x xs = true <-> In x xs.
Proof.
  unfold str_in_list. rewrite existsb_exists. split.
  - intros [y [Hin Heq]]. apply String.eqb_eq in Heq. now subst.
  - intros Hin. exists x. split; [assumption | apply String.eqb_refl].
Qed.

Lemma str_in_list_not_In (x : string) (xs : list string) :
  str_in_list x xs = false <-> ~ In x xs.
Proof.
  rewrite <- str_in_list_In. destruct (str_in_list x xs); split; congruence.
Qed.

(** No field sits in both tiers. *)
Lemma tiers_disjoint (field : string) :
  In field BLOCKED_FIELDS -> In field READ_ONLY_FIELDS -> False.
Proof.
  unfold BLOCKED_FIELDS, READ_ONLY_FIELDS. simpl.
  intros [H | [H | []]] [K | [K | [K | []]]]; subst; discriminate.
Qed.

(** The policy check raises nothing but [PermissionError]. *)
Lemma check_raises_permission_only field operation context e :
  check_cultural_protocol field operation context = Raised e ->
  exists v, e = PermissionError v.
Proof.
  unfold check_cultural_protocol.
  destruct (str_in_list field BLOCKED_FIELDS).
  - intros H. injection H as <-. eauto.
  - destruct (str_in_list field READ_ONLY_FIELDS && _).
    + intros H. injection H as <-. eauto.
    + discriminate.
Qed.

(** A check that does not return raises a [PermissionError]. *)
Lemma check_failure_is_violation field operation context :
  check_cultural_protocol field operation context <> Returned tt ->
  exists v,
    check_cultural_protocol field operation context
    = Raised (PermissionError v).
Proof.
  intros Hfail.
  destruct (check_cultural_protocol field operation context) as [[] | e] eqn:E.
  - now elim Hfail.
  - destruct (check_raises_permission_only _ _ _ _ E) as [v ->]. eauto.
Qed.

End Policy.

(** C1. Every field of the BLOCKED tier fails the policy check with the
    blocked-field violation, for 'read', 'write', 'delete' and indeed for
    any operation string, and whatever [context] the caller passes: the
    check has no bypass. *)
Theorem blocked_field_always_refused
    (field operation : string) (context : option (dict pyval)) :
  In field BLOCKED_FIELDS ->
  check_cultural_protocol field operation context
  = Raised (PermissionError (Blocked field operation)).
Proof.
  intros Hin. unfold check_cultural_protocol.
  apply str_in_list_In in Hin. now rewrite Hin.
Qed.

Lemma blocked_field_always_refused_witness :
  Forall (fun field =>
    Forall (fun operation =>
      check_cultural_protocol field operation (Some [("role", VStr "admin")])
      = Raised (PermissionError (Blocked field operation)))
    [ "read"; "write"; "delete" ])
  BLOCKED_FIELDS.
Proof.
  repeat (apply Forall_cons || apply Forall_nil);
    apply blocked_field_always_refused; simpl; tauto.
Defined.

(** C5. Every field of the READ_ONLY tier passes the policy check for
    'read' and fails it with the read-only violation for 'write' and for
    'delete'. *)
Theorem read_only_field_read_passes_write_delete_refused
    (field : string) (context : option (dict pyval)) :
  In field READ_ONLY_FIELDS ->
  check_cultural_protocol field "read" context = Returned tt
  /\ check_cultural_protocol field "write" context
     = Raised (PermissionError (ReadOnly field "write"))
  /\ check_cultural_protocol field "delete" context
     = Raised (PermissionError (ReadOnly field "delete")).
Proof.
  intros Hro. unfold check_cultural_protocol.
  assert (Hnb : str_in_list field BLOCKED_FIELDS = false).
  { apply str_in_list_not_In. intros Hb. exact (tiers_disjoint field Hb Hro). }
  apply str_in_list_In in Hro. rewrite Hnb, Hro. simpl. auto.
Qed.

Lemma read_only_field_read_passes_write_delete_refused_witness :
  Forall (fun field =>
    check_cultural_protocol field "read" None = Returned tt
    /\ check_cultural_protocol field "write" None
       = Raised (PermissionError (ReadOnly field "write"))
    /\ check_cultural_protocol field "delete" None
       = Raised (PermissionError (ReadOnly field "delete")))
  READ_ONLY_FIELDS.
Proof.
  repeat (apply Forall_cons || apply Forall_nil);
    apply read_only_field_read_passes_write_delete_refused; simpl; tauto.
Defined.

(** C6. A field that is in neither [BLOCKED_FIELDS] nor [READ_ONLY_FIELDS]
    passes the policy check for 'read', 'write' and 'delete' (and for any
    other operation string): unregistered fields are open. *)
Theorem unregistered_field_is_open
    (field operation : string) (context : option (dict pyval)) :
  ~ In field BLOCKED_FIELDS ->
  ~ In field READ_ONLY_FIELDS ->
  check_cultural_protocol field operation context = Returned tt.
Proof.
  intros Hb Hr. unfold check_cultural_protocol.
  apply str_in_list_not_In in Hb, Hr. now rewrite Hb, Hr.
Qed.

Lemma unregistered_field_is_open_witness :
  Forall (fun operation =>
    check_cultural_protocol "stories_count" operation None = Returned tt)
  [ "read"; "write"; "delete" ].
Proof.
  repeat (apply Forall_cons || apply Forall_nil);
    apply unregistered_field_is_open;
    unfold BLOCKED_FIELDS, READ_ONLY_FIELDS; simpl;
    intros H; repeat (destruct H as [H | H]; [discriminate H |]); exact H.
Defined.

(* ================================================================== *)
(** * The review classifier *)
(* ================================================================== *)

Section Classifier.

Variable contact : Contact.

(** Once the elder rule matches, the flag is up and the three outreach
    actions are blocked, whatever the later rules add. *)
Lemma elder_rule_effect :
  str_in_list "role:elder" (get_tags contact)
  || existsb (fun t => str_in "elder" (lower t)) (get_tags contact) = true ->
  requires_review (check_contact_cultural_protocols contact) = true
  /\ incl Rules.outreach_actions
          (actions_blocked (check_contact_cultural_protocols contact)).
Proof.
  intros Hrule.
  unfold check_contact_cultural_protocols. rewrite Hrule.
  destruct (field_truthy "elder_review_required" (get_customFields contact));
    destruct (filter (fun t => startswith t "cultural:") (get_tags contact));
    destruct (field_truthy "sacred_knowledge" (get_customFields contact));
    cbn; (split; [reflexivity |]);
    intros a Ha; unfold Rules.outreach_actions in Ha; simpl in Ha; simpl; tauto.
Qed.

End Classifier.

Section Strings.

Lemma lower_app (s t : string) :
  lower (s ++ t) = (lower s ++ lower t)%string.
Proof.
  induction s as [| c s IH]; simpl; [reflexivity | now rewrite IH].
Qed.

Lemma prefix_app (p s : string) : String.prefix p (p ++ s) = true.
Proof.
  induction p as [| c p IH]; simpl.
  - now destruct s.
  - destruct (ascii_dec c c) as [_ | Hne]; [exact IH | now elim Hne].
Qed.

Lemma str_in_unfold (needle hay : string) :
  str_in needle hay
  = String.prefix needle hay
    || match hay with
       | EmptyString => false
       | String _ hay' => str_in needle hay'
       end.
Proof. destruct hay; reflexivity. Qed.

(** A string that occurs between two others is found by [in]. *)
Lemma str_in_middle (needle pre post : string) :
  str_in needle (pre ++ needle ++ post) = true.
Proof.
  induction pre as [| c pre IH].
  - change (str_in needle (needle ++ post) = true).
    rewrite str_in_unfold, prefix_app. reflexivity.
  - change (str_in needle (String c (pre ++ needle ++ post)) = true).
    rewrite str_in_unfold, IH. apply orb_true_r.
Qed.

(** Lowering the upper-case form of a character that lowering leaves
    alone gives the character back. *)
Lemma lower_upcase (c : ascii) :
  lower_char c = c -> lower_char (upcase c) = c.
Proof.
  destruct c as [[] [] [] [] [] [] [] []]; vm_compute; congruence.
Qed.

(** A spelling of a lower-case pattern in mixed case lowers to it. *)
Lemma same_letters_lower (pat s : string) :
  same_letters pat s -> lower pat = pat -> lower s = pat.
Proof.
  induction 1 as [| c pat s _ IH | c pat s _ IH]; simpl; intros Hlow.
  - reflexivity.
  - injection Hlow as Hc Hpat. now rewrite Hc, IH.
  - injection Hlow as Hc Hpat. now rewrite (lower_upcase c Hc), IH.
Qed.

(** [needle in t.lower()] holds when [t] has [needle] in any case. *)
Lemma contains_any_case_found (pat t : string) :
  lower pat = pat -> contains_any_case pat t -> str_in pat (lower t) = true.
Proof.
  intros Hlow (pre & mid & post & -> & Hsame).
  rewrite !lower_app, (same_letters_lower _ _ Hsame Hlow).
  apply str_in_middle.
Qed.

End Strings.

(** C9. The elder-role rule is a case-insensitive substring match: when
    some tag of the contact contains 'elder' in any mix of letter cases,
    the classifier sets [requires_review] and its [actions_blocked] holds
    'automated_email', 'automated_outreach' and 'ai_generated_content'. *)
Theorem elder_substring_any_case_flags_contact
    (contact : Contact) (tag : string) :
  In tag (get_tags contact) ->
  contains_any_case "elder" tag ->
  let result := check_contact_cultural_protocols contact in
  requires_review result = true
  /\ incl [ "automated_email"; "automated_outreach"; "ai_generated_content" ]
          (actions_blocked result).
Proof.
  intros Hin Hsub. apply elder_rule_effect.
  apply orb_true_iff. right. apply existsb_exists. exists tag.
  split; [assumption | now apply contains_any_case_found].
Qed.

Lemma elder_substring_any_case_flags_contact_witness :
  let contact :=
    mkContact "c9" None None None None None
              (Some [ "project:harvest"; "interest:ELDERberry" ]) None in
  requires_review (check_contact_cultural_protocols contact) = true
  /\ incl [ "automated_email"; "automated_outreach"; "ai_generated_content" ]
          (actions_blocked (check_contact_cultural_protocols contact)).
Proof.
  apply (elder_substring_any_case_flags_contact _ "interest:ELDERberry").
  - simpl. tauto.
  - exists "interest:", "ELDER", "berry". split; [reflexivity |].
    exact (same_upper "e" _ _ (same_upper "l" _ _ (same_upper "d" _ _
             (same_upper "e" _ _ (same_upper "r" _ _ same_nil))))).
Defined.

(** The classifier on the contacts of the mock store and on the two
    end-to-end records of the specification. *)

Example classify_contact_003 :
  match stored fresh_tool "contact_003" with
  | Some c =>
      let r := check_contact_cultural_protocols c in
      requires_review r = true
      /\ reason r = Some "Contact has cultural tags: cultural:kabi-kabi"
      /\ recommended_action r
         = Some "Review cultural context before communication"
      /\ actions_blocked r
         = [ "automated_email"; "automated_outreach"; "ai_generated_content";
             "automated_email"; "automated_outreach"; "ai_generated_content";
             "bulk_operations" ]
      /\ contact_name r = "Mary Johnson"
  | None => False
  end.
Proof. vm_compute. repeat split; reflexivity. Qed.

Example classify_role_elder_record :
  let r := check_contact_cultural_protocols
             (mkContact "c1" None None None None None
                        (Some [ "role:elder" ]) (Some [])) in
  requires_review r = true
  /\ actions_blocked r
     = [ "automated_email"; "automated_outreach"; "ai_generated_content" ]
  /\ contact_name r = "".
Proof. vm_compute. repeat split; reflexivity. Qed.

Example classify_plain_record :
  let r := check_contact_cultural_protocols
             (mkContact "c2" None None None None None (Some [])
                        (Some [ ("stories_count", VInt 5) ])) in
  requires_review r = false /\ reason r = None /\ actions_blocked r = [].
Proof. vm_compute. repeat split; reflexivity. Qed.

Example classify_elderberry_and_sacred :
  let r := check_contact_cultural_protocols
             (mkContact "c3" (Some "x@example.com") (Some " Ann") None None None
                        (Some [ "interest:elderberry" ])
                        (Some [ ("sacred_knowledge", VStr "song line") ])) in
  reason r = Some "CRITICAL: Sacred knowledge detected - FULL BLOCK"
  /\ List.length (actions_blocked r) = 10%nat
  /\ contact_name r = "Ann".
Proof. vm_compute. repeat split; reflexivity. Qed.

(* ================================================================== *)
(** * The guarded store: policy checks come first *)
(* ================================================================== *)

Section PolicyLoop.

Variable operation : string.

(** The loop over the field names stops at the first field the policy
    refuses, with that field's violation and the instance untouched;
    the violation is fixed by the field names alone. *)
Lemma policy_loop_refuses (fields : list string) (field : string) :
  In field fields ->
  check_cultural_protocol field operation None <> Returned tt ->
  exists f v,
    In f fields
    /\ check_cultural_protocol f operation None = Raised (PermissionError v)
    /\ forall self : tool,
         for_each fields
           (fun f => lift (check_cultural_protocol f operation None)) self
         = (Raised (PermissionError v), self).
Proof.
  induction fields as [| f fields IH]; intros Hin Hfail; [destruct Hin |].
  destruct (check_cultural_protocol f operation None) as [[] | e] eqn:Ef.
  - assert (Htail : In field fields).
    { destruct Hin as [-> | Hin]; [now elim Hfail | assumption]. }
    destruct (IH Htail Hfail) as (f' & v & Hf' & Hv & Hrun).
    exists f', v. split; [now right |]. split; [assumption |].
    intros self. simpl. unfold bind, lift. rewrite Ef.
    apply Hrun.
  - destruct (check_raises_permission_only _ _ _ _ Ef) as [v ->].
    exists f, v. split; [now left |]. split; [assumption |].
    intros self. simpl. unfold bind, lift. now rewrite Ef.
Qed.

(** When the policy accepts every field the loop returns and leaves the
    instance as it was. *)
Lemma policy_loop_accepts (fields : list string) :
  (forall f, In f fields ->
     check_cultural_protocol f operation None = Returned tt) ->
  forall self : tool, for_each fields
           (fun f => lift (check_cultural_protocol f operation None)) self
  = (Returned tt, self).
Proof.
  induction fields as [| f fields IH]; intros Hall self; [reflexivity |].
  simpl. unfold bind, lift.
  rewrite (Hall f (or_introl eq_refl)).
  apply IH. intros f' Hf'. apply Hall. now right.
Qed.

End PolicyLoop.

Section Gate.

(** A refused 'read' is the refusal of a blocked field. *)
Lemma read_refusal_is_blocked (field : string) (v : violation) :
  check_cultural_protocol field "read" None = Raised (PermissionError v) ->
  In field BLOCKED_FIELDS /\ v = Blocked field "read".
Proof.
  unfold check_cultural_protocol.
  destruct (str_in_list field BLOCKED_FIELDS) eqn:Eb.
  - intros H. injection H as <-. split; [now apply str_in_list_In | reflexivity].
  - simpl. rewrite andb_false_r. discriminate.
Qed.

(** [update_contact] with a refused field raises that field's violation
    before it looks at the instance. *)
Lemma update_contact_gate
    (updates : Updates) (fields : dict pyval) (field : string) :
  u_customFields updates = Some fields ->
  In field (dict_keys fields) ->
  check_cultural_protocol field "write" None <> Returned tt ->
  exists f v,
    In f (dict_keys fields)
    /\ check_cultural_protocol f "write" None = Raised (PermissionError v)
    /\ forall (self : tool) (contact_id : string),
         update_contact contact_id updates self
         = (Raised (PermissionError v), self).
Proof.
  intros Hfields Hin Hfail.
  destruct (policy_loop_refuses "write" _ _ Hin Hfail) as (f & v & Hf & Hv & Hrun).
  exists f, v. split; [assumption |]. split; [assumption |].
  intros self contact_id. unfold update_contact, bind.
  rewrite Hfields. simpl or_empty_dict. now rewrite Hrun.
Qed.

End Gate.

(** C2. When the [customFields] of an update hold at least one field that
    fails its 'write' check, [update_contact] raises the policy violation
    and applies no mutation at all: the instance, and with it the stored
    record and every one of its fields, permitted ones included, is as it
    was before the call. *)
Theorem update_contact_refused_mutates_nothing
    (self : tool) (contact_id : string) (updates : Updates)
    (fields : dict pyval) (field : string) :
  u_customFields updates = Some fields ->
  In field (dict_keys fields) ->
  check_cultural_protocol field "write" None <> Returned tt ->
  let after := snd (update_contact contact_id updates self) in
  (exists v, fst (update_contact contact_id updates self)
             = Raised (PermissionError v))
  /\ after = self
  /\ stored after contact_id = stored self contact_id
  /\ (forall record name,
        stored self contact_id = Some record ->
        In name (dict_keys fields) ->
        exists record',
          stored after contact_id = Some record'
          /\ field_value name record' = field_value name record).
Proof.
  intros Hfields Hin Hfail after.
  destruct (update_contact_gate _ _ _ Hfields Hin Hfail) as (f & v & _ & _ & Hrun).
  assert (Hafter : after = self) by (unfold after; now rewrite Hrun).
  split; [exists v; now rewrite Hrun |].
  split; [assumption |]. rewrite Hafter.
  split; [reflexivity |].
  intros record name Hrec _. now exists record.
Qed.

Lemma update_contact_refused_mutates_nothing_witness :
  let updates :=
    mkUpdates None
      (Some [ ("storyteller_status", VStr "x"); ("sacred_knowledge", VStr "y") ]) in
  let after := snd (update_contact "contact_001" updates fresh_tool) in
  (exists v, fst (update_contact "contact_001" updates fresh_tool)
             = Raised (PermissionError v))
  /\ after = fresh_tool
  /\ stored after "contact_001" = stored fresh_tool "contact_001"
  /\ (forall record name,
        stored fresh_tool "contact_001" = Some record ->
        In name (dict_keys [ ("storyteller_status", VStr "x");
                             ("sacred_knowledge", VStr "y") ]) ->
        exists record',
          stored after "contact_001" = Some record'
          /\ field_value name record' = field_value name record).
Proof.
  apply (update_contact_refused_mutates_nothing fresh_tool "contact_001" _
           [ ("storyteller_status", VStr "x"); ("sacred_knowledge", VStr "y") ]
           "sacred_knowledge").
  - reflexivity.
  - simpl. tauto.
  - vm_compute. discriminate.
Defined.

(** C3. A search whose [customFieldFilters] name at least one BLOCKED
    field raises the blocked-field violation for 'read' and returns no
    records; the outcome is the same on every instance, so the store is
    not queried, and the other conditions and the tag filter play no part. *)
Theorem search_blocked_field_refused
    (filters : Filters) (items : dict (dict pyval)) (field : string) :
  f_customFieldFilters filters = Some items ->
  In field (dict_keys items) ->
  In field BLOCKED_FIELDS ->
  exists blocker,
    In blocker (dict_keys items)
    /\ In blocker BLOCKED_FIELDS
    /\ forall self : tool,
         search_contacts (Some filters) self
         = (Raised (PermissionError (Blocked blocker "read")), self).
Proof.
  intros Hitems Hin Hblocked.
  assert (Hfail : check_cultural_protocol field "read" None <> Returned tt).
  { unfold check_cultural_protocol.
    apply str_in_list_In in Hblocked. rewrite Hblocked. discriminate. }
  destruct (policy_loop_refuses "read" _ _ Hin Hfail) as (f & v & Hf & Hv & Hrun).
  destruct (read_refusal_is_blocked _ _ Hv) as [Hfb ->].
  exists f. split; [assumption |]. split; [assumption |].
  intros self. unfold search_contacts, bind.
  rewrite Hitems. simpl or_empty_dict. now rewrite Hrun.
Qed.

Lemma search_blocked_field_refused_witness :
  exists blocker,
    In blocker (dict_keys [ ("stories_count", [ ("$gte", VInt 3) ]);
                            ("elder_consent", [ ("$exists", VBool true) ]) ])
    /\ In blocker BLOCKED_FIELDS
    /\ forall self : tool,
         search_contacts
           (Some (mkFilters (Some [ "empathy-ledger" ])
                    (Some [ ("stories_count", [ ("$gte", VInt 3) ]);
                            ("elder_consent", [ ("$exists", VBool true) ]) ])))
           self
         = (Raised (PermissionError (Blocked blocker "read")), self).
Proof.
  apply (search_blocked_field_refused _ _ "elder_consent").
  - reflexivity.
  - simpl. tauto.
  - simpl. tauto.
Defined.

(** C10. In [update_contact] the policy check comes before the lookup:
    when the [customFields] of an update hold a field that fails its
    'write' check, the call raises one and the same [PermissionError] for
    every contact id, stored or not, and on every instance, never the
    not-found [ValueError], and it leaves the instance as it was. *)
Theorem update_contact_policy_precedes_lookup
    (updates : Updates) (fields : dict pyval) (field : string) :
  u_customFields updates = Some fields ->
  In field (dict_keys fields) ->
  check_cultural_protocol field "write" None <> Returned tt ->
  exists v,
    forall (self : tool) (contact_id : string),
      update_contact contact_id updates self
      = (Raised (PermissionError v), self).
Proof.
  intros Hfields Hin Hfail.
  destruct (update_contact_gate _ _ _ Hfields Hin Hfail) as (f & v & _ & _ & Hrun).
  now exists v.
Qed.

Lemma update_contact_policy_precedes_lookup_witness :
  exists v,
    forall (self : tool) (contact_id : string),
      update_contact contact_id
        (mkUpdates (Some [ "vip" ])
           (Some [ ("stories_count", VInt 6); ("cultural_protocols", VStr "new text") ]))
        self
      = (Raised (PermissionError v), self).
Proof.
  apply (update_contact_policy_precedes_lookup _
           [ ("stories_count", VInt 6); ("cultural_protocols", VStr "new text") ]
           "cultural_protocols").
  - reflexivity.
  - simpl. tauto.
  - vm_compute. discriminate.
Defined.

(** Without a refused field the lookup does run: an unknown id is
    not-found, and scenario D of the specification is a read-only
    violation. *)

Example update_unknown_id_not_found :
  fst (update_contact "contact_999"
         (mkUpdates None (Some [ ("stories_count", VInt 6) ])) fresh_tool)
  = Raised (ValueError "Contact not found: contact_999").
Proof. vm_compute. reflexivity. Qed.

Example update_read_only_field_refused :
  update_contact "contact_003"
    (mkUpdates None (Some [ ("cultural_protocols", VStr "new text") ])) fresh_tool
  = (Raised (PermissionError (ReadOnly "cultural_protocols" "write")), fresh_tool).
Proof. vm_compute. reflexivity. Qed.

Example search_elder_consent_refused :
  fst (search_contacts
         (Some (mkFilters None
                  (Some [ ("elder_consent", [ ("$exists", VBool true) ]) ])))
         fresh_tool)
  = Raised (PermissionError (Blocked "elder_consent" "read")).
Proof. vm_compute. reflexivity. Qed.

(* ================================================================== *)
(** * The guarded store: lookups and tag updates *)
(* ================================================================== *)

Section Store.

Lemma bind_returned {A B : Type} (m : M A) (k : A -> M B)
    (self self' : tool) (a : A) :
  m self = (Returned a, self') -> bind m k self = k a self'.
Proof. intros H. unfold bind. now rewrite H. Qed.

(** The conditional call of the logger always returns. *)
Lemma log_step (level : string) (c : Contact) (self : tool) :
  (if requires_review (check_contact_cultural_protocols c)
   then log_cultural_protocol_check (check_contact_cultural_protocols c) level
   else ret tt) self
  = (Returned tt, logged level c self).
Proof.
  unfold logged, log_cultural_protocol_check.
  destruct (requires_review (check_contact_cultural_protocols c)); reflexivity.
Qed.

(** Logging touches [stdout] only. *)
Lemma logged_mode level c self :
  mock_mode (logged level c self) = mock_mode self.
Proof.
  unfold logged, log_cultural_protocol_check.
  destruct (requires_review _); reflexivity.
Qed.

Lemma logged_contacts level c self :
  mock_contacts (logged level c self) = mock_contacts self.
Proof.
  unfold logged, log_cultural_protocol_check.
  destruct (requires_review _); reflexivity.
Qed.

Lemma stored_logged level c self id :
  stored (logged level c self) id = stored self id.
Proof. unfold stored. now rewrite logged_contacts. Qed.

Lemma assigned_mode c self : mock_mode (assigned c self) = mock_mode self.
Proof. reflexivity. Qed.

Lemma stored_id self id c : stored self id = Some c -> c_id c = id.
Proof.
  unfold stored. intros H. apply find_some in H. destruct H as [_ H].
  now apply String.eqb_eq in H.
Qed.

(** After a write the lookup by id gives the written contact. *)
Lemma find_replace_first (c c0 : Contact) (cs : list Contact) :
  find (fun x => c_id x =? c_id c) cs = Some c0 ->
  find (fun x => c_id x =? c_id c) (replace_first c cs) = Some c.
Proof.
  induction cs as [| x cs IH]; simpl; [discriminate |].
  destruct (c_id x =? c_id c) eqn:E.
  - intros _. simpl. now rewrite String.eqb_refl.
  - intros H. simpl. rewrite E. now apply IH.
Qed.

Lemma stored_assigned self id c0 c :
  stored self id = Some c0 -> c_id c = id ->
  stored (assigned c self) id = Some c.
Proof.
  intros Hs <-. unfold stored, assigned, assign. simpl.
  now apply find_replace_first with c0.
Qed.

(** [get_contact] on a stored id, in mock mode. *)
Lemma get_contact_found self id c :
  mock_mode self = true -> stored self id = Some c ->
  get_contact id self = (Returned c, logged "WARNING" c self).
Proof.
  intros Hm Hs. unfold get_contact.
  rewrite (bind_returned get_self _ self self self eq_refl), Hm.
  unfold stored in Hs. rewrite Hs.
  now rewrite (bind_returned _ _ _ _ _ (log_step "WARNING" c self)).
Qed.

(** [get_contact] returns only in mock mode and only what is stored. *)
Lemma get_contact_returned self id c :
  fst (get_contact id self) = Returned c ->
  mock_mode self = true /\ stored self id = Some c.
Proof.
  unfold get_contact, stored, bind, get_self.
  destruct (mock_mode self); [| discriminate].
  destruct (find _ (mock_contacts self)) as [c0 |]; [| discriminate].
  rewrite log_step. cbn. intros H. injection H as ->. auto.
Qed.

(** [update_contact] with new tags and no fields, on a stored id. *)
Lemma update_tags_found self id c tags :
  mock_mode self = true -> stored self id = Some c ->
  update_contact id (mkUpdates (Some tags) None) self
  = (Returned (set_tags c tags),
     logged "INFO" (set_tags c tags)
       (assigned (set_tags c tags) (logged "WARNING" c self))).
Proof.
  intros Hm Hs. unfold update_contact.
  cbn [u_customFields u_tags or_empty_dict dict_keys map for_each].
  rewrite (bind_returned (ret tt) _ self self tt eq_refl).
  rewrite (bind_returned get_self _ self self self eq_refl), Hm.
  rewrite (bind_returned _ _ _ _ _ (get_contact_found _ _ _ Hm Hs)).
  rewrite (bind_returned (assign (set_tags c tags)) _ _
             (assigned (set_tags c tags) (logged "WARNING" c self))
             (set_tags c tags) eq_refl).
  rewrite (bind_returned (ret (set_tags c tags)) _ _ _ (set_tags c tags) eq_refl).
  now rewrite (bind_returned _ _ _ _ _ (log_step "INFO" (set_tags c tags) _)).
Qed.

(** [add_tag] on a stored id returns the contact with the tag and
    stores it; when the tag was there the contacts are not written. *)
Lemma add_tag_found self id tag c :
  mock_mode self = true -> stored self id = Some c ->
  exists self',
    add_tag id tag self = (Returned (tagged tag c), self')
    /\ mock_mode self' = true
    /\ stored self' id = Some (tagged tag c)
    /\ (str_in_list tag (get_tags c) = true ->
        mock_contacts self' = mock_contacts self).
Proof.
  intros Hm Hs. unfold add_tag, tagged.
  rewrite (bind_returned _ _ _ _ _ (get_contact_found _ _ _ Hm Hs)).
  pose proof (stored_id _ _ _ Hs) as Hid.
  destruct (str_in_list tag (get_tags c)) eqn:Ein; cbn [negb].
  - eexists. split; [reflexivity |].
    rewrite logged_mode, stored_logged, logged_contacts. auto.
  - set (c1 := set_tags c (get_tags c ++ [tag])).
    assert (Hid1 : c_id c1 = id) by exact Hid.
    destruct (c_tags c) as [ts |] eqn:Et.
    + rewrite (bind_returned (assign c1) _ _
                 (assigned c1 (logged "WARNING" c self)) c1 eq_refl).
      assert (Hs1 : stored (assigned c1 (logged "WARNING" c self)) id = Some c1).
      { apply stored_assigned with c; [now rewrite stored_logged | assumption]. }
      assert (Hm1 : mock_mode (assigned c1 (logged "WARNING" c self)) = true)
        by now rewrite assigned_mode, logged_mode.
      rewrite (update_tags_found _ _ c1 _ Hm1 Hs1).
      eexists. split; [reflexivity |].
      split; [now rewrite logged_mode, assigned_mode, logged_mode |].
      split; [| discriminate].
      rewrite stored_logged.
      apply stored_assigned with c1; [now rewrite stored_logged | assumption].
    + rewrite (bind_returned (ret c) _ _ _ c eq_refl).
      assert (Hs0 : stored (logged "WARNING" c self) id = Some c)
        by now rewrite stored_logged.
      rewrite (update_tags_found _ _ c _ (eq_trans (logged_mode _ _ _) Hm) Hs0).
      eexists. split; [reflexivity |].
      split; [now rewrite logged_mode, assigned_mode, !logged_mode |].
      split; [| discriminate].
      rewrite stored_logged.
      apply stored_assigned with c; [now rewrite stored_logged | assumption].
Qed.

(** The tag occurs once in a tagged contact that lacked it, and as often
    as before in one that had it. *)
Lemma tagged_occurrences tag c :
  occurrences tag (get_tags (tagged tag c))
  = Nat.max 1 (occurrences tag (get_tags c)).
Proof.
  unfold tagged, occurrences.
  destruct (str_in_list tag (get_tags c)) eqn:E.
  - apply str_in_list_In in E.
    apply (count_occ_In string_dec) in E. lia.
  - apply str_in_list_not_In in E.
    apply (count_occ_not_In string_dec) in E.
    cbn [get_tags set_tags c_tags]. rewrite count_occ_app, E. simpl.
    destruct (string_dec tag tag) as [_ | Hne]; [reflexivity | now elim Hne].
Qed.

Lemma tagged_has_tag tag c : str_in_list tag (get_tags (tagged tag c)) = true.
Proof.
  unfold tagged. destruct (str_in_list tag (get_tags c)) eqn:E; [assumption |].
  apply str_in_list_In. cbn [get_tags set_tags c_tags].
  apply in_or_app. right. now left.
Qed.

Lemma tagged_twice tag c : tagged tag (tagged tag c) = tagged tag c.
Proof. unfold tagged at 1. now rewrite tagged_has_tag. Qed.

End Store.

(** C8 (as the code has it). For a stored contact, two calls of
    [add_tag(id, t)] both return the same record, the second call leaves
    the stored contacts as the first left them, and [t] occurs in the
    record's tags max(1, n) times, [n] being its occurrences before the
    calls: exactly once when [t] was absent or present once, while a tag
    stored several times keeps its duplicates. *)
Theorem add_tag_twice_second_call_no_op
    (self : tool) (contact_id tag : string) (contact : Contact) :
  fst (get_contact contact_id self) = Returned contact ->
  exists record s1 s2,
    add_tag contact_id tag self = (Returned record, s1)
    /\ add_tag contact_id tag s1 = (Returned record, s2)
    /\ mock_contacts s2 = mock_contacts s1
    /\ stored s2 contact_id = Some record
    /\ occurrences tag (get_tags record)
       = Nat.max 1 (occurrences tag (get_tags contact))
    /\ (occurrences tag (get_tags contact) <= 1 ->
        occurrences tag (get_tags record) = 1).
Proof.
  intros Hget. apply get_contact_returned in Hget. destruct Hget as [Hm Hs].
  destruct (add_tag_found self contact_id tag contact Hm Hs)
    as (s1 & Hrun1 & Hm1 & Hs1 & _).
  destruct (add_tag_found s1 contact_id tag (tagged tag contact) Hm1 Hs1)
    as (s2 & Hrun2 & _ & Hs2 & Hsame).
  rewrite tagged_twice in Hrun2, Hs2.
  exists (tagged tag contact), s1, s2.
  repeat split; try assumption.
  - apply Hsame, tagged_has_tag.
  - apply tagged_occurrences.
  - intros Hle. rewrite tagged_occurrences. lia.
Qed.

Lemma add_tag_twice_second_call_no_op_witness :
  exists contact,
    stored fresh_tool "contact_001" = Some contact
    /\ exists record s1 s2,
         add_tag "contact_001" "vip" fresh_tool = (Returned record, s1)
         /\ add_tag "contact_001" "vip" s1 = (Returned record, s2)
         /\ mock_contacts s2 = mock_contacts s1
         /\ stored s2 "contact_001" = Some record
         /\ occurrences "vip" (get_tags record)
            = Nat.max 1 (occurrences "vip" (get_tags contact))
         /\ (occurrences "vip" (get_tags contact) <= 1 ->
             occurrences "vip" (get_tags record) = 1).
Proof.
  eexists. split; [vm_compute; reflexivity |].
  apply (add_tag_twice_second_call_no_op fresh_tool "contact_001" "vip").
  vm_compute. reflexivity.
Defined.

(** C8 as stated fails on a record that already holds the tag twice:
    after [update_contact] stored the tags ['vip', 'vip'] on contact_001,
    two calls of [add_tag] return a record with 'vip' twice, not once. *)
Lemma add_tag_twice_keeps_duplicates :
  let s0 := snd (update_contact "contact_001"
                   (mkUpdates (Some [ "vip"; "vip" ]) None) fresh_tool) in
  let first := add_tag "contact_001" "vip" s0 in
  let second := add_tag "contact_001" "vip" (snd first) in
  fst first = fst second
  /\ match fst second with
     | Returned record =>
         stored (snd second) "contact_001" = Some record
         /\ get_tags record = [ "vip"; "vip" ]
         /\ occurrences "vip" (get_tags record) <> 1
     | Raised _ => False
     end.
Proof. vm_compute. repeat split; try reflexivity. discriminate. Qed.

Example add_tag_twice_on_fresh_store :
  let first := add_tag "contact_002" "vip" fresh_tool in
  let second := add_tag "contact_002" "vip" (snd first) in
  fst first = fst second
  /\ option_map get_tags (stored (snd second) "contact_002")
     = Some [ "act-farm"; "role:resident"; "engagement:alumni";
              "interest:storytelling"; "category:artist"; "vip" ].
Proof. vm_compute. split; reflexivity. Qed.

(** In live mode no contact can be fetched, so [add_tag] raises. *)
Example add_tag_live_mode :
  fst (add_tag "contact_001" "vip" (init (Some "TRUE")))
  = Raised (NotImplementedError "Real GHL API integration coming in Week 3").
Proof. vm_compute. reflexivity. Qed.

(* ================================================================== *)
(** * The guarded store: search conditions *)
(* ================================================================== *)

Section Search.

(** Numbers are ordered by value. *)
Lemma py_ge_numbers (a b : pyval) (x y : Z) :
  as_number a = Some x -> as_number b = Some y ->
  py_ge a b = Some (y <=? x)%Z.
Proof.
  destruct a as [| [] | z | s | l]; destruct b as [| [] | w | t | m];
    simpl; intros Ha Hb; try discriminate;
    injection Ha as <-; injection Hb as <-; reflexivity.
Qed.

(** A comprehension whose test never raises is a plain filter. *)
Lemma filter_raising_total {A : Type} (p : A -> outcome bool) (q : A -> bool)
    (cs : list A) :
  (forall c, In c cs -> p c = Returned (q c)) ->
  filter_raising p cs = Returned (filter q cs).
Proof.
  induction cs as [| c cs IH]; intros Hall; [reflexivity |].
  simpl. rewrite (Hall c (or_introl eq_refl)).
  rewrite IH by (intros c' Hc'; apply Hall; now right).
  reflexivity.
Qed.

(** In mock mode a search with one condition on a field that is not
    blocked comes down to the [if]/[elif] chain on all the contacts. *)
Lemma search_field_runs
    (self : tool) (field : string) (condition : dict pyval) :
  mock_mode self = true ->
  ~ In field BLOCKED_FIELDS ->
  search_field field condition self
  = (apply_condition field condition (mock_contacts self), self).
Proof.
  intros Hm Hopen. unfold search_field, search_contacts, bind.
  cbn [f_customFieldFilters f_tags or_empty_dict dict_keys map fst for_each].
  unfold bind, lift, ret, get_self.
  assert (Hread : check_cultural_protocol field "read" None = Returned tt).
  { unfold check_cultural_protocol.
    apply str_in_list_not_In in Hopen. rewrite Hopen.
    simpl. now rewrite andb_false_r. }
  rewrite Hread, Hm. cbn [apply_conditions].
  destruct (apply_condition field condition (mock_contacts self)); reflexivity.
Qed.

End Search.

(** C7 (as the code has it). The conditions of a search are recognised
    by three keys: ['$eq'] keeps the contacts whose field equals the
    value, ['$gte'] those whose number (0 when the field is missing) is at
    least the bound, ['$exists'] those that have (or lack) the field. A
    condition with none of these keys filters nothing; less-or-equal is
    such a condition, so a search with only ['$lte'] on a field that is
    not blocked returns every contact of the store. *)
Theorem search_recognises_eq_gte_exists_only (self : tool) (field : string) :
  mock_mode self = true ->
  ~ In field BLOCKED_FIELDS ->
  (forall wanted : pyval,
     search_field field [ ("$eq", wanted) ] self
     = (Returned
          (filter (fun c =>
                     py_eq (match field_value field c with
                            | Some v => v
                            | None => VNone
                            end) wanted)
                  (mock_contacts self)), self))
  /\ (forall (bound : pyval) (n : Z),
        as_number bound = Some n ->
        (forall c, In c (mock_contacts self) -> field_number field c <> None) ->
        search_field field [ ("$gte", bound) ] self
        = (Returned
             (filter (fun c =>
                        match field_number field c with
                        | Some k => (n <=? k)%Z
                        | None => false
                        end)
                     (mock_contacts self)), self))
  /\ (forall wanted : bool,
        search_field field [ ("$exists", VBool wanted) ] self
        = (Returned
             (filter (fun c =>
                        Bool.eqb (match field_value field c with
                                  | Some _ => true
                                  | None => false
                                  end) wanted)
                     (mock_contacts self)), self))
  /\ (forall condition : dict pyval,
        dict_get "$gte" condition = None ->
        dict_get "$eq" condition = None ->
        dict_get "$exists" condition = None ->
        search_field field condition self
        = (Returned (mock_contacts self), self))
  /\ (forall bound : pyval,
        search_field field [ ("$lte", bound) ] self
        = (Returned (mock_contacts self), self)).
Proof.
  intros Hm Hopen.
  split; [| split; [| split; [| split]]].
  - intros wanted. now rewrite (search_field_runs _ _ _ Hm Hopen).
  - intros bound n Hbound Hnumbers. rewrite (search_field_runs _ _ _ Hm Hopen).
    unfold apply_condition. cbn [dict_get String.eqb Ascii.eqb Bool.eqb].
    f_equal. apply filter_raising_total. intros c Hc.
    specialize (Hnumbers c Hc).
    unfold gte_test, field_number, field_value in *.
    destruct (dict_get field (get_customFields c)) as [v |].
    + destruct (as_number v) as [k |] eqn:Ek; [| now elim Hnumbers].
      now rewrite (py_ge_numbers _ _ _ _ Ek Hbound).
    + now rewrite (py_ge_numbers (VInt 0) bound 0 n eq_refl Hbound).
  - intros wanted. now rewrite (search_field_runs _ _ _ Hm Hopen).
  - intros condition Hgte Heq Hexists. rewrite (search_field_runs _ _ _ Hm Hopen).
    unfold apply_condition. now rewrite Hgte, Heq, Hexists.
  - intros bound. now rewrite (search_field_runs _ _ _ Hm Hopen).
Qed.

Lemma search_recognises_eq_gte_exists_only_witness :
  search_field "stories_count" [ ("$lte", VInt 5) ] fresh_tool
  = (Returned (mock_contacts fresh_tool), fresh_tool)
  /\ search_field "stories_count" [ ("$gte", VInt 6) ] fresh_tool
     = (Returned
          (filter (fun c =>
                     match field_number "stories_count" c with
                     | Some k => (6 <=? k)%Z
                     | None => false
                     end)
                  (mock_contacts fresh_tool)), fresh_tool).
Proof.
  assert (Hopen : ~ In "stories_count" BLOCKED_FIELDS).
  { simpl. intros [H | [H | []]]; discriminate H. }
  destruct (search_recognises_eq_gte_exists_only fresh_tool "stories_count"
              eq_refl Hopen) as (_ & Hgte & _ & _ & Hlte).
  split; [apply Hlte | apply (Hgte (VInt 6) 6%Z eq_refl)].
  intros c Hc. simpl in Hc.
  repeat (destruct Hc as [<- | Hc]; [vm_compute; discriminate |]).
  destruct Hc.
Defined.

(** C7 as stated fails: a less-or-equal condition is not a filter. The
    search for [stories_count <= 5] on the mock store returns all five
    contacts, among them contact_003 with [stories_count] 12, so the
    records returned are not exactly those within the bound. *)
Lemma search_lte_returns_records_above_bound :
  exists results,
    search_contacts
      (Some (mkFilters None (Some [ ("stories_count", [ ("$lte", VInt 5) ]) ])))
      fresh_tool
    = (Returned results, fresh_tool)
    /\ ~ (forall record,
            In record results
            <-> In record (mock_contacts fresh_tool)
                /\ lte_holds "stories_count" 5 record).
Proof.
  exists (mock_contacts fresh_tool). split; [vm_compute; reflexivity |].
  intros Hexact.
  destruct (stored fresh_tool "contact_003") as [c3 |] eqn:E;
    [| vm_compute in E; discriminate E].
  pose proof E as Hin. unfold stored in Hin. apply find_some in Hin.
  destruct Hin as [Hin _].
  apply Hexact in Hin. destruct Hin as [_ Hle].
  vm_compute in E. injection E as <-.
  vm_compute in Hle. now apply Hle.
Qed.

(** The three recognised conditions on the mock store, by contact id. *)

Example search_stories_gte_3 :
  match fst (search_field "stories_count" [ ("$gte", VInt 3) ] fresh_tool) with
  | Returned rs => map c_id rs = [ "contact_001"; "contact_003" ]
  | Raised _ => False
  end.
Proof. vm_compute. reflexivity. Qed.

Example search_status_eq_active :
  match fst (search_field "storyteller_status" [ ("$eq", VStr "Active") ]
               fresh_tool) with
  | Returned rs => map c_id rs = [ "contact_001" ]
  | Raised _ => False
  end.
Proof. vm_compute. reflexivity. Qed.

Example search_arr_exists :
  match fst (search_field "arr" [ ("$exists", VBool true) ] fresh_tool) with
  | Returned rs => map c_id rs = [ "contact_004" ]
  | Raised _ => False
  end.
Proof. vm_compute. reflexivity. Qed.

Example search_stories_lte_5 :
  match fst (search_field "stories_count" [ ("$lte", VInt 5) ] fresh_tool) with
  | Returned rs =>
      map c_id rs
      = [ "contact_001"; "contact_002"; "contact_003"; "contact_004"; "contact_005" ]
  | Raised _ => False
  end.
Proof. vm_compute. reflexivity. Qed.

(** Ordering a string against a number raises [TypeError]: the first
    contact holds a string under [supabase_user_id]. *)
Example search_gte_on_string_field :
  fst (search_field "supabase_user_id" [ ("$gte", VInt 3) ] fresh_tool)
  = Raised TypeError.
Proof. vm_compute. reflexivity. Qed.

(** The tag filter keeps the contacts that carry any of the tags. *)
Example search_by_tags :
  match fst (search_contacts
               (Some (mkFilters (Some [ "the-harvest"; "act-farm" ]) None))
               fresh_tool) with
  | Returned rs => map c_id rs = [ "contact_002"; "contact_003"; "contact_005" ]
  | Raised _ => False
  end.
Proof. vm_compute. reflexivity. Qed.
(* ================================================================== *)
(** * More on the field policy *)
(* ================================================================== *)

Section Decisions.

(** A check that returns was asked about a field that is not blocked and
    not about writing or deleting a read-only one. *)
Lemma check_returned_open
    (field operation : string) (context : option (dict pyval)) :
  check_cultural_protocol field operation context = Returned tt ->
  ~ In field BLOCKED_FIELDS
  /\ ~ (In field READ_ONLY_FIELDS /\ In operation [ "write"; "delete" ]).
Proof.
  unfold check_cultural_protocol. rewrite <- !str_in_list_In.
  destruct (str_in_list field BLOCKED_FIELDS); [discriminate |].
  destruct (str_in_list field READ_ONLY_FIELDS && _) eqn:E; [discriminate |].
  intros _. split; [discriminate |]. intros [Hr Ho].
  rewrite Hr, Ho in E. discriminate E.
Qed.

(** A lookup of an id that is not stored, in mock mode. *)
Lemma get_contact_missing (self : tool) (contact_id : string) :
  mock_mode self = true ->
  stored self contact_id = None ->
  get_contact contact_id self
  = (Raised (ValueError ("Contact not found: " ++ contact_id)%string), self).
Proof.
  intros Hm Hs. unfold get_contact, bind, get_self. rewrite Hm.
  unfold stored in Hs. now rewrite Hs.
Qed.

End Decisions.

(** X1. The policy check returns exactly when the field is not blocked
    and is not a read-only field asked for 'write' or 'delete'; any other
    operation string on a read-only field passes. *)
Theorem check_returns_iff_allowed
    (field operation : string) (context : option (dict pyval)) :
  check_cultural_protocol field operation context = Returned tt
  <-> ~ In field BLOCKED_FIELDS
      /\ ~ (In field READ_ONLY_FIELDS /\ In operation [ "write"; "delete" ]).
Proof.
  unfold check_cultural_protocol.
  rewrite <- !str_in_list_In.
  destruct (str_in_list field BLOCKED_FIELDS);
    destruct (str_in_list field READ_ONLY_FIELDS);
    destruct (str_in_list operation [ "write"; "delete" ]); cbn [andb];
    intuition discriminate.
Qed.

(* ================================================================== *)
(** * Lookups and the live mode *)
(* ================================================================== *)

Section Lookup.

(** The policy loop never touches the instance. *)
Lemma policy_loop_state (operation : string) (fields : list string) (self : tool) :
  snd (for_each fields
         (fun f => lift (check_cultural_protocol f operation None)) self)
  = self.
Proof.
  induction fields as [| f fields IH]; [reflexivity |].
  simpl. unfold bind, lift.
  destruct (check_cultural_protocol f operation None) as [[] | e];
    [exact IH | reflexivity].
Qed.

(** The policy loop returns or raises a policy violation. *)
Lemma policy_loop_outcome (operation : string) (fields : list string) (self : tool) :
  for_each fields
    (fun f => lift (check_cultural_protocol f operation None)) self
  = (Returned tt, self)
  \/ exists f v,
       In f fields
       /\ check_cultural_protocol f operation None = Raised (PermissionError v)
       /\ for_each fields
            (fun f => lift (check_cultural_protocol f operation None)) self
          = (Raised (PermissionError v), self).
Proof.
  induction fields as [| f fields IH]; [now left |].
  simpl. unfold bind, lift.
  destruct (check_cultural_protocol f operation None) as [[] | e] eqn:E.
  - destruct IH as [IH | (f' & v & Hin & Hv & IH)]; [now left |].
    right. exists f', v. auto.
  - destruct (check_raises_permission_only _ _ _ _ E) as [v ->].
    right. exists f, v. auto.
Qed.

Lemma stdout_logged (level : string) (c : Contact) (self : tool) :
  stdout (logged level c self)
  = stdout self
    ++ review_block (if level =? "WARNING" then SymWarning
                      else if level =? "CRITICAL" then SymCritical
                      else SymInfo) c.
Proof.
  unfold logged, log_cultural_protocol_check, review_block.
  destruct (requires_review (check_contact_cultural_protocols c)); simpl;
    [reflexivity | now rewrite app_nil_r].
Qed.

End Lookup.

(** X2. In mock mode [get_contact] on an id that no stored contact has
    raises [ValueError] with the id in its message, prints nothing and
    leaves the instance as it was. *)
Theorem get_contact_unknown_id (self : tool) (contact_id : string) :
  mock_mode self = true ->
  stored self contact_id = None ->
  get_contact contact_id self
  = (Raised (ValueError ("Contact not found: " ++ contact_id)%string), self).
Proof.
  intros Hm Hs. unfold get_contact, bind, get_self. rewrite Hm.
  unfold stored in Hs. now rewrite Hs.
Qed.

Lemma get_contact_unknown_id_witness :
  get_contact "contact_042" fresh_tool
  = (Raised (ValueError "Contact not found: contact_042"), fresh_tool).
Proof.
  apply (get_contact_unknown_id fresh_tool "contact_042"); reflexivity.
Defined.

(** X3. In mock mode [get_contact] on a stored id returns the first
    contact with that id even when the contact needs a cultural review:
    the review only adds one WARNING block to the output, and the stored
    contacts are untouched. *)
Theorem get_contact_returns_despite_review
    (self : tool) (contact_id : string) (c : Contact) :
  mock_mode self = true ->
  stored self contact_id = Some c ->
  exists self',
    get_contact contact_id self = (Returned c, self')
    /\ mock_mode self' = true
    /\ mock_contacts self' = mock_contacts self
    /\ stdout self' = stdout self ++ review_block SymWarning c.
Proof.
  intros Hm Hs. exists (logged "WARNING" c self).
  split; [now apply get_contact_found |].
  split; [now rewrite logged_mode |].
  split; [apply logged_contacts |].
  apply stdout_logged.
Qed.

Lemma get_contact_returns_despite_review_witness :
  exists c self',
    stored fresh_tool "contact_003" = Some c
    /\ requires_review (check_contact_cultural_protocols c) = true
    /\ get_contact "contact_003" fresh_tool = (Returned c, self')
    /\ mock_mode self' = true
    /\ mock_contacts self' = mock_contacts fresh_tool
    /\ stdout self' = stdout fresh_tool ++ review_block SymWarning c.
Proof.
  eexists.
  destruct (get_contact_returns_despite_review fresh_tool "contact_003" _
              eq_refl eq_refl) as (self' & H).
  exists self'. split; [reflexivity |]. split; [reflexivity |]. exact H.
Defined.



(* ================================================================== *)
(** * What the writing methods keep *)
(* ================================================================== *)

Section Dictionaries.

Context {V : Type}.

Lemma dict_get_set_same (k : string) (v : V) (d : dict V) :
  dict_get k (dict_set k v d) = Some v.
Proof.
  induction d as [| [k' v'] d IH]; simpl.
  - now rewrite String.eqb_refl.
  - destruct (k' =? k) eqn:E; simpl; rewrite E; [reflexivity | exact IH].
Qed.

Lemma dict_get_set_other (k k' : string) (v : V) (d : dict V) :
  k' <> k -> dict_get k (dict_set k' v d) = dict_get k d.
Proof.
  intros Hne. induction d as [| [k0 v0] d IH]; simpl.
  - apply String.eqb_neq in Hne. now rewrite Hne.
  - destruct (k0 =? k') eqn:E; simpl.
    + apply String.eqb_eq in E. subst k0.
      apply String.eqb_neq in Hne. now rewrite Hne.
    + destruct (k0 =? k); [reflexivity | exact IH].
Qed.

Lemma dict_get_app (k : string) (d e : dict V) :
  dict_get k (d ++ e)
  = match dict_get k d with Some v => Some v | None => dict_get k e end.
Proof.
  induction d as [| [k' v'] d IH]; simpl; [reflexivity |].
  destruct (k' =? k); [reflexivity | exact IH].
Qed.

(** A lookup after [update]: the last binding of the key among the
    updates, else what the dictionary held. *)
Lemma dict_get_update (k : string) (d u : dict V) :
  dict_get k (dict_update d u)
  = match last_binding k u with
    | Some v => Some v
    | None => dict_get k d
    end.
Proof.
  unfold dict_update, last_binding. revert d.
  induction u as [| [k' v'] u IH]; intros d; simpl; [reflexivity |].
  rewrite IH, dict_get_app. destruct (dict_get k (rev u)); [reflexivity |].
  simpl. destruct (k' =? k) eqn:E.
  - apply String.eqb_eq in E. subst k'. apply dict_get_set_same.
  - apply String.eqb_neq in E. now apply dict_get_set_other.
Qed.

Lemma dict_get_none_keys (k : string) (d : dict V) :
  ~ In k (dict_keys d) -> dict_get k d = None.
Proof.
  induction d as [| [k' v'] d IH]; simpl; [reflexivity |].
  intros Hn. destruct (k' =? k) eqn:E.
  - apply String.eqb_eq in E. elim Hn. now left.
  - apply IH. intros Hin. apply Hn. now right.
Qed.

Lemma dict_get_update_other (k : string) (d u : dict V) :
  ~ In k (dict_keys u) -> dict_get k (dict_update d u) = dict_get k d.
Proof.
  intros Hn. rewrite dict_get_update. unfold last_binding.
  rewrite dict_get_none_keys; [reflexivity |].
  unfold dict_keys. rewrite map_rev. now rewrite <- in_rev.
Qed.

End Dictionaries.

Section Keeps.

Variable R : Contact -> Contact -> Prop.

Hypothesis R_refl : forall c, R c c.
Hypothesis R_trans : forall a b c, R a b -> R b c -> R a c.
Hypothesis R_tags : forall c tags, R c (set_tags c tags).

Lemma Forall2_same (cs : list Contact) : Forall2 R cs cs.
Proof. induction cs; constructor; auto. Qed.

Lemma Forall2_chain (a b c : list Contact) :
  Forall2 R a b -> Forall2 R b c -> Forall2 R a c.
Proof.
  intros Hab. revert c. induction Hab; intros c Hbc; inversion Hbc; subst;
    constructor; eauto.
Qed.

Lemma kept_refl (self : tool) : kept R self self.
Proof. split; [reflexivity | apply Forall2_same]. Qed.

Lemma kept_trans (a b c : tool) : kept R a b -> kept R b c -> kept R a c.
Proof.
  intros [Hm1 H1] [Hm2 H2]. split; [congruence | eapply Forall2_chain; eauto].
Qed.

Lemma kept_logged (level : string) (c : Contact) (self : tool) :
  kept R self (logged level c self).
Proof.
  split; [apply logged_mode |]. rewrite logged_contacts. apply Forall2_same.
Qed.

(** Writing a related contact over the stored one keeps the relation. *)
Lemma replace_first_related (c0 c : Contact) (cs : list Contact) :
  find (fun x => c_id x =? c_id c) cs = Some c0 ->
  R c0 c ->
  Forall2 R cs (replace_first c cs).
Proof.
  induction cs as [| x cs IH]; simpl; [discriminate |].
  destruct (c_id x =? c_id c) eqn:E.
  - intros H Hr. injection H as ->. constructor; [assumption | apply Forall2_same].
  - intros H Hr. constructor; [apply R_refl | now apply IH].
Qed.

Lemma kept_assigned (self : tool) (c0 c : Contact) :
  stored self (c_id c) = Some c0 -> R c0 c -> kept R self (assigned c self).
Proof.
  intros Hs Hr. split; [reflexivity |].
  unfold assigned, assign. simpl. now apply replace_first_related with c0.
Qed.

Lemma bind_raised {A B : Type} (m : M A) (k : A -> M B)
    (self self' : tool) (e : exn) :
  m self = (Raised e, self') -> bind m k self = (Raised e, self').
Proof. intros H. unfold bind. now rewrite H. Qed.

(** A policy loop that returns has accepted every field. *)
Lemma policy_loop_returned (operation : string) (fields : list string) (self : tool) :
  for_each fields
    (fun f => lift (check_cultural_protocol f operation None)) self
  = (Returned tt, self) ->
  permitted operation fields.
Proof.
  intros Hrun f Hin.
  destruct (check_cultural_protocol f operation None) as [[] | e] eqn:E;
    [reflexivity |].
  assert (Hfail : check_cultural_protocol f operation None <> Returned tt)
    by (rewrite E; discriminate).
  destruct (policy_loop_refuses operation fields f Hin Hfail)
    as (f' & v & _ & _ & Hraise).
  rewrite Hraise in Hrun. discriminate.
Qed.

(** [update_contact], whatever it is given and however it ends, keeps
    the relation. *)
Lemma update_contact_kept (self : tool) (contact_id : string) (updates : Updates) :
  (forall fields c held,
     u_customFields updates = Some fields ->
     permitted "write" (dict_keys fields) ->
     c_customFields c = Some held ->
     R c (set_customFields c (dict_update held fields))) ->
  kept R self (snd (update_contact contact_id updates self)).
Proof.
  intros R_fields. unfold update_contact.
  destruct (policy_loop_outcome "write"
              (dict_keys (or_empty_dict (u_customFields updates))) self)
    as [Hrun | (f & v & _ & _ & Hrun)].
  2: { rewrite (bind_raised _ _ _ _ _ Hrun). apply kept_refl. }
  pose proof (policy_loop_returned _ _ _ Hrun) as Hperm.
  rewrite (bind_returned _ _ _ _ _ Hrun).
  rewrite (bind_returned get_self _ self self self eq_refl).
  destruct (mock_mode self) eqn:Hm; [| apply kept_refl].
  destruct (stored self contact_id) as [c |] eqn:Hs.
  2: { rewrite (bind_raised _ _ _ _ _ (get_contact_missing _ _ Hm Hs)).
       apply kept_refl. }
  rewrite (bind_returned _ _ _ _ _ (get_contact_found _ _ _ Hm Hs)).
  pose proof (stored_id _ _ _ Hs) as Hid.
  set (s0 := logged "WARNING" c self).
  assert (K0 : kept R self s0) by apply kept_logged.
  assert (Hs0 : stored s0 contact_id = Some c)
    by (unfold s0; now rewrite stored_logged).
  (* the tags *)
  assert (Htags : exists c1 s1,
             (match u_tags updates with
              | Some tags => assign (set_tags c tags)
              | None => ret c
              end) s0 = (Returned c1, s1)
             /\ kept R self s1 /\ stored s1 contact_id = Some c1
             /\ R c c1 /\ c_id c1 = contact_id
             /\ c_customFields c1 = c_customFields c).
  { destruct (u_tags updates) as [tags |].
    - exists (set_tags c tags), (assigned (set_tags c tags) s0).
      split; [reflexivity |]. split.
      + eapply kept_trans; [exact K0 |].
        apply kept_assigned with c; [simpl; now rewrite Hid | apply R_tags].
      + split; [now apply stored_assigned with c |]. auto.
    - exists c, s0. split; [reflexivity |]. auto. }
  destruct Htags as (c1 & s1 & Hrun1 & K1 & Hs1 & Hr1 & Hid1 & Hcf1).
  rewrite (bind_returned _ _ _ _ _ Hrun1).
  (* the fields *)
  destruct (u_customFields updates) as [fields |] eqn:Hf.
  - destruct (c_customFields c1) as [held |] eqn:Hheld.
    + set (c2 := set_customFields c1 (dict_update held fields)).
      rewrite (bind_returned (assign c2) _ s1 (assigned c2 s1) c2 eq_refl).
      rewrite (bind_returned _ _ _ _ _ (log_step "INFO" c2 _)).
      eapply kept_trans; [exact K1 |].
      eapply kept_trans; [| apply kept_logged].
      apply kept_assigned with c1; [simpl; now rewrite Hid1 |].
      now apply (R_fields fields).
    + rewrite (bind_raised (raise (KeyError "customFields")) _ s1 s1 _ eq_refl).
      exact K1.
  - rewrite (bind_returned (ret c1) _ s1 s1 c1 eq_refl).
    rewrite (bind_returned _ _ _ _ _ (log_step "INFO" c1 _)).
    eapply kept_trans; [exact K1 | apply kept_logged].
Qed.

(** The writing half of [add_tag] and [remove_tag]. *)
Lemma retag_kept (self : tool) (contact_id : string) (c : Contact)
    (tags : list string) :
  stored self contact_id = Some c ->
  kept R self
    (snd ((_ <- (match c_tags c with
                 | Some _ => assign (set_tags c tags)
                 | None => ret c
                 end) ;;
           update_contact contact_id (mkUpdates (Some tags) None)) self)).
Proof.
  intros Hs. pose proof (stored_id _ _ _ Hs) as Hid.
  destruct (c_tags c) as [ts |].
  - rewrite (bind_returned (assign (set_tags c tags)) _ _
               (assigned (set_tags c tags) self) (set_tags c tags) eq_refl).
    eapply kept_trans;
      [| apply update_contact_kept; intros fields c' held Hf; discriminate Hf].
    apply kept_assigned with c; [simpl; now rewrite Hid | apply R_tags].
  - rewrite (bind_returned (ret c) _ _ _ c eq_refl).
    apply update_contact_kept. intros fields c' held Hf. discriminate Hf.
Qed.

(** A failed lookup leaves the instance as it was. *)
Lemma get_contact_raised (self self' : tool) (contact_id : string) (e : exn) :
  get_contact contact_id self = (Raised e, self') -> self' = self.
Proof.
  unfold get_contact, bind, get_self.
  destruct (mock_mode self); [| intros H; now injection H].
  destruct (find _ (mock_contacts self)) as [c |];
    [| intros H; now injection H].
  rewrite log_step. discriminate.
Qed.

Lemma add_tag_kept (self : tool) (contact_id tag : string) :
  kept R self (snd (add_tag contact_id tag self)).
Proof.
  unfold add_tag.
  destruct (get_contact contact_id self) as [[c | e] s0] eqn:Hget.
  - pose proof (f_equal fst Hget) as Hfst. cbn [fst] in Hfst.
    apply get_contact_returned in Hfst. destruct Hfst as [Hm Hs].
    rewrite (get_contact_found _ _ _ Hm Hs) in Hget. injection Hget as <-.
    rewrite (bind_returned _ _ _ _ _ (get_contact_found _ _ _ Hm Hs)).
    destruct (str_in_list tag (get_tags c)); cbn [negb]; [apply kept_logged |].
    cbv zeta. eapply kept_trans; [apply kept_logged |].
    apply retag_kept. now rewrite stored_logged.
  - rewrite (bind_raised _ _ _ _ _ Hget).
    apply get_contact_raised in Hget. subst s0. apply kept_refl.
Qed.

Lemma remove_tag_kept (self : tool) (contact_id tag : string) :
  kept R self (snd (remove_tag contact_id tag self)).
Proof.
  unfold remove_tag.
  destruct (get_contact contact_id self) as [[c | e] s0] eqn:Hget.
  - pose proof (f_equal fst Hget) as Hfst. cbn [fst] in Hfst.
    apply get_contact_returned in Hfst. destruct Hfst as [Hm Hs].
    rewrite (get_contact_found _ _ _ Hm Hs) in Hget. injection Hget as <-.
    rewrite (bind_returned _ _ _ _ _ (get_contact_found _ _ _ Hm Hs)).
    destruct (str_in_list tag (get_tags c)); [| apply kept_logged].
    cbv zeta. eapply kept_trans; [apply kept_logged |].
    apply retag_kept. now rewrite stored_logged.
  - rewrite (bind_raised _ _ _ _ _ Hget).
    apply get_contact_raised in Hget. subst s0. apply kept_refl.
Qed.

End Keeps.

Section Invariants.

Lemma Forall2_map_eq {A B : Type} (f : A -> B) (l l' : list A) :
  Forall2 (fun a a' => f a = f a') l l' -> map f l = map f l'.
Proof. induction 1; simpl; congruence. Qed.

(** A field the policy protects is not among fields it lets be written. *)
Lemma protected_not_permitted (field : string) (fields : list string) :
  protected field -> permitted "write" fields -> ~ In field fields.
Proof.
  intros Hprot Hperm Hin. specialize (Hperm field Hin).
  apply check_returned_open in Hperm. destruct Hperm as [Hb Hr].
  destruct Hprot as [Hp | Hp]; [now apply Hb |].
  apply Hr. split; [assumption | now left].
Qed.

End Invariants.

(** X5. [update_contact], [add_tag] and [remove_tag], with any arguments
    and whether they return or raise, never add, drop or reorder stored
    contacts, never change the mode, and never write a contact's id,
    email, first name, last name, phone or company; the two tag methods
    do not write [customFields] either. *)
Theorem writes_keep_identity (self : tool) (contact_id : string) :
  (forall updates,
     let after := snd (update_contact contact_id updates self) in
     mock_mode after = mock_mode self
     /\ map identity (mock_contacts after) = map identity (mock_contacts self))
  /\ (forall tag,
        let after := snd (add_tag contact_id tag self) in
        mock_mode after = mock_mode self
        /\ map identity (mock_contacts after) = map identity (mock_contacts self)
        /\ map c_customFields (mock_contacts after)
           = map c_customFields (mock_contacts self))
  /\ (forall tag,
        let after := snd (remove_tag contact_id tag self) in
        mock_mode after = mock_mode self
        /\ map identity (mock_contacts after) = map identity (mock_contacts self)
        /\ map c_customFields (mock_contacts after)
           = map c_customFields (mock_contacts self)).
Proof.
  split; [| split].
  - intros updates after.
    destruct (update_contact_kept (fun c c' => identity c = identity c')
                ltac:(reflexivity) ltac:(intros; congruence)
                ltac:(reflexivity) self contact_id updates
                ltac:(reflexivity)) as [Hm Hc].
    split; [exact Hm |]. symmetry. now apply Forall2_map_eq.
  - intros tag after.
    destruct (add_tag_kept
                (fun c c' => identity c = identity c'
                             /\ c_customFields c = c_customFields c')
                ltac:(split; reflexivity)
                ltac:(intros a b c [] []; split; congruence)
                ltac:(split; reflexivity) self contact_id tag) as [Hm Hc].
    split; [exact Hm |].
    split; symmetry; apply Forall2_map_eq;
      (eapply Forall2_impl; [| exact Hc]); now intros a b [].
  - intros tag after.
    destruct (remove_tag_kept
                (fun c c' => identity c = identity c'
                             /\ c_customFields c = c_customFields c')
                ltac:(split; reflexivity)
                ltac:(intros a b c [] []; split; congruence)
                ltac:(split; reflexivity) self contact_id tag) as [Hm Hc].
    split; [exact Hm |].
    split; symmetry; apply Forall2_map_eq;
      (eapply Forall2_impl; [| exact Hc]); now intros a b [].
Qed.

(** X6. No call of [update_contact], [add_tag] or [remove_tag], whatever
    its arguments and its outcome, changes what any stored contact holds
    under a blocked or read-only field: the field is neither added, nor
    altered, nor removed. *)
Theorem writes_keep_protected_fields
    (self : tool) (contact_id field : string) :
  protected field ->
  (forall updates,
     map (field_value field)
         (mock_contacts (snd (update_contact contact_id updates self)))
     = map (field_value field) (mock_contacts self))
  /\ (forall tag,
        map (field_value field)
            (mock_contacts (snd (add_tag contact_id tag self)))
        = map (field_value field) (mock_contacts self))
  /\ (forall tag,
        map (field_value field)
            (mock_contacts (snd (remove_tag contact_id tag self)))
        = map (field_value field) (mock_contacts self)).
Proof.
  intros Hprot.
  set (R := fun c c' : Contact => field_value field c = field_value field c').
  assert (R_refl : forall c, R c c) by reflexivity.
  assert (R_trans : forall a b c, R a b -> R b c -> R a c)
    by (unfold R; intros; congruence).
  assert (R_tags : forall c tags, R c (set_tags c tags)) by reflexivity.
  split; [| split].
  - intros updates. symmetry. apply Forall2_map_eq.
    apply (update_contact_kept R R_refl R_trans R_tags self contact_id updates).
    intros fields c held _ Hperm Hheld. unfold R, field_value, get_customFields.
    rewrite Hheld. cbn [set_customFields c_customFields].
    symmetry. apply dict_get_update_other.
    now apply protected_not_permitted.
  - intros tag. symmetry. apply Forall2_map_eq.
    apply (add_tag_kept R R_refl R_trans R_tags).
  - intros tag. symmetry. apply Forall2_map_eq.
    apply (remove_tag_kept R R_refl R_trans R_tags).
Qed.

Lemma writes_keep_protected_fields_witness :
  map (field_value "elder_review_required")
      (mock_contacts
         (snd (update_contact "contact_003"
                 (mkUpdates (Some [ "role:elder" ])
                    (Some [ ("stories_count", VInt 13) ])) fresh_tool)))
  = map (field_value "elder_review_required") (mock_contacts fresh_tool).
Proof.
  apply (writes_keep_protected_fields fresh_tool "contact_003"
           "elder_review_required").
  right. simpl. tauto.
Defined.

(* ================================================================== *)
(** * What a permitted update does *)
(* ================================================================== *)

Section Updates.

Lemma replace_first_self (c : Contact) (cs : list Contact) :
  find (fun x => c_id x =? c_id c) cs = Some c -> replace_first c cs = cs.
Proof.
  induction cs as [| x cs IH]; simpl; [reflexivity |].
  destruct (c_id x =? c_id c).
  - intros H. now injection H as ->.
  - intros H. now rewrite IH.
Qed.

Lemma replace_first_over (c1 c2 : Contact) (cs : list Contact) :
  c_id c1 = c_id c2 ->
  replace_first c2 (replace_first c1 cs) = replace_first c2 cs.
Proof.
  intros Hid. induction cs as [| x cs IH]; simpl; [reflexivity |].
  rewrite Hid. destruct (c_id x =? c_id c2) eqn:E; simpl.
  - now rewrite Hid, String.eqb_refl.
  - now rewrite E, IH.
Qed.

Lemma contacts_assigned (c : Contact) (self : tool) :
  mock_contacts (assigned c self) = replace_first c (mock_contacts self).
Proof. reflexivity. Qed.

(** The run of [update_contact] on a stored contact once the policy has
    accepted the fields: it raises [KeyError] after the tags are written
    when fields are given to a contact without [customFields], and in
    every other case returns the merged record, which is then stored. *)
Lemma update_contact_permitted
    (self : tool) (contact_id : string) (updates : Updates) (c : Contact) :
  permitted "write" (dict_keys (or_empty_dict (u_customFields updates))) ->
  mock_mode self = true ->
  stored self contact_id = Some c ->
  exists self',
    mock_mode self' = true
    /\ (match u_customFields updates, c_customFields c with
        | Some _, None =>
            update_contact contact_id updates self
            = (Raised (KeyError "customFields"), self')
            /\ mock_contacts self'
               = match u_tags updates with
                 | Some tags => replace_first (set_tags c tags) (mock_contacts self)
                 | None => mock_contacts self
                 end
        | _, _ =>
            update_contact contact_id updates self
            = (Returned (apply_updates updates c), self')
            /\ mock_contacts self'
               = replace_first (apply_updates updates c) (mock_contacts self)
        end).
Proof.
  intros Hperm Hm Hs. unfold update_contact.
  rewrite (bind_returned _ _ _ _ _ (policy_loop_accepts "write" _ Hperm self)).
  rewrite (bind_returned get_self _ self self self eq_refl), Hm.
  rewrite (bind_returned _ _ _ _ _ (get_contact_found _ _ _ Hm Hs)).
  pose proof (stored_id _ _ _ Hs) as Hid.
  pose proof Hs as Hfind. unfold stored in Hfind. rewrite <- Hid in Hfind.
  unfold apply_updates.
  destruct (u_tags updates) as [tags |];
    destruct (u_customFields updates) as [fields |];
    destruct (c_customFields c) as [held |] eqn:Hheld.
  - (* tags, fields, stored fields *)
    rewrite (bind_returned (assign (set_tags c tags)) _ _
               (assigned (set_tags c tags) (logged "WARNING" c self))
               (set_tags c tags) eq_refl).
    cbn [c_customFields set_tags]. rewrite Hheld.
    set (c2 := set_customFields (set_tags c tags)
                 (dict_update (get_customFields (set_tags c tags)) fields)).
    assert (E : set_customFields (set_tags c tags) (dict_update held fields) = c2).
    { unfold c2, get_customFields. cbn [c_customFields set_tags].
      now rewrite Hheld. }
    rewrite E.
    rewrite (bind_returned (assign c2) _ _ (assigned c2 _) c2 eq_refl).
    rewrite (bind_returned _ _ _ _ _ (log_step "INFO" c2 _)).
    eexists. split; [| split; [reflexivity |]].
    + now rewrite logged_mode, !assigned_mode, logged_mode.
    + rewrite logged_contacts, !contacts_assigned, logged_contacts.
      now apply replace_first_over.
  - (* tags, fields, no stored fields *)
    rewrite (bind_returned (assign (set_tags c tags)) _ _
               (assigned (set_tags c tags) (logged "WARNING" c self))
               (set_tags c tags) eq_refl).
    cbn [c_customFields set_tags]. rewrite Hheld.
    rewrite (bind_raised (raise (KeyError "customFields")) _ _ _ _ eq_refl).
    eexists. split; [| split; [reflexivity |]].
    + now rewrite assigned_mode, logged_mode.
    + now rewrite contacts_assigned, logged_contacts.
  - (* tags only *)
    rewrite (bind_returned (assign (set_tags c tags)) _ _
               (assigned (set_tags c tags) (logged "WARNING" c self))
               (set_tags c tags) eq_refl).
    rewrite (bind_returned (ret (set_tags c tags)) _ _ _ (set_tags c tags) eq_refl).
    rewrite (bind_returned _ _ _ _ _ (log_step "INFO" (set_tags c tags) _)).
    eexists. split; [| split; [reflexivity |]].
    + now rewrite logged_mode, assigned_mode, logged_mode.
    + now rewrite logged_contacts, contacts_assigned, logged_contacts.
  - rewrite (bind_returned (assign (set_tags c tags)) _ _
               (assigned (set_tags c tags) (logged "WARNING" c self))
               (set_tags c tags) eq_refl).
    rewrite (bind_returned (ret (set_tags c tags)) _ _ _ (set_tags c tags) eq_refl).
    rewrite (bind_returned _ _ _ _ _ (log_step "INFO" (set_tags c tags) _)).
    eexists. split; [| split; [reflexivity |]].
    + now rewrite logged_mode, assigned_mode, logged_mode.
    + now rewrite logged_contacts, contacts_assigned, logged_contacts.
  - (* fields, stored fields *)
    rewrite (bind_returned (ret c) _ _ _ c eq_refl). rewrite Hheld.
    set (c2 := set_customFields c (dict_update (get_customFields c) fields)).
    assert (E : set_customFields c (dict_update held fields) = c2).
    { unfold c2, get_customFields. now rewrite Hheld. }
    rewrite E.
    rewrite (bind_returned (assign c2) _ _ (assigned c2 _) c2 eq_refl).
    rewrite (bind_returned _ _ _ _ _ (log_step "INFO" c2 _)).
    eexists. split; [| split; [reflexivity |]].
    + now rewrite logged_mode, assigned_mode, logged_mode.
    + now rewrite logged_contacts, contacts_assigned, logged_contacts.
  - (* fields, no stored fields *)
    rewrite (bind_returned (ret c) _ _ _ c eq_refl). rewrite Hheld.
    rewrite (bind_raised (raise (KeyError "customFields")) _ _ _ _ eq_refl).
    eexists. split; [| split; [reflexivity |]].
    + now rewrite logged_mode.
    + now rewrite logged_contacts.
  - (* nothing to write *)
    rewrite (bind_returned (ret c) _ _ _ c eq_refl).
    rewrite (bind_returned (ret c) _ _ _ c eq_refl).
    rewrite (bind_returned _ _ _ _ _ (log_step "INFO" c _)).
    eexists. split; [| split; [reflexivity |]].
    + now rewrite !logged_mode.
    + rewrite !logged_contacts. symmetry. now apply replace_first_self.
  - rewrite (bind_returned (ret c) _ _ _ c eq_refl).
    rewrite (bind_returned (ret c) _ _ _ c eq_refl).
    rewrite (bind_returned _ _ _ _ _ (log_step "INFO" c _)).
    eexists. split; [| split; [reflexivity |]].
    + now rewrite !logged_mode.
    + rewrite !logged_contacts. symmetry. now apply replace_first_self.
Qed.

End Updates.

(** X7. A permitted update of a stored contact (fields either not given,
    or given to a contact that has [customFields]) returns the merged
    record, stores it in place of the old one, and a following
    [get_contact] returns that same record. *)
Theorem update_contact_returns_merged_record
    (self : tool) (contact_id : string) (updates : Updates) (c : Contact) :
  permitted "write" (dict_keys (or_empty_dict (u_customFields updates))) ->
  mock_mode self = true ->
  stored self contact_id = Some c ->
  u_customFields updates = None \/ c_customFields c <> None ->
  exists self',
    update_contact contact_id updates self
    = (Returned (apply_updates updates c), self')
    /\ mock_contacts self'
       = replace_first (apply_updates updates c) (mock_contacts self)
    /\ stored self' contact_id = Some (apply_updates updates c)
    /\ fst (get_contact contact_id self') = Returned (apply_updates updates c).
Proof.
  intros Hperm Hm Hs Hok.
  destruct (update_contact_permitted self contact_id updates c Hperm Hm Hs)
    as (self' & Hm' & Hcase).
  assert (Hrun : update_contact contact_id updates self
                 = (Returned (apply_updates updates c), self')
                 /\ mock_contacts self'
                    = replace_first (apply_updates updates c) (mock_contacts self)).
  { destruct (u_customFields updates) as [fields |];
      destruct (c_customFields c) as [held |]; try exact Hcase.
    destruct Hok as [H | H]; [discriminate H | now elim H]. }
  destruct Hrun as [Hrun Hcs].
  assert (Hid : c_id (apply_updates updates c) = contact_id).
  { rewrite <- (stored_id _ _ _ Hs). unfold apply_updates.
    destruct (u_tags updates); destruct (u_customFields updates); reflexivity. }
  assert (Hs' : stored self' contact_id = Some (apply_updates updates c)).
  { unfold stored. rewrite Hcs, <- Hid.
    apply find_replace_first with c. rewrite Hid. exact Hs. }
  exists self'. repeat split; try assumption.
  now rewrite (get_contact_found _ _ _ Hm' Hs').
Qed.

Lemma update_contact_returns_merged_record_witness :
  exists c self',
    stored fresh_tool "contact_002" = Some c
    /\ update_contact "contact_002"
         (mkUpdates (Some [ "act-farm" ]) (Some [ ("stories_count", VInt 1) ]))
         fresh_tool
       = (Returned
            (apply_updates
               (mkUpdates (Some [ "act-farm" ]) (Some [ ("stories_count", VInt 1) ]))
               c), self')
    /\ fst (get_contact "contact_002" self')
       = Returned
           (apply_updates
              (mkUpdates (Some [ "act-farm" ]) (Some [ ("stories_count", VInt 1) ]))
              c).
Proof.
  eexists.
  destruct (update_contact_returns_merged_record fresh_tool "contact_002"
              (mkUpdates (Some [ "act-farm" ]) (Some [ ("stories_count", VInt 1) ]))
              _ ltac:(intros f [<- | []]; reflexivity) eq_refl eq_refl
              ltac:(right; discriminate))
    as (self' & Hrun & _ & _ & Hget).
  exists self'. split; [reflexivity |]. split; assumption.
Defined.

Section Returned.

(** What [update_contact] needs in order to return. *)
Lemma update_contact_returned
    (self self' : tool) (contact_id : string) (updates : Updates) (c' : Contact) :
  update_contact contact_id updates self = (Returned c', self') ->
  permitted "write" (dict_keys (or_empty_dict (u_customFields updates)))
  /\ mock_mode self = true
  /\ exists c, stored self contact_id = Some c
               /\ c' = apply_updates updates c
               /\ (u_customFields updates = None \/ c_customFields c <> None).
Proof.
  intros Hrun.
  destruct (policy_loop_outcome "write"
              (dict_keys (or_empty_dict (u_customFields updates))) self)
    as [Hloop | (f & v & _ & _ & Hloop)].
  2: { unfold update_contact in Hrun.
       rewrite (bind_raised _ _ _ _ _ Hloop) in Hrun. discriminate. }
  pose proof (policy_loop_returned _ _ _ Hloop) as Hperm.
  split; [exact Hperm |].
  destruct (mock_mode self) eqn:Hm.
  2: { unfold update_contact in Hrun.
       rewrite (bind_returned _ _ _ _ _ Hloop) in Hrun.
       rewrite (bind_returned get_self _ self self self eq_refl), Hm in Hrun.
       discriminate. }
  split; [reflexivity |].
  destruct (stored self contact_id) as [c |] eqn:Hs.
  2: { unfold update_contact in Hrun.
       rewrite (bind_returned _ _ _ _ _ Hloop) in Hrun.
       rewrite (bind_returned get_self _ self self self eq_refl), Hm in Hrun.
       rewrite (bind_raised _ _ _ _ _ (get_contact_missing _ _ Hm Hs)) in Hrun.
       discriminate. }
  exists c. split; [reflexivity |].
  destruct (update_contact_permitted self contact_id updates c Hperm Hm Hs)
    as (s & _ & Hcase).
  destruct (u_customFields updates) as [fields |];
    destruct (c_customFields c) as [held |];
    destruct Hcase as [Hrun' _]; rewrite Hrun' in Hrun;
    try discriminate; injection Hrun as <- _;
    (split; [reflexivity |]); auto; right; discriminate.
Qed.

End Returned.

(** X8. When [update_contact] returns, the returned record is the stored
    one with the tags replaced wholesale if tags were given, each given
    field reading back its (last) given value, every other field as
    before, and id, email, names, phone and company untouched. *)
Theorem update_contact_field_semantics
    (self self' : tool) (contact_id : string) (updates : Updates) (c' : Contact) :
  update_contact contact_id updates self = (Returned c', self') ->
  exists c,
    stored self contact_id = Some c
    /\ identity c' = identity c
    /\ get_tags c'
       = match u_tags updates with Some tags => tags | None => get_tags c end
    /\ forall k,
         field_value k c'
         = match u_customFields updates with
           | Some fields =>
               match last_binding k fields with
               | Some v => Some v
               | None => field_value k c
               end
           | None => field_value k c
           end.
Proof.
  intros Hrun.
  destruct (update_contact_returned _ _ _ _ _ Hrun)
    as (_ & _ & c & Hs & -> & _).
  exists c. split; [assumption |]. unfold apply_updates.
  destruct (u_tags updates) as [tags |];
    destruct (u_customFields updates) as [fields |];
    (split; [reflexivity |]); (split; [reflexivity |]); intros k;
    try reflexivity;
    unfold field_value; cbn [get_customFields set_customFields c_customFields];
    apply dict_get_update.
Qed.

Lemma update_contact_field_semantics_witness :
  exists c' self' c,
    update_contact "contact_001"
      (mkUpdates None (Some [ ("stories_count", VInt 6); ("region", VStr "QLD") ]))
      fresh_tool
    = (Returned c', self')
    /\ stored fresh_tool "contact_001" = Some c
    /\ identity c' = identity c
    /\ get_tags c' = get_tags c
    /\ forall k,
         field_value k c'
         = match last_binding k [ ("stories_count", VInt 6); ("region", VStr "QLD") ] with
           | Some v => Some v
           | None => field_value k c
           end.
Proof.
  destruct (update_contact "contact_001"
              (mkUpdates None
                 (Some [ ("stories_count", VInt 6); ("region", VStr "QLD") ]))
              fresh_tool) as [[c' | e] self'] eqn:E.
  - destruct (update_contact_field_semantics _ _ _ _ _ E) as (c & H).
    exists c', self', c. split; [reflexivity | exact H].
  - vm_compute in E. discriminate E.
Defined.

(** X9. Fields given to a stored contact that has no [customFields] key
    raise [KeyError], even when the policy permits them; tags given in
    the same update have been written by then and stay written. *)
Theorem update_contact_without_customFields
    (self : tool) (contact_id : string) (updates : Updates)
    (fields : dict pyval) (c : Contact) :
  u_customFields updates = Some fields ->
  permitted "write" (dict_keys fields) ->
  mock_mode self = true ->
  stored self contact_id = Some c ->
  c_customFields c = None ->
  exists self',
    update_contact contact_id updates self
    = (Raised (KeyError "customFields"), self')
    /\ stored self' contact_id
       = Some (match u_tags updates with
               | Some tags => set_tags c tags
               | None => c
               end).
Proof.
  intros Hf Hperm Hm Hs Hnone.
  assert (Hperm' : permitted "write"
                     (dict_keys (or_empty_dict (u_customFields updates))))
    by now rewrite Hf.
  destruct (update_contact_permitted self contact_id updates c Hperm' Hm Hs)
    as (self' & _ & Hcase).
  rewrite Hf, Hnone in Hcase. destruct Hcase as [Hrun Hcs].
  exists self'. split; [assumption |]. unfold stored. rewrite Hcs.
  destruct (u_tags updates) as [tags |]; [| exact Hs].
  pose proof (stored_id _ _ _ Hs) as Hid.
  change contact_id with (id contact_id). unfold id.
  rewrite <- Hid. change (c_id c) with (c_id (set_tags c tags)).
  apply find_replace_first with c. simpl. rewrite Hid. exact Hs.
Qed.

Lemma update_contact_without_customFields_witness :
  let bare := mkContact "c7" None (Some "Kim") None None None (Some [ "goods" ]) None in
  exists self',
    update_contact "c7"
      (mkUpdates (Some [ "goods"; "vip" ]) (Some [ ("stories_count", VInt 1) ]))
      (mkTool true [ bare ] [])
    = (Raised (KeyError "customFields"), self')
    /\ stored self' "c7" = Some (set_tags bare [ "goods"; "vip" ]).
Proof.
  intros bare.
  apply (update_contact_without_customFields (mkTool true [ bare ] []) "c7"
           (mkUpdates (Some [ "goods"; "vip" ]) (Some [ ("stories_count", VInt 1) ]))
           [ ("stories_count", VInt 1) ] bare);
    try reflexivity.
  intros f [<- | []]. reflexivity.
Defined.

(* ================================================================== *)
(** * Removing tags *)
(* ================================================================== *)

Section Tags.

Lemma list_remove_absent (x : string) (xs : list string) :
  ~ In x xs -> list_remove x xs = xs.
Proof.
  induction xs as [| y xs IH]; simpl; [reflexivity |].
  intros Hn. destruct (y =? x) eqn:E.
  - apply String.eqb_eq in E. elim Hn. now left.
  - rewrite IH; [reflexivity | tauto].
Qed.

Lemma list_remove_appended (x : string) (xs : list string) :
  ~ In x xs -> list_remove x (xs ++ [x]) = xs.
Proof.
  induction xs as [| y xs IH]; simpl.
  - now rewrite String.eqb_refl.
  - intros Hn. destruct (y =? x) eqn:E.
    + apply String.eqb_eq in E. elim Hn. now left.
    + rewrite IH; [reflexivity | tauto].
Qed.

Lemma occurrences_list_remove (x y : string) (xs : list string) :
  occurrences y (list_remove x xs)
  = if string_dec x y then Nat.pred (occurrences y xs) else occurrences y xs.
Proof.
  unfold occurrences. induction xs as [| z xs IH]; simpl.
  - now destruct (string_dec x y).
  - destruct (z =? x) eqn:E.
    + apply String.eqb_eq in E. subst z.
      destruct (string_dec x y); reflexivity.
    + apply String.eqb_neq in E. simpl.
      destruct (string_dec z y) as [-> | Hzy].
      * destruct (string_dec x y) as [-> | _]; [now elim E |].
        now rewrite IH; destruct (string_dec x y).
      * exact IH.
Qed.

(** [remove_tag] on a stored id returns the contact without the first
    occurrence of the tag and stores it. *)
Lemma remove_tag_found (self : tool) (contact_id tag : string) (c : Contact) :
  mock_mode self = true -> stored self contact_id = Some c ->
  exists self',
    remove_tag contact_id tag self = (Returned (untagged tag c), self')
    /\ mock_mode self' = true
    /\ stored self' contact_id = Some (untagged tag c)
    /\ (str_in_list tag (get_tags c) = false ->
        mock_contacts self' = mock_contacts self).
Proof.
  intros Hm Hs. unfold remove_tag, untagged.
  rewrite (bind_returned _ _ _ _ _ (get_contact_found _ _ _ Hm Hs)).
  pose proof (stored_id _ _ _ Hs) as Hid.
  destruct (str_in_list tag (get_tags c)) eqn:Ein.
  - cbv zeta. set (c1 := set_tags c (list_remove tag (get_tags c))).
    assert (Hid1 : c_id c1 = contact_id) by exact Hid.
    destruct (c_tags c) as [ts |] eqn:Et.
    + rewrite (bind_returned (assign c1) _ _
                 (assigned c1 (logged "WARNING" c self)) c1 eq_refl).
      assert (Hs1 : stored (assigned c1 (logged "WARNING" c self)) contact_id
                    = Some c1).
      { apply stored_assigned with c; [now rewrite stored_logged | assumption]. }
      assert (Hm1 : mock_mode (assigned c1 (logged "WARNING" c self)) = true)
        by now rewrite assigned_mode, logged_mode.
      rewrite (update_tags_found _ _ c1 _ Hm1 Hs1).
      eexists. split; [reflexivity |].
      split; [now rewrite logged_mode, assigned_mode, logged_mode |].
      split; [| discriminate].
      rewrite stored_logged.
      apply stored_assigned with c1; [now rewrite stored_logged | assumption].
    + unfold get_tags in Ein. rewrite Et in Ein. discriminate Ein.
  - eexists. split; [reflexivity |].
    rewrite logged_mode, stored_logged, logged_contacts. auto.
Qed.

End Tags.

(** X10. On a stored contact [remove_tag] takes out one occurrence of the
    tag, the first, and nothing else: the tag then occurs once less (not
    at all less when it was absent), every other tag occurs as often as
    before, and the record returned is the record stored. *)
Theorem remove_tag_removes_first_occurrence
    (self : tool) (contact_id tag : string) (c : Contact) :
  fst (get_contact contact_id self) = Returned c ->
  exists record self',
    remove_tag contact_id tag self = (Returned record, self')
    /\ stored self' contact_id = Some record
    /\ get_tags record = list_remove tag (get_tags c)
    /\ occurrences tag (get_tags record) = Nat.pred (occurrences tag (get_tags c))
    /\ (forall other, other <> tag ->
          occurrences other (get_tags record) = occurrences other (get_tags c)).
Proof.
  intros Hget. apply get_contact_returned in Hget. destruct Hget as [Hm Hs].
  destruct (remove_tag_found self contact_id tag c Hm Hs)
    as (self' & Hrun & _ & Hs' & _).
  assert (Htags : get_tags (untagged tag c) = list_remove tag (get_tags c)).
  { unfold untagged. destruct (str_in_list tag (get_tags c)) eqn:E;
      [reflexivity |].
    apply str_in_list_not_In in E. now rewrite list_remove_absent. }
  exists (untagged tag c), self'. repeat split; try assumption.
  - rewrite Htags, occurrences_list_remove.
    destruct (string_dec tag tag) as [_ | Hne]; [reflexivity | now elim Hne].
  - intros other Hne. rewrite Htags, occurrences_list_remove.
    destruct (string_dec tag other) as [<- | _]; [now elim Hne | reflexivity].
Qed.

Lemma remove_tag_removes_first_occurrence_witness :
  exists c record self',
    stored fresh_tool "contact_005" = Some c
    /\ remove_tag "contact_005" "role:volunteer" fresh_tool
       = (Returned record, self')
    /\ stored self' "contact_005" = Some record
    /\ get_tags record = list_remove "role:volunteer" (get_tags c)
    /\ occurrences "role:volunteer" (get_tags record)
       = Nat.pred (occurrences "role:volunteer" (get_tags c))
    /\ (forall other, other <> "role:volunteer" ->
          occurrences other (get_tags record) = occurrences other (get_tags c)).
Proof.
  eexists.
  destruct (remove_tag_removes_first_occurrence fresh_tool "contact_005"
              "role:volunteer" _ eq_refl) as (record & self' & H).
  exists record, self'. split; [reflexivity | exact H].
Defined.

(** X11. Adding a tag that a stored contact lacks and then removing it
    brings the tag list back to what it was; id, email, names, phone,
    company and [customFields] are as before as well. *)
Theorem add_then_remove_tag_round_trip
    (self : tool) (contact_id tag : string) (c : Contact) :
  fst (get_contact contact_id self) = Returned c ->
  ~ In tag (get_tags c) ->
  exists added s1 record s2,
    add_tag contact_id tag self = (Returned added, s1)
    /\ In tag (get_tags added)
    /\ remove_tag contact_id tag s1 = (Returned record, s2)
    /\ stored s2 contact_id = Some record
    /\ get_tags record = get_tags c
    /\ identity record = identity c
    /\ c_customFields record = c_customFields c.
Proof.
  intros Hget Habsent. apply get_contact_returned in Hget.
  destruct Hget as [Hm Hs].
  destruct (add_tag_found self contact_id tag c Hm Hs)
    as (s1 & Hrun1 & Hm1 & Hs1 & _).
  destruct (remove_tag_found s1 contact_id tag (tagged tag c) Hm1 Hs1)
    as (s2 & Hrun2 & _ & Hs2 & _).
  exists (tagged tag c), s1, (untagged tag (tagged tag c)), s2.
  split; [assumption |].
  split; [apply str_in_list_In, tagged_has_tag |].
  split; [assumption |]. split; [assumption |].
  unfold untagged. rewrite tagged_has_tag. unfold tagged.
  apply str_in_list_not_In in Habsent. rewrite Habsent.
  apply str_in_list_not_In in Habsent.
  cbn [get_tags set_tags c_tags].
  rewrite (list_remove_appended tag _ Habsent).
  repeat split.
Qed.

Lemma add_then_remove_tag_round_trip_witness :
  exists c added s1 record s2,
    stored fresh_tool "contact_004" = Some c
    /\ add_tag "contact_004" "vip" fresh_tool = (Returned added, s1)
    /\ In "vip" (get_tags added)
    /\ remove_tag "contact_004" "vip" s1 = (Returned record, s2)
    /\ stored s2 "contact_004" = Some record
    /\ get_tags record = get_tags c
    /\ identity record = identity c
    /\ c_customFields record = c_customFields c.
Proof.
  eexists.
  destruct (add_then_remove_tag_round_trip fresh_tool "contact_004" "vip" _
              eq_refl
              ltac:(simpl; intros H;
                    repeat (destruct H as [H | H]; [discriminate H |]); exact H))
    as (added & s1 & record & s2 & H).
  exists added, s1, record, s2. split; [reflexivity | exact H].
Defined.

(* ================================================================== *)
(** * More on searching *)
(* ================================================================== *)

Section Filters.

Lemma filter_twice {A : Type} (p q : A -> bool) (l : list A) :
  filter q (filter p l) = filter (fun x => p x && q x) l.
Proof.
  induction l as [| x l IH]; simpl; [reflexivity |].
  destruct (p x); simpl; [destruct (q x) |]; now rewrite IH.
Qed.

(** A comprehension that returns has kept the elements its test accepts. *)
Lemma filter_raising_returned {A : Type} (p : A -> outcome bool)
    (cs r : list A) :
  filter_raising p cs = Returned r ->
  r = filter (fun c => match p c with Returned b => b | Raised _ => false end) cs
  /\ forall c, In c cs -> exists b, p c = Returned b.
Proof.
  revert r. induction cs as [| c cs IH]; simpl; intros r.
  - intros H. injection H as <-. split; [reflexivity | intros c []].
  - destruct (p c) as [b | e] eqn:Ep; [| discriminate].
    destruct (filter_raising p cs) as [r' | e]; [| discriminate].
    intros H. injection H as <-. destruct (IH r' eq_refl) as [-> Hall].
    split; [reflexivity |].
    intros c' [<- | Hin]; [eauto | now apply Hall].
Qed.


Lemma gte_test_outcome (field : string) (bound : pyval) (c : Contact) :
  gte_test field bound c
  = match py_ge (match field_value field c with
                 | Some v => v
                 | None => VInt 0
                 end) bound with
    | Some b => Returned b
    | None => Raised TypeError
    end.
Proof. reflexivity. Qed.

(** One condition that returns has kept exactly the contacts that pass. *)
Lemma apply_condition_returned
    (field : string) (condition : dict pyval) (results r : list Contact) :
  apply_condition field condition results = Returned r ->
  (exists keep, r = filter keep results)
  /\ forall c, In c r <-> In c results /\ condition_holds field condition c.
Proof.
  unfold apply_condition, condition_holds.
  destruct (dict_get "$gte" condition) as [bound |].
  - intros H. apply filter_raising_returned in H. destruct H as [-> Hall].
    split; [eauto |]. intros c. rewrite filter_In, gte_test_outcome.
    split; intros [Hin Hc]; (split; [assumption |]).
    + destruct (py_ge _ bound) as [[] |]; congruence.
    + now rewrite Hc.
  - destruct (dict_get "$eq" condition) as [wanted |].
    + intros H. injection H as <-. split; [eauto |].
      intros c. rewrite filter_In. reflexivity.
    + destruct (dict_get "$exists" condition) as [wanted |].
      * intros H. injection H as <-. split; [eauto |].
        intros c. rewrite filter_In. reflexivity.
      * intros H. injection H as <-. split; [exists (fun _ => true) |].
        -- induction results as [| x l IH]; simpl; congruence.
        -- intros c. tauto.
Qed.

Lemma apply_conditions_returned
    (items : dict (dict pyval)) (results r : list Contact) :
  apply_conditions items results = Returned r ->
  (exists keep, r = filter keep results)
  /\ forall c,
       In c r
       <-> In c results
           /\ forall field condition,
                In (field, condition) items -> condition_holds field condition c.
Proof.
  revert results. induction items as [| [field condition] items IH];
    simpl; intros results.
  - intros H. injection H as <-. split.
    + exists (fun _ => true).
      induction results as [| x l IHl]; simpl; congruence.
    + intros c. split; [intros Hin; split; [assumption | intros ? ? []] | tauto].
  - destruct (apply_condition field condition results) as [r1 | e] eqn:E1;
      [| discriminate].
    intros H. apply IH in H. destruct H as [[keep2 ->] Hiff].
    apply apply_condition_returned in E1. destruct E1 as [[keep1 ->] Hiff1].
    split; [rewrite filter_twice; eauto |].
    intros c. rewrite Hiff, Hiff1. split.
    + intros [[Hin Hc] Hrest]. split; [assumption |].
      intros f cond [Heq | Hin']; [injection Heq as <- <-; assumption |].
      now apply Hrest.
    + intros [Hin Hall]. split; [split; [assumption |] |].
      * apply Hall. now left.
      * intros f cond Hin'. apply Hall. now right.
Qed.

(** The conditions raise nothing but [TypeError]. *)
Lemma apply_conditions_raised
    (items : dict (dict pyval)) (results : list Contact) (e : exn) :
  apply_conditions items results = Raised e -> e = TypeError.
Proof.
  revert results. induction items as [| [field condition] items IH];
    simpl; intros results; [discriminate |].
  destruct (apply_condition field condition results) as [r1 | e1] eqn:E1.
  - apply IH.
  - intros H. injection H as <-. unfold apply_condition in E1.
    destruct (dict_get "$gte" condition) as [bound |].
    + clear IH. induction results as [| c cs IHc]; simpl in E1; [discriminate |].
      unfold gte_test at 1 in E1.
      destruct (py_ge _ bound) as [b |]; [| now injection E1 as <-].
      destruct (filter_raising (gte_test field bound) cs) as [r | e'];
        [discriminate |].
      injection E1 as <-. now apply IHc.
    + destruct (dict_get "$eq" condition); [discriminate |].
      destruct (dict_get "$exists" condition); discriminate.
Qed.

Lemma has_any_tag_existsb (wanted : list string) (c : Contact) :
  existsb (fun tag => str_in_list tag (get_tags c)) wanted = true
  <-> has_any_tag wanted c.
Proof.
  unfold has_any_tag. rewrite existsb_exists.
  split; intros (tag & Hin & H); exists tag; (split; [assumption |]);
    now apply str_in_list_In.
Qed.

End Filters.

(** X12. [search_contacts] only reads: whatever the filters and the
    outcome, the instance is left as it was; and when it returns, the
    records are stored contacts in store order, a filter of the store. *)
Theorem search_contacts_only_reads (self : tool) (filters : option Filters) :
  snd (search_contacts filters self) = self
  /\ forall rs,
       fst (search_contacts filters self) = Returned rs ->
       mock_mode self = true
       /\ exists keep, rs = filter keep (mock_contacts self).
Proof.
  unfold search_contacts.
  set (fs := match filters with Some f => f | None => mkFilters None None end).
  destruct (policy_loop_outcome "read"
              (dict_keys (or_empty_dict (f_customFieldFilters fs))) self)
    as [Hrun | (f & v & _ & _ & Hrun)].
  2: { rewrite (bind_raised _ _ _ _ _ Hrun). split; [reflexivity | discriminate]. }
  rewrite (bind_returned _ _ _ _ _ Hrun).
  rewrite (bind_returned get_self _ self self self eq_refl).
  destruct (mock_mode self); [| split; [reflexivity | discriminate]].
  set (tagged_results :=
         match f_tags fs with
         | Some (tag0 :: tags') =>
             filter (fun c => existsb (fun tag => str_in_list tag (get_tags c))
                                (tag0 :: tags')) (mock_contacts self)
         | _ => mock_contacts self
         end).
  assert (Htag : exists keep, tagged_results = filter keep (mock_contacts self)).
  { unfold tagged_results. destruct (f_tags fs) as [[| t ts] |]; eauto;
      exists (fun _ => true);
      induction (mock_contacts self) as [| x l IH]; simpl; congruence. }
  destruct Htag as [keep0 Htag].
  destruct (f_customFieldFilters fs) as [items |].
  - unfold lift. split; [reflexivity |]. cbn [fst]. intros rs Hrs.
    split; [reflexivity |].
    apply apply_conditions_returned in Hrs. destruct Hrs as [[keep ->] _].
    rewrite Htag, filter_twice. eauto.
  - split; [reflexivity |]. cbn [fst ret]. intros rs Hrs.
    injection Hrs as <-. split; [reflexivity | eauto].
Qed.

(** X13. [search_contacts] raises a [PermissionError] exactly when one of
    the field names in [customFieldFilters] is blocked: read-only and
    unregistered fields may be searched, and no other cause raises it. *)
Theorem search_contacts_refuses_iff_blocked (self : tool) (filters : Filters) :
  (exists v, fst (search_contacts (Some filters) self)
             = Raised (PermissionError v))
  <-> exists field,
        In field (dict_keys (or_empty_dict (f_customFieldFilters filters)))
        /\ In field BLOCKED_FIELDS.
Proof.
  unfold search_contacts.
  destruct (policy_loop_outcome "read"
              (dict_keys (or_empty_dict (f_customFieldFilters filters))) self)
    as [Hrun | (f & v & Hin & Hv & Hrun)].
  - pose proof (policy_loop_returned _ _ _ Hrun) as Hperm.
    rewrite (bind_returned _ _ _ _ _ Hrun).
    rewrite (bind_returned get_self _ self self self eq_refl).
    split.
    + intros [v Hv]. exfalso.
      destruct (mock_mode self); [| discriminate].
      destruct (f_customFieldFilters filters) as [items |]; [| discriminate].
      unfold lift in Hv. cbn [fst] in Hv.
      apply apply_conditions_raised in Hv. discriminate.
    + intros (field & Hin & Hb). exfalso.
      specialize (Hperm field Hin).
      apply check_returned_open in Hperm. now destruct Hperm.
  - rewrite (bind_raised _ _ _ _ _ Hrun). split.
    + intros _. exists f. split; [assumption |].
      now destruct (read_refusal_is_blocked _ _ Hv).
    + intros _. now exists v.
Qed.

(** X14. When [search_contacts] returns, a contact is among the records
    exactly when it is stored, carries at least one of the requested tags
    (a missing or empty tag list asks for nothing) and passes every field
    condition: the conditions are a conjunction. *)
Theorem search_contacts_members
    (self : tool) (filters : Filters) (rs : list Contact) :
  fst (search_contacts (Some filters) self) = Returned rs ->
  forall c,
    In c rs
    <-> In c (mock_contacts self)
        /\ match f_tags filters with
           | Some (tag :: tags) => has_any_tag (tag :: tags) c
           | _ => True
           end
        /\ forall field condition,
             In (field, condition) (or_empty_dict (f_customFieldFilters filters)) ->
             condition_holds field condition c.
Proof.
  unfold search_contacts.
  destruct (policy_loop_outcome "read"
              (dict_keys (or_empty_dict (f_customFieldFilters filters))) self)
    as [Hrun | (f & v & _ & _ & Hrun)].
  2: { rewrite (bind_raised _ _ _ _ _ Hrun). discriminate. }
  rewrite (bind_returned _ _ _ _ _ Hrun).
  rewrite (bind_returned get_self _ self self self eq_refl).
  destruct (mock_mode self); [| discriminate].
  set (tagged_results :=
         match f_tags filters with
         | Some (tag0 :: tags') =>
             filter (fun c => existsb (fun tag => str_in_list tag (get_tags c))
                                (tag0 :: tags')) (mock_contacts self)
         | _ => mock_contacts self
         end).
  assert (Htag : forall c,
             In c tagged_results
             <-> In c (mock_contacts self)
                 /\ match f_tags filters with
                    | Some (tag :: tags) => has_any_tag (tag :: tags) c
                    | _ => True
                    end).
  { intros c. unfold tagged_results.
    destruct (f_tags filters) as [[| t ts] |]; try tauto.
    rewrite filter_In, has_any_tag_existsb. reflexivity. }
  destruct (f_customFieldFilters filters) as [items |].
  - unfold lift. cbn [fst or_empty_dict]. intros Hrs c.
    apply apply_conditions_returned in Hrs. destruct Hrs as [_ Hiff].
    rewrite Hiff, Htag. tauto.
  - cbn [fst ret or_empty_dict]. intros Hrs c. injection Hrs as <-.
    rewrite Htag. split; [intros [H1 H2]; repeat split; auto; intros ? ? [] | tauto].
Qed.

Lemma search_contacts_members_witness :
  exists rs,
    fst (search_contacts
           (Some (mkFilters (Some [ "empathy-ledger" ])
                    (Some [ ("stories_count", [ ("$gte", VInt 3) ]);
                            ("supabase_user_id", [ ("$exists", VBool true) ]) ])))
           fresh_tool) = Returned rs
    /\ map c_id rs = [ "contact_001"; "contact_003" ]
    /\ forall c,
         In c rs
         <-> In c (mock_contacts fresh_tool)
             /\ has_any_tag [ "empathy-ledger" ] c
             /\ forall field condition,
                  In (field, condition)
                     [ ("stories_count", [ ("$gte", VInt 3) ]);
                       ("supabase_user_id", [ ("$exists", VBool true) ]) ] ->
                  condition_holds field condition c.
Proof.
  eexists. split; [vm_compute; reflexivity |]. split; [reflexivity |].
  apply (search_contacts_members fresh_tool
           (mkFilters (Some [ "empathy-ledger" ])
              (Some [ ("stories_count", [ ("$gte", VInt 3) ]);
                      ("supabase_user_id", [ ("$exists", VBool true) ]) ]))).
  vm_compute. reflexivity.
Defined.




(* ================================================================== *)
(** * More on the review classifier *)
(* ================================================================== *)

Section Flags.

Lemma prefix_split (p s : string) :
  String.prefix p s = true -> exists post, s = (p ++ post)%string.
Proof.
  revert s. induction p as [| c p IH]; intros s.
  - intros _. now exists s.
  - destruct s as [| d s]; simpl; [discriminate |].
    destruct (ascii_dec c d) as [<- | _]; [| discriminate].
    intros H. destruct (IH s H) as [post ->]. now exists post.
Qed.

Lemma str_in_split (needle hay : string) :
  str_in needle hay = true ->
  exists pre post, hay = (pre ++ needle ++ post)%string.
Proof.
  induction hay as [| c hay IH]; rewrite str_in_unfold; intros H;
    apply orb_true_iff in H; destruct H as [H | H].
  - destruct (prefix_split _ _ H) as [post ->]. now exists EmptyString, post.
  - discriminate.
  - destruct (prefix_split _ _ H) as [post ->]. now exists EmptyString, post.
  - destruct (IH H) as (pre & post & ->). now exists (String c pre), post.
Qed.

Lemma lower_split (t a b : string) :
  lower t = (a ++ b)%string ->
  exists a' b', t = (a' ++ b')%string /\ lower a' = a /\ lower b' = b.
Proof.
  revert t. induction a as [| c a IH]; intros t; simpl.
  - intros H. now exists EmptyString, t.
  - destruct t as [| d t]; simpl; [discriminate |].
    intros H. injection H as Hc Ht.
    destruct (IH t Ht) as (a' & b' & -> & Ha & Hb).
    exists (String d a'), b'. simpl. now rewrite Hc, Ha.
Qed.

Lemma lower_char_cases (m : ascii) :
  m = lower_char m \/ m = upcase (lower_char m).
Proof.
  destruct m as [[] [] [] [] [] [] [] []]; vm_compute; auto.
Qed.

Lemma lower_same_letters (pat mid : string) :
  lower mid = pat -> same_letters pat mid.
Proof.
  revert pat. induction mid as [| m mid IH]; intros pat; simpl.
  - intros <-. constructor.
  - intros <-. destruct (lower_char_cases m) as [H | H].
    + rewrite <- H. constructor. now apply IH.
    + rewrite H at 2. constructor. now apply IH.
Qed.

(** What [needle in t.lower()] finds is an occurrence in any case. *)
Lemma found_contains_any_case (pat t : string) :
  str_in pat (lower t) = true -> contains_any_case pat t.
Proof.
  intros H. destruct (str_in_split _ _ H) as (pre & post & Hl).
  destruct (lower_split _ _ _ Hl) as (pre' & rest & -> & _ & Hrest).
  destruct (lower_split _ _ _ Hrest) as (mid & post' & -> & Hmid & _).
  exists pre', mid, post'. split; [reflexivity | now apply lower_same_letters].
Qed.

Lemma field_truthy_iff (k : string) (d : dict pyval) :
  field_truthy k d = true <-> exists v, dict_get k d = Some v /\ truthy v = true.
Proof.
  unfold field_truthy. destruct (dict_get k d) as [v |].
  - split; [eauto | now intros (v' & [= <-] & H)].
  - split; [discriminate | now intros (v' & H & _)].
Qed.

End Flags.

(** X16. The classifier asks for a review exactly when one of its four
    conditions holds: a tag containing 'elder' in any letter case, a true
    value under [elder_review_required], a tag starting with 'cultural:',
    or a true value under [sacred_knowledge]; nothing else in the contact
    raises the flag. *)
Theorem review_required_iff_rule_matches (contact : Contact) :
  requires_review (check_contact_cultural_protocols contact) = true
  <-> (exists tag, In tag (get_tags contact) /\ contains_any_case "elder" tag)
      \/ (exists v, field_value "elder_review_required" contact = Some v
                    /\ truthy v = true)
      \/ (exists tag, In tag (get_tags contact)
                      /\ startswith tag "cultural:" = true)
      \/ (exists v, field_value "sacred_knowledge" contact = Some v
                    /\ truthy v = true).
Proof.
  unfold field_value. rewrite <- !field_truthy_iff.
  assert (Helder :
            str_in_list "role:elder" (get_tags contact)
            || existsb (fun t => str_in "elder" (lower t)) (get_tags contact)
            = true
            <-> exists tag, In tag (get_tags contact)
                            /\ contains_any_case "elder" tag).
  { rewrite orb_true_iff, existsb_exists. split.
    - intros [H | (tag & Hin & H)].
      + apply str_in_list_In in H. exists "role:elder". split; [assumption |].
        now apply found_contains_any_case.
      + exists tag. split; [assumption | now apply found_contains_any_case].
    - intros (tag & Hin & H). right. exists tag. split; [assumption |].
      now apply contains_any_case_found. }
  assert (Hcult :
            filter (fun t => startswith t "cultural:") (get_tags contact) <> []
            <-> exists tag, In tag (get_tags contact)
                            /\ startswith tag "cultural:" = true).
  { split.
    - destruct (filter _ _) as [| t l] eqn:E; [intros H; now elim H |].
      intros _. exists t.
      apply (proj1 (filter_In (fun t => startswith t "cultural:") t
                      (get_tags contact))).
      rewrite E. now left.
    - intros (tag & Hin) E.
      apply (proj2 (filter_In (fun t => startswith t "cultural:") tag
                      (get_tags contact))) in Hin.
      now rewrite E in Hin. }
  rewrite <- Helder, <- Hcult.
  unfold check_contact_cultural_protocols.
  destruct (str_in_list "role:elder" (get_tags contact)
            || existsb (fun t => str_in "elder" (lower t)) (get_tags contact));
    destruct (field_truthy "elder_review_required" (get_customFields contact));
    destruct (filter (fun t => startswith t "cultural:") (get_tags contact));
    destruct (field_truthy "sacred_knowledge" (get_customFields contact));
    cbn; intuition congruence.
Qed.

(** X17. The entries of a check result agree with each other: a review
    is required exactly when some action is blocked, exactly when a
    reason is given and exactly when an action is recommended; and every
    blocked action is one of the seven action kinds. *)
Theorem check_result_is_consistent (contact : Contact) :
  let result := check_contact_cultural_protocols contact in
  (requires_review result = true <-> actions_blocked result <> [])
  /\ (requires_review result = true <-> reason result <> None)
  /\ (requires_review result = true <-> recommended_action result <> None)
  /\ incl (actions_blocked result) action_kinds.
Proof.
  unfold check_contact_cultural_protocols, incl, action_kinds.
  destruct (str_in_list "role:elder" (get_tags contact)
            || existsb (fun t => str_in "elder" (lower t)) (get_tags contact));
    destruct (field_truthy "elder_review_required" (get_customFields contact));
    destruct (filter (fun t => startswith t "cultural:") (get_tags contact));
    destruct (field_truthy "sacred_knowledge" (get_customFields contact));
    cbn; (repeat split); try congruence; try discriminate; tauto.
Qed.

(** X18. A true value under [sacred_knowledge] overrides everything else
    in the contact: the reason is the CRITICAL one, the recommendation is
    to escalate, and all seven action kinds, 'read', 'write' and 'delete'
    included, are blocked. *)
Theorem sacred_knowledge_blocks_everything (contact : Contact) (v : pyval) :
  field_value "sacred_knowledge" contact = Some v ->
  truthy v = true ->
  let result := check_contact_cultural_protocols contact in
  requires_review result = true
  /\ reason result = Some "CRITICAL: Sacred knowledge detected - FULL BLOCK"
  /\ recommended_action result
     = Some "IMMEDIATELY escalate to ACT Cultural Advisor"
  /\ incl action_kinds (actions_blocked result).
Proof.
  intros Hv Ht.
  assert (H : field_truthy "sacred_knowledge" (get_customFields contact) = true).
  { apply field_truthy_iff. eauto. }
  unfold check_contact_cultural_protocols, incl, action_kinds. rewrite H.
  destruct (str_in_list "role:elder" (get_tags contact)
            || existsb (fun t => str_in "elder" (lower t)) (get_tags contact));
    destruct (field_truthy "elder_review_required" (get_customFields contact));
    destruct (filter (fun t => startswith t "cultural:") (get_tags contact));
    cbn; (repeat split); intros a Ha; simpl in Ha; tauto.
Qed.

Lemma sacred_knowledge_blocks_everything_witness :
  let contact :=
    mkContact "c18" None (Some "Ann") None None None
              (Some [ "role:elder"; "cultural:kabi-kabi" ])
              (Some [ ("sacred_knowledge", VStr "song line") ]) in
  requires_review (check_contact_cultural_protocols contact) = true
  /\ reason (check_contact_cultural_protocols contact)
     = Some "CRITICAL: Sacred knowledge detected - FULL BLOCK"
  /\ recommended_action (check_contact_cultural_protocols contact)
     = Some "IMMEDIATELY escalate to ACT Cultural Advisor"
  /\ incl action_kinds
          (actions_blocked (check_contact_cultural_protocols contact)).
Proof.
  intros contact.
  apply (sacred_knowledge_blocks_everything contact (VStr "song line"));
    reflexivity.
Defined.

(* ================================================================== *)
(** * The classifier against the ordered rule list *)
(* ================================================================== *)

Section RuleOrder.

Lemma dict_get_binds (k : string) (v : pyval) (d : dict pyval) :
  dict_get k d = Some v <-> Rules.binds k v d.
Proof.
  induction d as [| [k' w] d IH]; cbn [dict_get].
  - split; [discriminate | intros H; inversion H].
  - destruct (k' =? k) eqn:E.
    + apply String.eqb_eq in E. subst k'. split.
      * intros [= ->]. constructor.
      * intros H. inversion H; subst; [reflexivity | congruence].
    + apply String.eqb_neq in E. rewrite IH. split.
      * intros H. now constructor.
      * intros H. inversion H; subst; [congruence | assumption].
Qed.

Lemma truthy_not_false (v : pyval) :
  truthy v = true <-> ~ Rules.false_value v.
Proof.
  unfold Rules.false_value. destruct v as [| [|] | z | s | [| x l]]; cbn.
  - split; [discriminate | intros H; elim H; tauto].
  - split; [intros _ [H | [H | [H | [H | H]]]]; discriminate H | reflexivity].
  - split; [discriminate | intros H; elim H; tauto].
  - destruct (Z.eqb_spec z 0) as [-> | Hz]; cbn.
    + split; [discriminate | intros H; elim H; tauto].
    + split; [| reflexivity].
      intros _ [H | [H | [H | [H | H]]]]; try discriminate H.
      injection H as ->. now apply Hz.
  - destruct (String.eqb_spec s "") as [-> | Hs]; cbn.
    + split; [discriminate | intros H; elim H; tauto].
    + split; [| reflexivity].
      intros _ [H | [H | [H | [H | H]]]]; try discriminate H.
      injection H as ->. now apply Hs.
  - split; [discriminate | intros H; elim H; tauto].
  - split; [intros _ [H | [H | [H | [H | H]]]]; discriminate H | reflexivity].
Qed.

Lemma field_truthy_holds (k : string) (c : Contact) :
  field_truthy k (get_customFields c) = true
  <-> exists v, Rules.holds k v c /\ ~ Rules.false_value v.
Proof.
  rewrite field_truthy_iff. unfold Rules.holds, get_customFields. split.
  - intros (v & Hget & Hv). exists v. split; [| now apply truthy_not_false].
    destruct (c_customFields c) as [fields |]; [| discriminate Hget].
    exists fields. split; [reflexivity | now apply dict_get_binds].
  - intros (v & (fields & -> & Hb) & Hv). exists v.
    split; [now apply dict_get_binds | now apply truthy_not_false].
Qed.

Lemma prefix_app_self (p rest : string) : String.prefix p (p ++ rest) = true.
Proof.
  induction p as [| a p IH]; cbn [append String.prefix].
  - now destruct rest.
  - destruct (ascii_dec a a) as [_ | Hne]; [exact IH | now elim Hne].
Qed.

Lemma startswith_in_namespace (namespace tag : string) :
  startswith tag namespace = true <-> Rules.in_namespace namespace tag.
Proof.
  unfold startswith, Rules.in_namespace. split.
  - apply prefix_split.
  - intros (rest & ->). apply prefix_app_self.
Qed.

(** Each [if] of the classifier tests the rule it stands for. *)
Lemma rule_test_matches (r : Rules.name) (c : Contact) :
  rule_test r c = true <-> Rules.matches r c.
Proof.
  destruct r; cbn [rule_test Rules.matches].
  - change (Rules.tags_of c) with (get_tags c).
    rewrite orb_true_iff, existsb_exists. split.
    + intros [H | (tag & Hin & H)].
      * apply str_in_list_In in H. exists "role:elder". split; [assumption |].
        now apply found_contains_any_case.
      * exists tag. split; [assumption | now apply found_contains_any_case].
    + intros (tag & Hin & H). right. exists tag. split; [assumption |].
      now apply contains_any_case_found.
  - apply field_truthy_holds.
  - change (Rules.tags_of c) with (get_tags c). split.
    + destruct (filter _ _) as [| t l] eqn:E; [discriminate |].
      intros _. exists t.
      assert (Hin : In t (filter (fun t => startswith t "cultural:")
                            (get_tags c))) by (rewrite E; now left).
      apply filter_In in Hin. destruct Hin as [Hin Hs].
      split; [assumption | now apply startswith_in_namespace].
    + intros (tag & Hin & Hns). apply startswith_in_namespace in Hns.
      assert (Hf : In tag (filter (fun t => startswith t "cultural:")
                             (get_tags c))) by (apply filter_In; now split).
      destruct (filter _ _); [elim Hf | reflexivity].
  - apply field_truthy_holds.
Qed.

(** The rules a test function accepts are the rules selected. *)
Lemma selects_tested (M : Rules.name -> Contact -> Prop) (c : Contact)
    (test : Rules.name -> bool) (rs : list Rules.name) :
  (forall r, test r = true <-> M r c) ->
  Rules.selects M c rs (filter test rs).
Proof.
  intros Htest. induction rs as [| r rs IH]; cbn [filter]; [constructor |].
  destruct (test r) eqn:E.
  - apply Rules.selects_match; [now apply Htest | exact IH].
  - apply Rules.selects_skip; [| exact IH].
    intros H. apply Htest in H. congruence.
Qed.

(** The selection is determined by the record. *)
Lemma selects_functional (M : Rules.name -> Contact -> Prop) (c : Contact)
    (rs m1 m2 : list Rules.name) :
  Rules.selects M c rs m1 -> Rules.selects M c rs m2 -> m1 = m2.
Proof.
  intros H1. revert m2. induction H1 as [| r rs m Hr _ IH | r rs m Hr _ IH];
    intros m2 H2; inversion H2; subst;
    try reflexivity; try contradiction; [f_equal |]; now apply IH.
Qed.

Lemma listing_join (tags : list string) : Rules.listing tags = join ", " tags.
Proof.
  unfold join. induction tags as [| t [| u l] IH]; try reflexivity.
  cbn [Rules.listing String.concat] in *. now rewrite IH.
Qed.

(** The four [if] statements compute the fold of the rules whose tests
    pass, taken in the fixed order. *)
Lemma classifier_folds_tests (contact : Contact) :
  let result := check_contact_cultural_protocols contact in
  let passed := filter (fun r => rule_test r contact) Rules.order in
  requires_review result = negb (Rules.is_empty passed)
  /\ reason result
     = option_map (fun r => Rules.e_reason (Rules.effect_of r contact))
         (Rules.last_of passed)
  /\ recommended_action result
     = option_map (fun r => Rules.e_recommended (Rules.effect_of r contact))
         (Rules.last_of passed)
  /\ actions_blocked result
     = concat (map (fun r => Rules.e_actions (Rules.effect_of r contact)) passed).
Proof.
  cbv zeta.
  unfold check_contact_cultural_protocols, Rules.order.
  cbn [filter rule_test].
  assert (Hlist :
            ("Contact has cultural tags: "
             ++ join ", " (filter (fun t => startswith t "cultural:")
                             (get_tags contact)))%string
            = Rules.e_reason (Rules.effect_of Rules.CulturalTag contact)).
  { cbn [Rules.effect_of Rules.e_reason]. now rewrite listing_join. }
  revert Hlist.
  destruct (str_in_list "role:elder" (get_tags contact)
            || existsb (fun t => str_in "elder" (lower t)) (get_tags contact));
    destruct (field_truthy "elder_review_required" (get_customFields contact));
    destruct (filter (fun t => startswith t "cultural:") (get_tags contact));
    destruct (field_truthy "sacred_knowledge" (get_customFields contact));
    intros Hlist;
    cbn [Rules.is_empty negb Rules.last_of option_map map concat app
         requires_review reason recommended_action actions_blocked];
    try rewrite <- Hlist;
    repeat split; reflexivity.
Qed.

End RuleOrder.

(** C4 (as the code has it). The review classifier evaluates its four
    rules in the fixed order (a) elder-role tag, (b) a true value under
    [elder_review_required], (c) tags in the [cultural:] namespace, (d) a
    true value under [sacred_knowledge]: with [matched] the rules that
    match the record, in that order, a review is required when some rule
    matched, [reason] and [recommended_action] are those of the last rule
    that matched (absent when none did), and [actions_blocked] is the
    concatenation, hence as a set the union, of the action lists of all
    the rules that matched. *)
Theorem classifier_last_rule_wins_actions_accumulate (contact : Contact) :
  let result := check_contact_cultural_protocols contact in
  exists matched : list Rules.name,
    Rules.selects Rules.matches contact Rules.order matched
    /\ requires_review result = negb (Rules.is_empty matched)
    /\ reason result
       = option_map (fun r => Rules.e_reason (Rules.effect_of r contact))
           (Rules.last_of matched)
    /\ recommended_action result
       = option_map (fun r => Rules.e_recommended (Rules.effect_of r contact))
           (Rules.last_of matched)
    /\ actions_blocked result
       = concat (map (fun r => Rules.e_actions (Rules.effect_of r contact))
                   matched)
    /\ (forall action : string,
          In action (actions_blocked result)
          <-> exists r, In r matched
                        /\ In action (Rules.e_actions (Rules.effect_of r contact))).
Proof.
  intros result.
  destruct (classifier_folds_tests contact) as (Hreq & Hreason & Hrec & Hact).
  exists (filter (fun r => rule_test r contact) Rules.order).
  split; [apply selects_tested; intros r; apply rule_test_matches |].
  repeat split; try assumption.
  - subst result. rewrite Hact. intros Hin.
    apply in_concat in Hin. destruct Hin as (acts & Hacts & Hin).
    apply in_map_iff in Hacts. destruct Hacts as (r & <- & Hr). eauto.
  - subst result. rewrite Hact. intros (r & Hr & Hin).
    apply in_concat. exists (Rules.e_actions (Rules.effect_of r contact)).
    split; [| assumption].
    now apply (in_map (fun r => Rules.e_actions (Rules.effect_of r contact))).
Qed.

(** C4 as worded fails. With rule (d) read as 'the field
    [sacred_knowledge] is present', a record tagged 'cultural:kabi-kabi'
    that holds [sacred_knowledge] = [False] matches rules (c) and (d), so
    the reason of (d) should win and 'read' should be blocked; the
    classifier gives the reason of (c) and blocks 'bulk_operations' only. *)
Lemma sacred_knowledge_present_but_false_not_matched :
  let contact :=
    mkContact "contact_006" None (Some "Ann") None None None
              (Some [ "cultural:kabi-kabi" ])
              (Some [ ("sacred_knowledge", VBool false) ]) in
  let result := check_contact_cultural_protocols contact in
  Rules.holds "sacred_knowledge" (VBool false) contact
  /\ Rules.selects Rules.matches_as_worded contact Rules.order
       [ Rules.CulturalTag; Rules.CriticalField ]
  /\ reason result = Some "Contact has cultural tags: cultural:kabi-kabi"
  /\ actions_blocked result = [ "bulk_operations" ]
  /\ ~ (exists matched : list Rules.name,
          Rules.selects Rules.matches_as_worded contact Rules.order matched
          /\ reason result
             = option_map (fun r => Rules.e_reason (Rules.effect_of r contact))
                 (Rules.last_of matched)
          /\ actions_blocked result
             = concat (map (fun r => Rules.e_actions (Rules.effect_of r contact))
                         matched)).
Proof.
  intros contact result.
  assert (Hholds : Rules.holds "sacred_knowledge" (VBool false) contact).
  { exists [ ("sacred_knowledge", VBool false) ].
    split; [reflexivity | constructor]. }
  assert (Hsel : Rules.selects Rules.matches_as_worded contact Rules.order
                   [ Rules.CulturalTag; Rules.CriticalField ]).
  { unfold Rules.order.
    apply Rules.selects_skip.
    { intros H. apply (rule_test_matches Rules.ElderTag) in H.
      vm_compute in H. discriminate H. }
    apply Rules.selects_skip.
    { intros H. apply (rule_test_matches Rules.ReviewFlag) in H.
      vm_compute in H. discriminate H. }
    apply Rules.selects_match.
    { apply (rule_test_matches Rules.CulturalTag). reflexivity. }
    apply Rules.selects_match.
    { exists (VBool false). exact Hholds. }
    apply Rules.selects_nil. }
  split; [exact Hholds |]. split; [exact Hsel |].
  split; [reflexivity |]. split; [reflexivity |].
  intros (matched & Hm & Hreason & _).
  rewrite (selects_functional _ _ _ _ _ Hm Hsel) in Hreason.
  vm_compute in Hreason. discriminate Hreason.
Qed.

(* ================================================================== *)
(** * The dispatcher *)
(* ================================================================== *)

(** X19. [execute] with an action that is none of 'search', 'get',
    'update', 'add_tag', 'remove_tag' never returns and leaves the
    instance as it was. A keyword named 'self' or 'action' gives that
    parameter a second value and the call is a [TypeError]; with any
    other keywords the body raises [ValueError] naming the action and the
    five available ones. *)
Theorem execute_unknown_action (self : tool) (action : string) (kwargs : Kwargs) :
  ~ In action [ "search"; "get"; "update"; "add_tag"; "remove_tag" ] ->
  (In "self" (k_others kwargs) \/ In "action" (k_others kwargs) ->
   execute action kwargs self = (Raised TypeError, self))
  /\ (~ In "self" (k_others kwargs) ->
      ~ In "action" (k_others kwargs) ->
      execute action kwargs self
      = (Raised (ValueError
                   ("Unknown action: " ++ action
                    ++ ". Available: ['search', 'get', 'update', 'add_tag', 'remove_tag']")%string),
         self)).
Proof.
  intros Hn. unfold execute. apply str_in_list_not_In in Hn. split.
  - rewrite <- !str_in_list_In, <- orb_true_iff. now intros ->.
  - intros Hself Haction.
    apply str_in_list_not_In in Hself. apply str_in_list_not_In in Haction.
    now rewrite Hself, Haction, Hn.
Qed.

Lemma execute_unknown_action_witness :
  execute "delete"
    (mkKwargs None (Some "contact_001") None None [ "force" ]) fresh_tool
  = (Raised (ValueError
               "Unknown action: delete. Available: ['search', 'get', 'update', 'add_tag', 'remove_tag']"),
     fresh_tool)
  /\ execute "delete"
       (mkKwargs None (Some "contact_001") None None [ "action" ]) fresh_tool
     = (Raised TypeError, fresh_tool).
Proof.
  assert (Hn : ~ In "delete"
                 [ "search"; "get"; "update"; "add_tag"; "remove_tag" ]).
  { simpl. intros H.
    repeat (destruct H as [H | H]; [discriminate H |]). exact H. }
  split.
  - apply (execute_unknown_action fresh_tool "delete"
             (mkKwargs None (Some "contact_001") None None [ "force" ]) Hn);
      simpl; intros [H | []]; discriminate H.
  - apply (execute_unknown_action fresh_tool "delete"
             (mkKwargs None (Some "contact_001") None None [ "action" ]) Hn).
    right. simpl. now left.
Defined.

(** X20. The dispatcher does not get around the policy: an 'update' whose
    fields include a refused one, and a 'search' whose conditions name a
    blocked field, raise the same [PermissionError] through [execute] as
    through the methods, on every instance and without changing it. *)
Theorem execute_keeps_the_gate (field : string) :
  (forall contact_id updates fields,
     u_customFields updates = Some fields ->
     In field (dict_keys fields) ->
     check_cultural_protocol field "write" None <> Returned tt ->
     exists v,
       forall self,
         execute "update"
           (mkKwargs None (Some contact_id) (Some updates) None []) self
         = (Raised (PermissionError v), self))
  /\ (forall filters items,
        f_customFieldFilters filters = Some items ->
        In field (dict_keys items) ->
        In field BLOCKED_FIELDS ->
        exists v,
          forall self,
            execute "search"
              (mkKwargs (Some (Some filters)) None None None []) self
            = (Raised (PermissionError v), self)).
Proof.
  split.
  - intros contact_id updates fields Hf Hin Hfail.
    destruct (update_contact_gate _ _ _ Hf Hin Hfail) as (f & v & _ & _ & Hrun).
    exists v. intros self. unfold execute. cbn.
    now rewrite (bind_raised _ _ _ _ _ (Hrun self contact_id)).
  - intros filters items Hitems Hin Hblocked.
    assert (Hfail : check_cultural_protocol field "read" None <> Returned tt).
    { intros H. apply check_returned_open in H. now destruct H. }
    destruct (policy_loop_refuses "read" _ _ Hin Hfail)
      as (f & v & _ & _ & Hrun).
    exists v. intros self. unfold execute. cbn.
    unfold search_contacts. rewrite Hitems. cbn [or_empty_dict].
    now rewrite (bind_raised _ _ _ _ _ (bind_raised _ _ _ _ _ (Hrun self))).
Qed.

Lemma execute_keeps_the_gate_witness :
  exists v,
    forall self,
      execute "update"
        (mkKwargs None (Some "contact_003")
           (Some (mkUpdates None (Some [ ("elder_consent", VStr "yes") ])))
           None []) self
      = (Raised (PermissionError v), self).
Proof.
  destruct (execute_keeps_the_gate "elder_consent") as [Hupdate _].
  apply (Hupdate "contact_003"
           (mkUpdates None (Some [ ("elder_consent", VStr "yes") ]))
           [ ("elder_consent", VStr "yes") ]).
  - reflexivity.
  - simpl. tauto.
  - vm_compute. discriminate.
Defined.

(* ================================================================== *)
(** * Handoffs of the connector agent *)
(* ================================================================== *)

Section Handoffs.

Import ConnectorAgent.

(** Tagging only appends. *)
Lemma tagged_extends (tag : string) (c : Contact) :
  identity (tagged tag c) = identity c
  /\ c_customFields (tagged tag c) = c_customFields c
  /\ exists added, get_tags (tagged tag c) = get_tags c ++ added.
Proof.
  unfold tagged. destruct (str_in_list tag (get_tags c)).
  - repeat split. exists []. now rewrite app_nil_r.
  - repeat split. now exists [tag].
Qed.

Lemma tagged_keeps (tag x : string) (c : Contact) :
  In x (get_tags c) -> In x (get_tags (tagged tag c)).
Proof.
  intros Hin. destruct (tagged_extends tag c) as (_ & _ & added & ->).
  apply in_or_app. now left.
Qed.

(** [create_handoff] on a stored id, in mock mode. *)
Lemma create_handoff_found
    (self : tool) (contact_id target reason : string) (priority : Z)
    (c : Contact) :
  mock_mode self = true -> stored self contact_id = Some c ->
  exists self',
    create_handoff contact_id target reason priority self
    = (Returned
         (mkHandoff contact_id
            (strip (or_empty (c_firstName c) ++ " " ++ or_empty (c_lastName c)))
            target reason priority ("opportunity:" ++ target) true),
       self')
    /\ mock_mode self' = true
    /\ stored self' contact_id
       = Some (tagged ("priority:" ++ priority_word priority)
                 (tagged ("opportunity:" ++ target) c)).
Proof.
  intros Hm Hs. unfold create_handoff.
  rewrite (bind_returned _ _ _ _ _ (get_contact_found _ _ _ Hm Hs)).
  assert (Hm0 : mock_mode (logged "WARNING" c self) = true)
    by now rewrite logged_mode.
  assert (Hs0 : stored (logged "WARNING" c self) contact_id = Some c)
    by now rewrite stored_logged.
  destruct (add_tag_found _ contact_id ("opportunity:" ++ target) c Hm0 Hs0)
    as (s1 & Hrun1 & Hm1 & Hs1 & _).
  cbv zeta. rewrite (bind_returned _ _ _ _ _ Hrun1).
  destruct (add_tag_found _ contact_id
              ("priority:" ++ priority_word priority) _ Hm1 Hs1)
    as (s2 & Hrun2 & Hm2 & Hs2 & _).
  rewrite (bind_returned _ _ _ _ _ Hrun2).
  exists s2. auto.
Qed.

End Handoffs.

(** X21. A handoff of a stored contact returns the handoff record
    (created, with the contact's name and the tag 'opportunity:' followed
    by the target project) and only appends to the contact's tags: the
    old tags stay in place, the opportunity tag and the priority tag
    ('priority:high' from 4, 'priority:medium' at 3, 'priority:low'
    below) are present afterwards, and nothing else of the contact is
    written. *)
Theorem create_handoff_appends_tags
    (self : tool) (contact_id target reason : string) (priority : Z)
    (c : Contact) :
  fst (get_contact contact_id self) = Returned c ->
  exists handoff self' record added,
    ConnectorAgent.create_handoff contact_id target reason priority self
    = (Returned handoff, self')
    /\ ConnectorAgent.h_created handoff = true
    /\ ConnectorAgent.h_opportunity_tag handoff = ("opportunity:" ++ target)%string
    /\ ConnectorAgent.h_contact_name handoff
       = contact_name (check_contact_cultural_protocols c)
    /\ stored self' contact_id = Some record
    /\ get_tags record = get_tags c ++ added
    /\ In ("opportunity:" ++ target)%string (get_tags record)
    /\ In ("priority:" ++ ConnectorAgent.priority_word priority)%string
          (get_tags record)
    /\ identity record = identity c
    /\ c_customFields record = c_customFields c.
Proof.
  intros Hget. apply get_contact_returned in Hget. destruct Hget as [Hm Hs].
  destruct (create_handoff_found self contact_id target reason priority c Hm Hs)
    as (self' & Hrun & _ & Hs').
  set (otag := ("opportunity:" ++ target)%string) in *.
  set (ptag := ("priority:" ++ ConnectorAgent.priority_word priority)%string) in *.
  destruct (tagged_extends otag c) as (Hi1 & Hc1 & added1 & Ht1).
  destruct (tagged_extends ptag (tagged otag c)) as (Hi2 & Hc2 & added2 & Ht2).
  eexists _, self', (tagged ptag (tagged otag c)), (added1 ++ added2).
  split; [exact Hrun |]. repeat split; try assumption.
  - now rewrite Ht2, Ht1, app_assoc.
  - rewrite Ht2. apply in_or_app. left.
    apply str_in_list_In, tagged_has_tag.
  - apply str_in_list_In, tagged_has_tag.
  - congruence.
  - congruence.
Qed.

Lemma create_handoff_appends_tags_witness :
  exists c handoff self' record added,
    stored fresh_tool "contact_005" = Some c
    /\ ConnectorAgent.create_handoff "contact_005" "act-farm"
         "Interested in conservation" 4 fresh_tool
       = (Returned handoff, self')
    /\ ConnectorAgent.h_created handoff = true
    /\ ConnectorAgent.h_opportunity_tag handoff = "opportunity:act-farm"
    /\ ConnectorAgent.h_contact_name handoff
       = contact_name (check_contact_cultural_protocols c)
    /\ stored self' "contact_005" = Some record
    /\ get_tags record = get_tags c ++ added
    /\ In "opportunity:act-farm" (get_tags record)
    /\ In "priority:high" (get_tags record)
    /\ identity record = identity c
    /\ c_customFields record = c_customFields c.
Proof.
  eexists.
  destruct (create_handoff_appends_tags fresh_tool "contact_005" "act-farm"
              "Interested in conservation" 4 _ eq_refl)
    as (handoff & self' & record & added & H).
  exists handoff, self', record, added. split; [reflexivity | exact H].
Defined.

(** X22. Handoffs pile up priority tags: after two handoffs of the same
    stored contact, the tags of both are on the record, so a later
    handoff with another priority leaves the earlier priority tag in
    place beside its own. *)
Theorem create_handoff_keeps_earlier_priority
    (self : tool) (contact_id target1 reason1 target2 reason2 : string)
    (priority1 priority2 : Z) (c : Contact) :
  fst (get_contact contact_id self) = Returned c ->
  exists handoff1 s1 handoff2 s2 record,
    ConnectorAgent.create_handoff contact_id target1 reason1 priority1 self
    = (Returned handoff1, s1)
    /\ ConnectorAgent.create_handoff contact_id target2 reason2 priority2 s1
       = (Returned handoff2, s2)
    /\ stored s2 contact_id = Some record
    /\ In ("priority:" ++ ConnectorAgent.priority_word priority1)%string
          (get_tags record)
    /\ In ("priority:" ++ ConnectorAgent.priority_word priority2)%string
          (get_tags record)
    /\ In ("opportunity:" ++ target1)%string (get_tags record)
    /\ In ("opportunity:" ++ target2)%string (get_tags record)
    /\ incl (get_tags c) (get_tags record).
Proof.
  intros Hget. apply get_contact_returned in Hget. destruct Hget as [Hm Hs].
  destruct (create_handoff_found self contact_id target1 reason1 priority1 c
              Hm Hs) as (s1 & Hrun1 & Hm1 & Hs1).
  destruct (create_handoff_found s1 contact_id target2 reason2 priority2 _
              Hm1 Hs1) as (s2 & Hrun2 & _ & Hs2).
  set (o1 := ("opportunity:" ++ target1)%string) in *.
  set (p1 := ("priority:" ++ ConnectorAgent.priority_word priority1)%string) in *.
  set (o2 := ("opportunity:" ++ target2)%string) in *.
  set (p2 := ("priority:" ++ ConnectorAgent.priority_word priority2)%string) in *.
  eexists _, s1, _, s2, _.
  split; [exact Hrun1 |]. split; [exact Hrun2 |]. split; [exact Hs2 |].
  repeat split.
  - do 2 apply tagged_keeps. apply str_in_list_In, tagged_has_tag.
  - apply str_in_list_In, tagged_has_tag.
  - do 3 apply tagged_keeps. apply str_in_list_In, tagged_has_tag.
  - apply tagged_keeps. apply str_in_list_In, tagged_has_tag.
  - intros t Ht. now do 4 apply tagged_keeps.
Qed.

Lemma create_handoff_keeps_earlier_priority_witness :
  exists c handoff1 s1 handoff2 s2 record,
    stored fresh_tool "contact_001" = Some c
    /\ ConnectorAgent.create_handoff "contact_001" "act-farm" "first" 5 fresh_tool
       = (Returned handoff1, s1)
    /\ ConnectorAgent.create_handoff "contact_001" "act-farm" "second" 1 s1
       = (Returned handoff2, s2)
    /\ stored s2 "contact_001" = Some record
    /\ In "priority:high" (get_tags record)
    /\ In "priority:low" (get_tags record)
    /\ In "opportunity:act-farm" (get_tags record)
    /\ In "opportunity:act-farm" (get_tags record)
    /\ incl (get_tags c) (get_tags record).
Proof.
  eexists.
  destruct (create_handoff_keeps_earlier_priority fresh_tool "contact_001"
              "act-farm" "first" "act-farm" "second" 5 1 _ eq_refl)
    as (h1 & s1 & h2 & s2 & record & H).
  exists h1, s1, h2, s2, record. split; [reflexivity | exact H].
Defined.

(* ================================================================== *)
(** * The normalisers of the cleanup agent *)
(* ================================================================== *)

Section Stripping.

Lemma lower_char_idem (c : ascii) : lower_char (lower_char c) = lower_char c.
Proof. destruct c as [[] [] [] [] [] [] [] []]; reflexivity. Qed.

Lemma isspace_lower_char (c : ascii) : isspace (lower_char c) = isspace c.
Proof. destruct c as [[] [] [] [] [] [] [] []]; reflexivity. Qed.

Lemma lower_idem (s : string) : lower (lower s) = lower s.
Proof.
  induction s as [| c s IH]; simpl; [reflexivity |].
  now rewrite lower_char_idem, IH.
Qed.

Lemma lstrip_lower (s : string) : lstrip (lower s) = lower (lstrip s).
Proof.
  induction s as [| c s IH]; simpl; [reflexivity |].
  rewrite isspace_lower_char. destruct (isspace c); [exact IH | reflexivity].
Qed.

Lemma rstrip_lower (s : string) : rstrip (lower s) = lower (rstrip s).
Proof.
  induction s as [| c s IH]; simpl; [reflexivity |].
  rewrite IH, isspace_lower_char.
  destruct (rstrip s); simpl; [destruct (isspace c) |]; reflexivity.
Qed.

Lemma strip_lower (s : string) : strip (lower s) = lower (strip s).
Proof. unfold strip. now rewrite lstrip_lower, rstrip_lower. Qed.

Lemma rstrip_idem (s : string) : rstrip (rstrip s) = rstrip s.
Proof.
  induction s as [| c s IH]; simpl; [reflexivity |].
  destruct (rstrip s) as [| d r] eqn:E.
  - destruct (isspace c) eqn:Ec; simpl; [reflexivity | now rewrite Ec].
  - simpl in IH |- *. now rewrite IH.
Qed.

(** A string that does not start with white space. *)
Lemma lstrip_head (s : string) :
  match lstrip s with
  | EmptyString => True
  | String c _ => isspace c = false
  end.
Proof.
  induction s as [| c s IH]; simpl; [exact I |].
  destruct (isspace c) eqn:E; [exact IH | exact E].
Qed.

Lemma lstrip_fixed (s : string) :
  match s with
  | EmptyString => True
  | String c _ => isspace c = false
  end ->
  lstrip s = s.
Proof. destruct s as [| c s]; simpl; [reflexivity | now intros ->]. Qed.

Lemma rstrip_head (s : string) :
  match s with
  | EmptyString => True
  | String c _ => isspace c = false
  end ->
  match rstrip s with
  | EmptyString => True
  | String c _ => isspace c = false
  end.
Proof.
  destruct s as [| c s]; simpl; [trivial |].
  intros Hc. destruct (rstrip s); [now rewrite Hc |]; exact Hc.
Qed.

Lemma strip_idem (s : string) : strip (strip s) = strip s.
Proof.
  unfold strip.
  rewrite (lstrip_fixed (rstrip (lstrip s)) (rstrip_head _ (lstrip_head s))).
  apply rstrip_idem.
Qed.

End Stripping.

(** X23. [normalize_email] is idempotent: normalising an email that is
    already normalised changes nothing, so two emails that normalise to
    the same text stay grouped however often they are normalised. *)
Theorem normalize_email_idempotent (email : string) :
  CleanupAgent.normalize_email (CleanupAgent.normalize_email email)
  = CleanupAgent.normalize_email email.
Proof.
  unfold CleanupAgent.normalize_email.
  destruct (email =? "") eqn:E; [reflexivity |].
  destruct (strip (lower email) =? "") eqn:E'.
  - now apply String.eqb_eq in E'.
  - now rewrite strip_lower, strip_idem, <- strip_lower, lower_idem.
Qed.

Section Phones.

Import CleanupAgent.

Lemma keep_digits_all (s : string) :
  Forall (fun c => isdigit c = true) (list_ascii_of_string (keep_digits s)).
Proof.
  induction s as [| c s IH]; simpl; [constructor |].
  destruct (isdigit c) eqn:E; [simpl; now constructor | exact IH].
Qed.

Lemma substring_all (P : ascii -> Prop) (n m : nat) (s : string) :
  Forall P (list_ascii_of_string s) ->
  Forall P (list_ascii_of_string (substring n m s)).
Proof.
  revert n m. induction s as [| c s IH]; intros n m H; simpl.
  - destruct n; destruct m; constructor.
  - inversion H; subst. destruct n.
    + destruct m; simpl; constructor; auto.
    + now apply IH.
Qed.

(** The national number [normalize_phone] works with. *)
Lemma national_digits_all (phone : string) :
  Forall (fun c => isdigit c = true)
    (list_ascii_of_string
       (if String.prefix "61" (keep_digits phone)
        then slice_from 2 (keep_digits phone)
        else if String.prefix "0" (keep_digits phone)
             then slice_from 1 (keep_digits phone)
             else keep_digits phone)).
Proof.
  destruct (String.prefix "61" (keep_digits phone));
    [apply substring_all, keep_digits_all |].
  destruct (String.prefix "0" (keep_digits phone));
    [apply substring_all, keep_digits_all | apply keep_digits_all].
Qed.

(** A formatted number is left as it is. *)
Lemma normalize_phone_formatted (d : string) :
  String.length d = 9%nat ->
  Forall (fun c => isdigit c = true) (list_ascii_of_string d) ->
  let formatted :=
    if String.prefix "4" d
    then ("+61 " ++ slice 0 3 d ++ " " ++ slice 3 6 d ++ " " ++ slice 6 9 d)%string
    else ("+61 " ++ slice 0 1 d ++ " " ++ slice 1 5 d ++ " " ++ slice 5 9 d)%string in
  normalize_phone formatted = formatted.
Proof.
  intros Hlen Hall.
  destruct d as [| c1 [| c2 [| c3 [| c4 [| c5 [| c6 [| c7 [| c8 [| c9 [| c10 d]]]]]]]]]];
    try discriminate Hlen.
  simpl in Hall.
  repeat match goal with
         | H : Forall _ (_ :: _) |- _ => inversion H; clear H; subst
         end.
  destruct (String.prefix "4" _) eqn:E4; cbv zeta;
    unfold normalize_phone, slice, slice_from; simpl;
    repeat match goal with
           | H : isdigit ?c = true |- _ => rewrite H; clear H
           end;
    simpl; simpl in E4; rewrite E4; reflexivity.
Qed.

End Phones.

(** X24. [normalize_phone] is idempotent: a number it has formatted as
    '+61 ...' is left as it is by a second pass, and a number it could
    not parse is returned unchanged both times. *)
Theorem normalize_phone_idempotent (phone : string) :
  CleanupAgent.normalize_phone (CleanupAgent.normalize_phone phone)
  = CleanupAgent.normalize_phone phone.
Proof.
  destruct (phone =? "") eqn:E.
  { apply String.eqb_eq in E. subst phone. reflexivity. }
  pose proof (national_digits_all phone) as Hall.
  set (d := if String.prefix "61" (CleanupAgent.keep_digits phone)
            then CleanupAgent.slice_from 2 (CleanupAgent.keep_digits phone)
            else if String.prefix "0" (CleanupAgent.keep_digits phone)
                 then CleanupAgent.slice_from 1 (CleanupAgent.keep_digits phone)
                 else CleanupAgent.keep_digits phone) in *.
  assert (Hn : CleanupAgent.normalize_phone phone
               = if (String.length d =? 9)%nat
                 then if String.prefix "4" d
                      then ("+61 " ++ CleanupAgent.slice 0 3 d ++ " "
                              ++ CleanupAgent.slice 3 6 d ++ " "
                              ++ CleanupAgent.slice 6 9 d)%string
                      else ("+61 " ++ CleanupAgent.slice 0 1 d ++ " "
                              ++ CleanupAgent.slice 1 5 d ++ " "
                              ++ CleanupAgent.slice 5 9 d)%string
                 else phone).
  { unfold CleanupAgent.normalize_phone. rewrite E. reflexivity. }
  destruct (String.length d =? 9)%nat eqn:Hlen.
  - apply Nat.eqb_eq in Hlen. rewrite Hn.
    exact (normalize_phone_formatted d Hlen Hall).
  - rewrite Hn. rewrite Hn. reflexivity.
Qed.

Section TagText.

Import CleanupAgent.

Lemma lstrip_chars (P : ascii -> Prop) (s : string) :
  Forall P (list_ascii_of_string s) -> Forall P (list_ascii_of_string (lstrip s)).
Proof.
  induction s as [| c s IH]; simpl; [trivial |].
  intros H. destruct (isspace c); [inversion H; auto | exact H].
Qed.

Lemma rstrip_chars (P : ascii -> Prop) (s : string) :
  Forall P (list_ascii_of_string s) -> Forall P (list_ascii_of_string (rstrip s)).
Proof.
  induction s as [| c s IH]; simpl; [trivial |].
  intros H. inversion H; subst.
  destruct (rstrip s) as [| d r].
  - destruct (isspace c); simpl; constructor; auto.
  - simpl. constructor; auto.
Qed.

Lemma lstrip_hyphens_chars (P : ascii -> Prop) (s : string) :
  Forall P (list_ascii_of_string s) -> Forall P (list_ascii_of_string (lstrip_hyphens s)).
Proof.
  induction s as [| c s IH]; simpl; [trivial |].
  intros H. destruct (Ascii.eqb c "-"); [inversion H; auto | exact H].
Qed.

Lemma rstrip_hyphens_chars (P : ascii -> Prop) (s : string) :
  Forall P (list_ascii_of_string s) -> Forall P (list_ascii_of_string (rstrip_hyphens s)).
Proof.
  induction s as [| c s IH]; simpl; [trivial |].
  intros H. inversion H; subst.
  destruct (rstrip_hyphens s) as [| d r].
  - destruct (Ascii.eqb c "-"); simpl; constructor; auto.
  - simpl. constructor; auto.
Qed.

(** One round of [replace('--', '-')] keeps the characters, never
    lengthens the text, and shortens it when there is a '--'. *)
Lemma replace_double_hyphens_facts (P : ascii -> Prop) (n : nat) :
  forall s,
    (String.length s <= n)%nat ->
    (Forall P (list_ascii_of_string s) -> Forall P (list_ascii_of_string (replace_double_hyphens s)))
    /\ (String.length (replace_double_hyphens s) <= String.length s)%nat
    /\ (str_in "--" s = true ->
        (String.length (replace_double_hyphens s) < String.length s)%nat).
Proof.
  induction n as [| n IH]; intros s Hlen.
  - destruct s; [| simpl in Hlen; lia]. simpl. repeat split; auto. discriminate.
  - destruct s as [| c [| d s]].
    + simpl. repeat split; auto. discriminate.
    + split; [trivial | split; [apply le_n |]].
      rewrite str_in_unfold. cbn [String.prefix str_in orb].
      destruct (ascii_dec "-" c); discriminate.
    + simpl in Hlen.
      destruct (IH s ltac:(lia)) as (Hp2 & Hl2 & _).
      destruct (IH (String d s) ltac:(simpl; lia)) as (Hp1 & Hl1 & Hs1).
      change (replace_double_hyphens (String c (String d s)))
        with (if Ascii.eqb c "-" && Ascii.eqb d "-"
              then String "-" (replace_double_hyphens s)
              else String c (replace_double_hyphens (String d s))).
      destruct (Ascii.eqb c "-" && Ascii.eqb d "-") eqn:E.
      * apply andb_true_iff in E. destruct E as [Ec Ed].
        apply Ascii.eqb_eq in Ec. subst c.
        split; [| split].
        -- intros H. inversion H as [| ? ? Hc H']; subst.
           inversion H'; subst. simpl. constructor; auto.
        -- cbn [String.length] in *. lia.
        -- intros _. cbn [String.length] in *. lia.
      * split; [| split].
        -- intros H. inversion H; subst. simpl. constructor; auto.
        -- cbn [String.length] in *. lia.
        -- rewrite str_in_unfold. intros H. apply orb_true_iff in H.
           destruct H as [H | H].
           ++ exfalso. cbn [String.prefix] in H.
              destruct (ascii_dec "-" c) as [<- | _]; [| discriminate].
              destruct (ascii_dec "-" d) as [<- | _]; [| discriminate].
              discriminate E.
           ++ specialize (Hs1 H). cbn [String.length] in *. lia.
Qed.

Lemma collapse_hyphens_chars (P : ascii -> Prop) (n : nat) (s : string) :
  Forall P (list_ascii_of_string s) -> Forall P (list_ascii_of_string (collapse_hyphens n s)).
Proof.
  revert s. induction n as [| n IH]; intros s H; simpl; [exact H |].
  destruct (str_in "--" s); [| exact H].
  apply IH.
  now apply (replace_double_hyphens_facts P (String.length s) s (le_n _)).
Qed.

(** The loop has run to its end: no '--' is left. *)
Lemma collapse_hyphens_done (n : nat) (s : string) :
  (String.length s <= n)%nat -> str_in "--" (collapse_hyphens n s) = false.
Proof.
  revert s. induction n as [| n IH]; intros s Hlen; simpl.
  - destruct s; [reflexivity | simpl in Hlen; lia].
  - destruct (str_in "--" s) eqn:E; [| exact E].
    apply IH.
    destruct (replace_double_hyphens_facts (fun _ => True)
                (String.length s) s (le_n _)) as (_ & _ & Hlt).
    specialize (Hlt E). lia.
Qed.

Lemma str_in_tail (needle hay : string) (c : ascii) :
  str_in needle (String c hay) = false -> str_in needle hay = false.
Proof.
  rewrite str_in_unfold. intros H. apply orb_false_iff in H. now destruct H.
Qed.

Lemma lstrip_hyphens_no_dd (s : string) :
  str_in "--" s = false -> str_in "--" (lstrip_hyphens s) = false.
Proof.
  induction s as [| c s IH]; simpl lstrip_hyphens; [trivial |].
  intros H. destruct (Ascii.eqb c "-"); [| exact H].
  apply IH. now apply str_in_tail with c.
Qed.

Lemma rstrip_hyphens_first (s r : string) (d : ascii) :
  rstrip_hyphens s = String d r -> exists s', s = String d s'.
Proof.
  destruct s as [| c s]; simpl; [discriminate |].
  destruct (rstrip_hyphens s).
  - destruct (Ascii.eqb c "-"); [discriminate |].
    intros H. injection H as <- _. eauto.
  - intros H. injection H as <- _. eauto.
Qed.

Lemma rstrip_hyphens_no_dd (s : string) :
  str_in "--" s = false -> str_in "--" (rstrip_hyphens s) = false.
Proof.
  induction s as [| c s IH]; [trivial |].
  intros H. pose proof (str_in_tail _ _ _ H) as Htail.
  specialize (IH Htail). simpl rstrip_hyphens.
  destruct (rstrip_hyphens s) as [| d r] eqn:E.
  - destruct (Ascii.eqb c "-"); [reflexivity |].
    rewrite str_in_unfold. cbn [String.prefix str_in orb].
    destruct (ascii_dec "-" c); reflexivity.
  - destruct (rstrip_hyphens_first _ _ _ E) as [s' ->].
    rewrite str_in_unfold in H |- *. apply orb_false_iff in H.
    destruct H as [Hp _]. rewrite IH, orb_false_r.
    cbn [String.prefix] in Hp |- *.
    destruct (ascii_dec "-" c); [| reflexivity].
    destruct (ascii_dec "-" d); [| reflexivity].
    destruct s'; discriminate Hp.
Qed.

Lemma rstrip_hyphens_idem (s : string) :
  rstrip_hyphens (rstrip_hyphens s) = rstrip_hyphens s.
Proof.
  induction s as [| c s IH]; simpl; [reflexivity |].
  destruct (rstrip_hyphens s) as [| d r] eqn:E.
  - destruct (Ascii.eqb c "-") eqn:Ec; simpl; [reflexivity | now rewrite Ec].
  - simpl in IH |- *. now rewrite IH.
Qed.

Lemma strip_hyphens_idem (s : string) :
  strip_hyphens (strip_hyphens s) = strip_hyphens s.
Proof.
  unfold strip_hyphens.
  assert (Hhead : match lstrip_hyphens s with
                  | EmptyString => True
                  | String c _ => Ascii.eqb c "-" = false
                  end).
  { induction s as [| c s IH]; simpl; [exact I |].
    destruct (Ascii.eqb c "-") eqn:E; [exact IH | exact E]. }
  assert (Hkeep : forall t,
             match t with
             | EmptyString => True
             | String c _ => Ascii.eqb c "-" = false
             end ->
             lstrip_hyphens (rstrip_hyphens t) = rstrip_hyphens t).
  { intros [| c t]; [reflexivity |]. intros Hc. cbn [rstrip_hyphens].
    destruct (rstrip_hyphens t); [rewrite Hc |];
      cbn [lstrip_hyphens]; now rewrite Hc. }
  rewrite (Hkeep _ Hhead). apply rstrip_hyphens_idem.
Qed.

Lemma lower_fixed (s : string) :
  Forall (fun c => lower_char c = c) (list_ascii_of_string s) -> lower s = s.
Proof.
  induction s as [| c s IH]; simpl; [reflexivity |].
  intros H. inversion H; subst. f_equal; auto.
Qed.

Lemma replace_spaces_fixed (s : string) :
  Forall (fun c => Ascii.eqb c " " = false) (list_ascii_of_string s) -> replace_spaces s = s.
Proof.
  induction s as [| c s IH]; simpl; [reflexivity |].
  intros H. inversion H as [| ? ? Hc H']; subst. rewrite Hc. f_equal; auto.
Qed.

Lemma lower_chars (s : string) :
  Forall (fun c => lower_char c = c) (list_ascii_of_string (lower s)).
Proof.
  induction s as [| c s IH]; simpl; constructor; auto.
  apply lower_char_idem.
Qed.

Lemma replace_spaces_chars (s : string) :
  Forall (fun c => lower_char c = c) (list_ascii_of_string s) ->
  Forall (fun c => lower_char c = c /\ Ascii.eqb c " " = false)
         (list_ascii_of_string (replace_spaces s)).
Proof.
  induction s as [| c s IH]; simpl; [constructor |].
  intros H. inversion H; subst. constructor; [| auto].
  destruct (Ascii.eqb c " ") eqn:E; [split; reflexivity | auto].
Qed.

(** What one normalised tag looks like. *)
Lemma normalize_tag_clean (tag : string) :
  lower (normalize_tag tag) = normalize_tag tag
  /\ replace_spaces (normalize_tag tag) = normalize_tag tag
  /\ str_in "--" (normalize_tag tag) = false
  /\ strip_hyphens (normalize_tag tag) = normalize_tag tag.
Proof.
  unfold normalize_tag.
  set (t1 := strip (lower tag)).
  set (t2 := replace_spaces t1).
  set (t3 := collapse_hyphens (String.length t2) t2).
  assert (H1 : Forall (fun c => lower_char c = c) (list_ascii_of_string t1)).
  { unfold t1, strip. apply rstrip_chars, lstrip_chars, lower_chars. }
  assert (H2 : Forall (fun c => lower_char c = c /\ Ascii.eqb c " " = false)
                 (list_ascii_of_string t2)) by now apply replace_spaces_chars.
  assert (H3 : Forall (fun c => lower_char c = c /\ Ascii.eqb c " " = false)
                 (list_ascii_of_string (strip_hyphens t3))).
  { unfold strip_hyphens, t3.
    now apply rstrip_hyphens_chars, lstrip_hyphens_chars, collapse_hyphens_chars. }
  split; [| split; [| split]].
  - apply lower_fixed. eapply Forall_impl; [| exact H3]. now intros c [].
  - apply replace_spaces_fixed. eapply Forall_impl; [| exact H3]. now intros c [].
  - unfold strip_hyphens. apply rstrip_hyphens_no_dd, lstrip_hyphens_no_dd.
    apply collapse_hyphens_done. apply le_n.
  - apply strip_hyphens_idem.
Qed.

(** The loop keeps [normalized] free of repetitions and [seen] equal to
    it as a set, and adds only normalised, non-empty tags. *)
Lemma normalize_loop_invariant (tags normalized seen : list string) :
  NoDup normalized ->
  (forall x, In x seen <-> In x normalized) ->
  NoDup (normalize_loop tags normalized seen)
  /\ forall t,
       In t (normalize_loop tags normalized seen) ->
       In t normalized
       \/ (t <> "" /\ exists original, In original tags
                                      /\ t = normalize_tag original).
Proof.
  revert normalized seen.
  induction tags as [| tag tags IH]; intros normalized seen Hnd Hseen; simpl.
  - split; [assumption | auto].
  - destruct (negb (normalize_tag tag =? "")
              && negb (str_in_list (normalize_tag tag) seen)) eqn:E.
    + apply andb_true_iff in E. destruct E as [Hne Hnew].
      apply negb_true_iff in Hne, Hnew.
      apply String.eqb_neq in Hne. apply str_in_list_not_In in Hnew.
      destruct (IH (normalized ++ [normalize_tag tag])
                  (normalize_tag tag :: seen)) as [Hnd' Hin'].
      * apply NoDup_app; [assumption | repeat constructor; intros [] | ].
        intros x Hx [<- | []]. apply Hnew. now apply Hseen.
      * intros x. simpl. rewrite in_app_iff, Hseen. simpl. tauto.
      * split; [assumption |]. intros t Ht.
        destruct (Hin' t Ht) as [H | (H1 & o & Ho & H2)].
        -- apply in_app_iff in H. destruct H as [H | [<- | []]]; [now left |].
           right. split; [assumption |]. exists tag. split; [now left | reflexivity].
        -- right. split; [assumption |]. exists o. split; [now right | assumption].
    + destruct (IH normalized seen Hnd Hseen) as [Hnd' Hin'].
      split; [assumption |]. intros t Ht.
      destruct (Hin' t Ht) as [H | (H1 & o & Ho & H2)]; [now left |].
      right. split; [assumption |]. exists o. split; [now right | assumption].
Qed.

End TagText.

(** X25. [normalize_tags] returns a list without repetitions whose tags
    are normalised forms of the contact's tags and are never empty; each
    is in lower case, has no space, no '--' (the collapsing loop runs to
    its end) and no hyphen at either end. *)
Theorem normalize_tags_clean (contact : Contact) :
  NoDup (CleanupAgent.normalize_tags contact)
  /\ forall tag,
       In tag (CleanupAgent.normalize_tags contact) ->
       tag <> ""
       /\ (exists original,
             In original (get_tags contact)
             /\ tag = CleanupAgent.normalize_tag original)
       /\ lower tag = tag
       /\ CleanupAgent.replace_spaces tag = tag
       /\ str_in "--" tag = false
       /\ CleanupAgent.strip_hyphens tag = tag.
Proof.
  unfold CleanupAgent.normalize_tags.
  destruct (normalize_loop_invariant (get_tags contact) [] [])
    as [Hnd Hin]; [constructor | tauto |].
  split; [assumption |]. intros tag Ht.
  destruct (Hin tag Ht) as [[] | (Hne & original & Ho & ->)].
  split; [assumption |]. split; [eauto |].
  apply normalize_tag_clean.
Qed.

(* ================================================================== *)
(** * Filling in missing fields *)
(* ================================================================== *)

Section Defaults.

Import CleanupAgent.

Lemma is_missing_set_same (field : string) (v : pyval) (d : dict pyval) :
  v <> VNone -> is_missing field (dict_set field v d) = false.
Proof.
  intros Hv. unfold is_missing. rewrite dict_get_set_same.
  destruct v; congruence.
Qed.

Lemma is_missing_set_other (k field : string) (v : pyval) (d : dict pyval) :
  field <> k -> is_missing k (dict_set field v d) = is_missing k d.
Proof. intros Hne. unfold is_missing. now rewrite dict_get_set_other. Qed.

(** A lookup after the loop over a table of defaults none of which is
    [None]. *)
Lemma fill_defaults_get (table d : dict pyval) (updated : bool) (k : string) :
  Forall (fun kv => snd kv <> VNone) table ->
  dict_get k (fst (fill_defaults table d updated))
  = if is_missing k d
    then match dict_get k table with
         | Some v => Some v
         | None => dict_get k d
         end
    else dict_get k d.
Proof.
  revert d updated. induction table as [| [field v] table IH];
    intros d updated Hall; simpl.
  - now destruct (is_missing k d).
  - inversion Hall as [| ? ? Hv Hall']; subst. simpl in Hv.
    destruct (is_missing field d) eqn:Ef.
    + rewrite (IH _ _ Hall').
      destruct (field =? k) eqn:E.
      * apply String.eqb_eq in E. subst k.
        rewrite (is_missing_set_same _ _ _ Hv), Ef.
        apply dict_get_set_same.
      * apply String.eqb_neq in E.
        rewrite (is_missing_set_other _ _ _ _ E).
        rewrite (dict_get_set_other _ _ _ _ E).
        destruct (is_missing k d); [| reflexivity].
        destruct (dict_get k table); reflexivity.
    + rewrite (IH _ _ Hall').
      destruct (field =? k) eqn:E; [| reflexivity].
      apply String.eqb_eq in E. subst k. now rewrite Ef.
Qed.

(** A table with nothing missing leaves the dictionary and the flag. *)
Lemma fill_defaults_nothing (table d : dict pyval) (updated : bool) :
  (forall field, In field (dict_keys table) -> is_missing field d = false) ->
  fill_defaults table d updated = (d, updated).
Proof.
  induction table as [| [field v] table IH]; intros Hall; simpl; [reflexivity |].
  rewrite (Hall field (or_introl eq_refl)).
  apply IH. intros f Hf. apply Hall. now right.
Qed.

Lemma defaults_not_none : Forall (fun kv => snd kv <> VNone) defaults.
Proof. repeat constructor; discriminate. Qed.

Lemma dict_get_in_keys {V : Type} (k : string) (d : dict V) :
  In k (dict_keys d) -> exists v, dict_get k d = Some v.
Proof.
  induction d as [| [k' v'] d IH]; simpl; [intros [] |].
  intros [-> | Hin].
  - rewrite String.eqb_refl. eauto.
  - destruct (k' =? k); eauto.
Qed.

Lemma dict_get_some_in {V : Type} (k : string) (v : V) (d : dict V) :
  dict_get k d = Some v -> In (k, v) d.
Proof.
  induction d as [| [k' v'] d IH]; simpl; [discriminate |].
  destruct (k' =? k) eqn:E.
  - apply String.eqb_eq in E. intros H. injection H as <-. subst. now left.
  - intros H. right. now apply IH.
Qed.

(** After the loop no default is missing. *)
Lemma fill_defaults_complete (d : dict pyval) (updated : bool) (field : string) :
  In field (dict_keys defaults) ->
  is_missing field (fst (fill_defaults defaults d updated)) = false.
Proof.
  intros Hin. unfold is_missing at 1.
  rewrite (fill_defaults_get _ _ _ _ defaults_not_none).
  destruct (dict_get_in_keys _ _ Hin) as [v Hv]. rewrite Hv.
  destruct (is_missing field d) eqn:E.
  - pose proof (dict_get_some_in _ _ _ Hv) as Hmem.
    pose proof (proj1 (Forall_forall _ _) defaults_not_none _ Hmem) as Hne.
    simpl in Hne. destruct v; congruence.
  - exact E.
Qed.

(** The contact after the call always holds the filled dictionary. *)
Lemma fix_missing_fields_fields (contact : Contact) :
  fix_missing_fields contact
  = set_customFields contact
      (fst (fill_defaults defaults (get_customFields contact) false)).
Proof.
  unfold fix_missing_fields.
  destruct (c_customFields contact) as [d |] eqn:E.
  - now destruct (fill_defaults defaults (get_customFields contact) false).
  - unfold get_customFields. rewrite E. reflexivity.
Qed.

End Defaults.

(** X26. [fix_missing_fields] fills in, and only fills in: afterwards
    every field of the defaults table that was absent or [None] holds its
    default, every field that had a value keeps it, fields outside the
    table are as before, and tags, id, email, names, phone and company
    are untouched. *)
Theorem fix_missing_fields_only_fills (contact : Contact) :
  let fixed := CleanupAgent.fix_missing_fields contact in
  (forall field default_value,
     dict_get field CleanupAgent.defaults = Some default_value ->
     field_value field contact = None
     \/ field_value field contact = Some VNone ->
     field_value field fixed = Some default_value)
  /\ (forall field v,
        field_value field contact = Some v -> v <> VNone ->
        field_value field fixed = Some v)
  /\ (forall field,
        dict_get field CleanupAgent.defaults = None ->
        field_value field fixed = field_value field contact)
  /\ c_tags fixed = c_tags contact
  /\ identity fixed = identity contact.
Proof.
  cbv zeta. rewrite fix_missing_fields_fields.
  unfold field_value. cbn [get_customFields set_customFields c_customFields].
  assert (Hget := fun k =>
            fill_defaults_get CleanupAgent.defaults (get_customFields contact)
              false k defaults_not_none).
  unfold get_customFields in *.
  split; [| split; [| split; [| split; reflexivity]]].
  - intros field dv Hd Hmiss. rewrite Hget. unfold CleanupAgent.is_missing.
    destruct Hmiss as [-> | ->]; now rewrite Hd.
  - intros field v Hv Hne. rewrite Hget. unfold CleanupAgent.is_missing.
    rewrite Hv. destruct v; congruence.
  - intros field Hd. rewrite Hget, Hd.
    now destruct (CleanupAgent.is_missing field _).
Qed.

(** X27. [fix_missing_fields] is idempotent and leaves a contact with
    [customFields]: a contact it has fixed has nothing missing, so a
    second call changes nothing. *)
Theorem fix_missing_fields_idempotent (contact : Contact) :
  CleanupAgent.fix_missing_fields (CleanupAgent.fix_missing_fields contact)
  = CleanupAgent.fix_missing_fields contact
  /\ c_customFields (CleanupAgent.fix_missing_fields contact) <> None
  /\ forall field,
       In field (dict_keys CleanupAgent.defaults) ->
       CleanupAgent.is_missing field
         (get_customFields (CleanupAgent.fix_missing_fields contact)) = false.
Proof.
  rewrite (fix_missing_fields_fields contact).
  set (d := fst (CleanupAgent.fill_defaults CleanupAgent.defaults
                   (get_customFields contact) false)).
  assert (Hfull : forall field,
             In field (dict_keys CleanupAgent.defaults) ->
             CleanupAgent.is_missing field d = false)
    by (intros field Hin; now apply fill_defaults_complete).
  split; [| split; [discriminate | exact Hfull]].
  rewrite fix_missing_fields_fields.
  cbn [get_customFields set_customFields c_customFields].
  now rewrite (fill_defaults_nothing _ _ _ Hfull).
Qed.

(* ================================================================== *)
(** * The tasks of the cleanup agent *)
(* ================================================================== *)

Section Tasks.

Import CleanupAgent.

(** A value equals itself. *)
Lemma py_eq_refl : forall v : pyval, py_eq v v = true.
Proof.
  fix IH 1. intros [| b | z | s | l]; simpl.
  - reflexivity.
  - now destruct b.
  - apply Z.eqb_refl.
  - apply String.eqb_refl.
  - induction l as [| x l IHl]; [reflexivity |].
    now rewrite IH, IHl.
Qed.

Lemma dict_get_nodup {V : Type} (k : string) (v : V) (d : dict V) :
  NoDup (dict_keys d) -> In (k, v) d -> dict_get k d = Some v.
Proof.
  induction d as [| [k' v'] d IH]; simpl; [intros _ [] |].
  intros Hnd [Heq | Hin].
  - injection Heq as -> ->. now rewrite String.eqb_refl.
  - inversion Hnd as [| ? ? Hnotin Hnd']; subst.
    destruct (k' =? k) eqn:E; [| now apply IH].
    apply String.eqb_eq in E. subst k'. elim Hnotin.
    change k with (fst (k, v)). now apply in_map.
Qed.

(** A dictionary equals itself. *)
Lemma dict_eq_refl (d : dict pyval) :
  NoDup (dict_keys d) -> dict_eq d d = true.
Proof.
  intros Hnd. unfold dict_eq. rewrite Nat.eqb_refl. simpl.
  apply forallb_forall. intros [k v] Hin. simpl.
  rewrite (dict_get_nodup _ _ _ Hnd Hin). apply py_eq_refl.
Qed.

Lemma dict_set_keys {V : Type} (k : string) (v : V) (d : dict V) :
  dict_keys (dict_set k v d)
  = if dict_has k d then dict_keys d else dict_keys d ++ [k].
Proof.
  unfold dict_has. induction d as [| [k' v'] d IH]; simpl; [reflexivity |].
  destruct (k' =? k) eqn:E; simpl; [reflexivity |].
  rewrite IH. now destruct (dict_get k d).
Qed.

Lemma dict_set_nodup {V : Type} (k : string) (v : V) (d : dict V) :
  NoDup (dict_keys d) -> NoDup (dict_keys (dict_set k v d)).
Proof.
  intros Hnd. rewrite dict_set_keys. unfold dict_has.
  destruct (dict_get k d) eqn:E; [assumption |].
  apply NoDup_app; [assumption | repeat constructor; intros [] |].
  intros x Hx [<- | []].
  destruct (dict_get_in_keys _ _ Hx) as [w Hw]. congruence.
Qed.

Lemma fill_defaults_nodup (table d : dict pyval) (updated : bool) :
  NoDup (dict_keys d) ->
  NoDup (dict_keys (fst (fill_defaults table d updated))).
Proof.
  revert d updated. induction table as [| [field v] table IH];
    intros d updated Hnd; simpl; [assumption |].
  destruct (is_missing field d); apply IH; [now apply dict_set_nodup | assumption].
Qed.

(** With no filter the search hands out every stored contact. *)
Lemma search_everything (self : tool) :
  mock_mode self = true ->
  search_contacts (Some (mkFilters None None)) self
  = (Returned (mock_contacts self), self).
Proof.
  intros Hm. unfold search_contacts, bind, get_self, ret. simpl. now rewrite Hm.
Qed.

Lemma nth_error_middle (done rest : list Contact) (c : Contact) :
  nth_error (done ++ c :: rest) (List.length done) = Some c.
Proof. induction done; simpl; auto. Qed.

Lemma set_nth_middle (done rest : list Contact) (c x : Contact) :
  set_nth (List.length done) x (done ++ c :: rest) = done ++ x :: rest.
Proof. induction done; simpl; [reflexivity | now f_equal]. Qed.

(** The loop of the missing-fields task: each stored contact is fixed in
    place, the comparison finds nothing to update, the counter stays. *)
Lemma missing_fields_loop
    (rest done : list Contact) (fixed : nat) (mode : bool) (out : list printed) :
  Forall (fun c => NoDup (dict_keys (get_customFields c))) rest ->
  for_stored (seq (List.length done) (List.length rest)) fixed
    (fun fixed i contact =>
       let updated := fix_missing_fields contact in
       _ <- mutate i updated ;;
       match c_customFields updated with
       | None => raise (KeyError "customFields")
       | Some fields =>
           if negb (dict_eq fields (get_customFields updated)) then
             _ <- update_contact (c_id updated) (mkUpdates None (Some fields)) ;;
             ret (S fixed)
           else ret fixed
       end)
    (mkTool mode (done ++ rest) out)
  = (Returned fixed, mkTool mode (done ++ map fix_missing_fields rest) out).
Proof.
  revert done. induction rest as [| c rest IH]; intros done Hall;
    [reflexivity |].
  inversion Hall as [| ? ? Hc Hall']; subst.
  cbn [List.length seq for_stored map].
  rewrite (bind_returned get_self _ _ _ _ eq_refl).
  cbn [mock_contacts]. rewrite nth_error_middle. cbv zeta.
  assert (Hbody :
            (_ <- mutate (List.length done) (fix_missing_fields c) ;;
             match c_customFields (fix_missing_fields c) with
             | None => raise (KeyError "customFields")
             | Some fields =>
                 if negb (dict_eq fields
                            (get_customFields (fix_missing_fields c)))
                 then
                   _ <- update_contact (c_id (fix_missing_fields c))
                          (mkUpdates None (Some fields)) ;;
                   ret (S fixed)
                 else ret fixed
             end) (mkTool mode (done ++ c :: rest) out)
            = (Returned fixed,
               mkTool mode (done ++ fix_missing_fields c :: rest) out)).
  { rewrite (bind_returned (mutate (List.length done) (fix_missing_fields c)) _
               (mkTool mode (done ++ c :: rest) out)
               (mkTool mode (done ++ fix_missing_fields c :: rest) out) tt)
      by (unfold mutate; cbn [mock_contacts mock_mode stdout];
          now rewrite set_nth_middle).
    rewrite (fix_missing_fields_fields c).
    cbn [c_customFields set_customFields get_customFields].
    rewrite dict_eq_refl by now apply fill_defaults_nodup.
    reflexivity. }
  rewrite (bind_returned _ _ _ _ _ Hbody).
  replace (done ++ fix_missing_fields c :: rest)
    with ((done ++ [fix_missing_fields c]) ++ rest)
    by now rewrite <- app_assoc.
  replace (S (List.length done))
    with (List.length (done ++ [fix_missing_fields c]))
    by (rewrite length_app; simpl; lia).
  rewrite (IH _ Hall'). now rewrite <- app_assoc.
Qed.

(** An update that carries neither tags nor fields writes no contact. *)
Lemma update_nothing (self : tool) (c : Contact) :
  mock_mode self = true ->
  In c (mock_contacts self) ->
  exists c0 self',
    update_contact (c_id c) (mkUpdates None None) self = (Returned c0, self')
    /\ mock_mode self' = true
    /\ mock_contacts self' = mock_contacts self.
Proof.
  intros Hm Hin.
  destruct (stored self (c_id c)) as [c0 |] eqn:Hs.
  2: { unfold stored in Hs.
       pose proof (find_none _ _ Hs c Hin) as H. simpl in H.
       now rewrite String.eqb_refl in H. }
  destruct (update_contact_permitted self (c_id c) (mkUpdates None None) c0
              ltac:(intros f []) Hm Hs) as (self' & Hm' & Hcase).
  cbn [u_customFields] in Hcase. destruct Hcase as [Hrun Hcs].
  exists c0, self'. split; [exact Hrun |]. split; [exact Hm' |].
  rewrite Hcs. unfold apply_updates. cbn [u_tags u_customFields].
  apply replace_first_self. rewrite (stored_id _ _ _ Hs). exact Hs.
Qed.

(** A loop whose body returns and writes no contact runs to its end and
    folds the stored contacts. *)
Lemma for_stored_reading {A : Type}
    (body : A -> nat -> Contact -> M A) (step : A -> Contact -> A)
    (cs : list Contact) :
  (forall acc i c self,
     mock_mode self = true -> mock_contacts self = cs -> In c cs ->
     exists self',
       body acc i c self = (Returned (step acc c), self')
       /\ mock_mode self' = true /\ mock_contacts self' = cs) ->
  forall rest done acc self,
    cs = done ++ rest ->
    mock_mode self = true -> mock_contacts self = cs ->
    exists self',
      for_stored (seq (List.length done) (List.length rest)) acc body self
      = (Returned (fold_left step rest acc), self')
      /\ mock_mode self' = true /\ mock_contacts self' = cs.
Proof.
  intros Hbody. induction rest as [| c rest IH];
    intros done acc self Hsplit Hm Hcs.
  - exists self. auto.
  - cbn [List.length seq for_stored fold_left].
    rewrite (bind_returned get_self _ _ _ _ eq_refl).
    assert (Hnth : nth_error (mock_contacts self) (List.length done) = Some c)
      by (rewrite Hcs, Hsplit; apply nth_error_middle).
    rewrite Hnth.
    destruct (Hbody acc (List.length done) c self Hm Hcs)
      as (s1 & Hrun1 & Hm1 & Hcs1).
    { rewrite Hsplit. apply in_or_app. right. now left. }
    rewrite (bind_returned _ _ _ _ _ Hrun1).
    destruct (IH (done ++ [c]) (step acc c) s1) as (self' & Hrun & H).
    + now rewrite <- app_assoc.
    + exact Hm1.
    + exact Hcs1.
    + exists self'. split; [| exact H].
      rewrite length_app in Hrun. simpl in Hrun.
      now rewrite Nat.add_1_r in Hrun.
Qed.

Lemma count_unnormalized (rest : list Contact) (fixed : nat) :
  fold_left (fun fixed c => if unnormalized c then S fixed else fixed) rest fixed
  = (fixed + List.length (filter unnormalized rest))%nat.
Proof.
  revert fixed. induction rest as [| c rest IH]; intros fixed; simpl;
    [lia |].
  rewrite IH. destruct (unnormalized c); simpl; lia.
Qed.

End Tasks.

(** X28. The 'missing fields' task of [run] fills the defaults straight
    into the stored contacts: [update_contact] is never called, so no
    policy check runs and nothing is printed (the read-only field
    [elder_review_required] is among the defaults written), and the task
    reports 0 contacts fixed however many it filled. *)
Theorem run_missing_fields_writes_in_place (self : tool) (task : string) :
  mock_mode self = true ->
  Forall (fun c => NoDup (dict_keys (get_customFields c))) (mock_contacts self) ->
  str_in "duplicate" (lower task) = false ->
  str_in "normalize" (lower task) || str_in "tag" (lower task) = false ->
  str_in "missing" (lower task) || str_in "field" (lower task) = true ->
  CleanupAgent.run task self
  = (Returned (CleanupAgent.MissingFieldsFixed 0),
     mkTool true
       (map CleanupAgent.fix_missing_fields (mock_contacts self))
       (stdout self))
  /\ In "elder_review_required" READ_ONLY_FIELDS
  /\ dict_get "elder_review_required" CleanupAgent.defaults = Some (VBool false).
Proof.
  intros Hm Hall H1 H2 H3.
  split; [| split; [simpl; tauto | reflexivity]].
  unfold CleanupAgent.run. cbv zeta. rewrite H1, H2, H3.
  rewrite (bind_returned _ _ _ _ _ (search_everything self Hm)).
  destruct self as [mode cs out]. simpl in Hm. subst mode.
  cbn [mock_contacts stdout].
  pose proof (missing_fields_loop cs [] 0 true out Hall) as Hloop.
  cbn [List.length app] in Hloop.
  now rewrite (bind_returned _ _ _ _ _ Hloop).
Qed.

Lemma run_missing_fields_writes_in_place_witness :
  CleanupAgent.run "fix missing fields" fresh_tool
  = (Returned (CleanupAgent.MissingFieldsFixed 0),
     mkTool true
       (map CleanupAgent.fix_missing_fields (mock_contacts fresh_tool))
       (stdout fresh_tool))
  /\ In "elder_review_required" READ_ONLY_FIELDS
  /\ dict_get "elder_review_required" CleanupAgent.defaults = Some (VBool false).
Proof.
  apply (run_missing_fields_writes_in_place fresh_tool "fix missing fields");
    try reflexivity.
  repeat constructor; simpl; intros H;
    repeat (destruct H as [H | H]; [discriminate H |]); exact H.
Defined.

(** X29. The email and phone task of [run] stores nothing: it counts the
    contacts whose email or phone is not in normalised form and reports
    that number, but [update_contact] does not read the keys 'email' and
    'phone', so every stored contact is as before. *)
Theorem run_email_phone_stores_nothing (self : tool) (task : string) :
  mock_mode self = true ->
  str_in "duplicate" (lower task) = false ->
  str_in "normalize" (lower task) || str_in "tag" (lower task) = false ->
  str_in "missing" (lower task) || str_in "field" (lower task) = false ->
  str_in "cultural" (lower task) || str_in "protocol" (lower task) = false ->
  str_in "email" (lower task) || str_in "phone" (lower task) = true ->
  exists self',
    CleanupAgent.run task self
    = (Returned (CleanupAgent.EmailPhoneNormalized
                   (List.length (filter unnormalized (mock_contacts self)))),
       self')
    /\ mock_contacts self' = mock_contacts self.
Proof.
  intros Hm H1 H2 H3 H4 H5.
  unfold CleanupAgent.run. cbv zeta. rewrite H1, H2, H3, H4, H5.
  rewrite (bind_returned _ _ _ _ _ (search_everything self Hm)).
  destruct (for_stored_reading
              (fun fixed (_ : nat) contact =>
                 if (match c_email contact with
                     | Some email =>
                         negb (CleanupAgent.normalize_email email =? email)
                     | None => false
                     end
                     || match c_phone contact with
                        | Some phone =>
                            negb (CleanupAgent.normalize_phone phone =? phone)
                        | None => false
                        end)%bool
                 then _ <- update_contact (c_id contact) (mkUpdates None None) ;;
                      ret (S fixed)
                 else ret fixed)
              (fun fixed c => if unnormalized c then S fixed else fixed)
              (mock_contacts self))
    with (rest := mock_contacts self) (done := @nil Contact) (acc := 0%nat)
         (self := self)
    as (self' & Hloop & _ & Hcs); try reflexivity; try assumption.
  { intros acc i c s Hms Hcss Hin. unfold unnormalized.
    destruct (match c_email c with
              | Some email => negb (CleanupAgent.normalize_email email =? email)
              | None => false
              end
              || match c_phone c with
                 | Some phone => negb (CleanupAgent.normalize_phone phone =? phone)
                 | None => false
                 end).
    - destruct (update_nothing s c Hms) as (c0 & s1 & Hrun1 & Hm1 & Hcs1);
        [now rewrite Hcss |].
      exists s1. rewrite (bind_returned _ _ _ _ _ Hrun1).
      split; [reflexivity |]. split; [assumption | congruence].
    - exists s. auto. }
  cbn [List.length] in Hloop. rewrite count_unnormalized in Hloop.
  cbn [Nat.add] in Hloop.
  rewrite (bind_returned _ _ _ _ _ Hloop).
  exists self'. split; [reflexivity | exact Hcs].
Qed.

Lemma run_email_phone_stores_nothing_witness :
  exists self',
    CleanupAgent.run "fix phone numbers" fresh_tool
    = (Returned (CleanupAgent.EmailPhoneNormalized
                   (List.length (filter unnormalized (mock_contacts fresh_tool)))),
       self')
    /\ List.length (filter unnormalized (mock_contacts fresh_tool)) = 5%nat
    /\ mock_contacts self' = mock_contacts fresh_tool.
Proof.
  destruct (run_email_phone_stores_nothing fresh_tool "fix phone numbers"
              eq_refl eq_refl eq_refl eq_refl eq_refl eq_refl)
    as (self' & Hrun & Hcs).
  exists self'. split; [exact Hrun |]. split; [reflexivity | exact Hcs].
Defined.

Section Duplicates.

Import CleanupAgent.

Lemma group_by_email_nodup (cs : list Contact) (g : dict (list Contact)) :
  NoDup (dict_keys g) -> NoDup (dict_keys (group_by_email cs g)).
Proof.
  revert g. induction cs as [| c cs IH]; intros g Hnd; simpl; [assumption |].
  destruct (strip (lower (or_empty (c_email c))) =? ""); [now apply IH |].
  apply IH. apply dict_set_nodup.
  destruct (dict_has _ g); [assumption | now apply dict_set_nodup].
Qed.

(** What the grouping loop holds under an email. *)
Lemma group_by_email_get (cs : list Contact) (g : dict (list Contact))
    (e : string) :
  dict_get e (group_by_email cs g)
  = match dict_get e g,
          filter (fun c => (email_key c =? e) && negb (e =? "")) cs with
    | Some group, more => Some (group ++ more)
    | None, [] => None
    | None, more => Some more
    end.
Proof.
  revert g. induction cs as [| c cs IH]; intros g.
  - simpl. destruct (dict_get e g); [now rewrite app_nil_r | reflexivity].
  - cbn [group_by_email filter]. fold (email_key c).
    destruct (email_key c =? "") eqn:Ek.
    + apply String.eqb_eq in Ek. rewrite IH.
      replace ((email_key c =? e) && negb (e =? "")) with false; [reflexivity |].
      rewrite Ek. destruct (e =? "") eqn:Ee; [now rewrite andb_false_r |].
      rewrite String.eqb_sym, Ee. reflexivity.
    + cbv zeta. rewrite IH.
      set (g1 := if dict_has (email_key c) g then g
                 else dict_set (email_key c) [] g).
      assert (Hg1 : forall k,
                 dict_get k g1
                 = if email_key c =? k
                   then match dict_get k g with
                        | Some l => Some l
                        | None => Some []
                        end
                   else dict_get k g).
      { intros k. unfold g1, dict_has.
        destruct (email_key c =? k) eqn:E.
        - apply String.eqb_eq in E. subst k.
          destruct (dict_get (email_key c) g) eqn:El; [exact El |].
          apply dict_get_set_same.
        - apply String.eqb_neq in E.
          destruct (dict_get (email_key c) g); [reflexivity |].
          now apply dict_get_set_other. }
      destruct (email_key c =? e) eqn:E.
      * apply String.eqb_eq in E. subst e. rewrite Ek. cbn [negb andb].
        rewrite dict_get_set_same, Hg1, String.eqb_refl.
        destruct (dict_get (email_key c) g) as [l |];
          [now rewrite <- app_assoc | reflexivity].
      * cbn [andb]. apply String.eqb_neq in E.
        rewrite (dict_get_set_other _ _ _ _ E), Hg1.
        apply String.eqb_neq in E. now rewrite E.
Qed.

Lemma filter_keys_nodup {V : Type} (p : string * V -> bool) (d : dict V) :
  NoDup (dict_keys d) -> NoDup (dict_keys (filter p d)).
Proof.
  induction d as [| kv d IH]; simpl; [trivial |].
  intros Hnd. inversion Hnd as [| ? ? Hnotin Hnd']; subst.
  destruct (p kv); simpl; [| now apply IH].
  constructor; [| now apply IH].
  intros Hin. apply Hnotin. unfold dict_keys in *.
  apply in_map_iff in Hin. destruct Hin as (x & Hx & Hin).
  apply filter_In in Hin. destruct Hin as [Hin _].
  rewrite <- Hx. now apply in_map.
Qed.

Lemma filter_nothing {A : Type} (p : A -> bool) (l : list A) :
  (forall x, p x = false) -> filter p l = [].
Proof.
  intros Hp. induction l as [| x l IH]; [reflexivity |].
  cbn [filter]. now rewrite Hp.
Qed.

End Duplicates.

(** X30. [find_duplicates] returns one group for each non-empty
    normalised email (lower case, stripped) that at least two stored
    contacts share, holding exactly those contacts in store order; emails
    that are unique, empty or missing give no group, no email has two
    groups, and the instance is left as it was. *)
Theorem find_duplicates_groups_shared_emails (self : tool) :
  mock_mode self = true ->
  exists duplicates,
    CleanupAgent.find_duplicates self = (Returned duplicates, self)
    /\ NoDup (dict_keys duplicates)
    /\ forall email group,
         In (email, group) duplicates
         <-> email <> ""
             /\ group = filter (fun c => email_key c =? email) (mock_contacts self)
             /\ (2 <= List.length group)%nat.
Proof.
  intros Hm. unfold CleanupAgent.find_duplicates.
  rewrite (bind_returned _ _ _ _ _ (search_everything self Hm)). cbv zeta.
  set (G := CleanupAgent.group_by_email (mock_contacts self) []).
  assert (HG : NoDup (dict_keys G))
    by (apply group_by_email_nodup; constructor).
  eexists. split; [reflexivity |]. split; [now apply filter_keys_nodup |].
  intros email group. rewrite filter_In. cbn [snd].
  assert (Hget := group_by_email_get (mock_contacts self) [] email).
  fold G in Hget. cbn [dict_get] in Hget.
  split.
  - intros [Hin Hlen]. apply Nat.ltb_lt in Hlen.
    apply (dict_get_nodup _ _ _ HG) in Hin. rewrite Hin in Hget.
    destruct (email =? "") eqn:Ee.
    + exfalso.
      assert (Hnil : filter (fun c => (email_key c =? email) && negb true)
                       (mock_contacts self) = []).
      { apply filter_nothing. intros c. apply andb_false_r. }
      rewrite Hnil in Hget. discriminate Hget.
    + apply String.eqb_neq in Ee. split; [assumption |]. split; [| lia].
      cbn [negb] in Hget.
      assert (Hsame : filter (fun c => (email_key c =? email) && true)
                        (mock_contacts self)
                      = filter (fun c => email_key c =? email)
                          (mock_contacts self)).
      { apply filter_ext. intros c. apply andb_true_r. }
      rewrite Hsame in Hget.
      destruct (filter (fun c => email_key c =? email) (mock_contacts self));
        [discriminate Hget | now injection Hget].
  - intros (Hne & -> & Hlen). apply String.eqb_neq in Hne.
    rewrite Hne in Hget. cbn [negb] in Hget.
    assert (Hsame : filter (fun c => (email_key c =? email) && true)
                      (mock_contacts self)
                    = filter (fun c => email_key c =? email)
                        (mock_contacts self)).
    { apply filter_ext. intros c. apply andb_true_r. }
    rewrite Hsame in Hget.
    split; [| apply Nat.ltb_lt; lia].
    apply dict_get_some_in. rewrite Hget.
    destruct (filter (fun c => email_key c =? email) (mock_contacts self));
      [simpl in Hlen; lia | reflexivity].
Qed.

Lemma find_duplicates_groups_shared_emails_witness :
  let twin :=
    mkContact "contact_006" (Some " Jane.Smith@Example.COM ") (Some "J")
              (Some "Smith") None None None None in
  exists duplicates,
    CleanupAgent.find_duplicates
      (mkTool true (mock_contacts fresh_tool ++ [ twin ]) [])
    = (Returned duplicates,
       mkTool true (mock_contacts fresh_tool ++ [ twin ]) [])
    /\ NoDup (dict_keys duplicates)
    /\ map (fun g => (fst g, map c_id (snd g))) duplicates
       = [ ("jane.smith@example.com", [ "contact_001"; "contact_006" ]) ]
    /\ forall email group,
         In (email, group) duplicates
         <-> email <> ""
             /\ group = filter (fun c => email_key c =? email)
                          (mock_contacts fresh_tool ++ [ twin ])
             /\ (2 <= List.length group)%nat.
Proof.
  intros twin.
  destruct (find_duplicates_groups_shared_emails
              (mkTool true (mock_contacts fresh_tool ++ [ twin ]) []) eq_refl)
    as (duplicates & Hrun & Hnd & Hiff).
  exists duplicates. split; [exact Hrun |]. split; [exact Hnd |].
  split; [| exact Hiff].
  assert (E : fst (CleanupAgent.find_duplicates
                     (mkTool true (mock_contacts fresh_tool ++ [ twin ]) []))
              = Returned duplicates) by now rewrite Hrun.
  vm_compute in E. injection E as <-. reflexivity.
Defined.
